(** * tempad-dev-mod: the Figma export interchange format

    A shallow embedding of [apply-figma-export.js] (the Importer: parser,
    single-file-component synthesizer, collision resolver and command-line
    driver) and of [downloadAllFromFrame] in [CodeSection.vue] (the
    Exporter), together with the properties of the repository's
    specification that concern them.

    Strings are sequences of UTF-16 code units, as in JavaScript. The
    regular expressions of the source are kept as data and run by a
    backtracking matcher; the global replacements of one character class
    are written as list functions. The collision table is a finite map.
    The effects of [main] are a list of events, over a file system whose
    calls can throw; a small monad threads the events and the end of
    the process through the calls. *)

From Stdlib Require Import String Ascii NArith DecimalString.
From stdpp Require Import base list gmap.

Local Open Scope N_scope.
Local Open Scope list_scope.

(** ** JavaScript strings

    A JavaScript string is a sequence of UTF-16 code units. *)

Abbreviation char := N (only parsing).
Abbreviation str := (list N) (only parsing).

(** An ASCII literal of the source, as a sequence of code units. *)
Definition js (s : string) : str :=
  List.map N_of_ascii (list_ascii_of_string s).
Arguments js s%_string.

Module Ch.
Definition TAB : char := 9.
Definition LF : char := 10.
Definition CR : char := 13.
Definition SP : char := 32.
Definition DQUOTE : char := 34.
Definition DOLLAR : char := 36.
Definition AMP : char := 38.
Definition QUOTE : char := 39.
Definition LPAREN : char := 40.
Definition RPAREN : char := 41.
Definition HYPHEN : char := 45.
Definition COLON : char := 58.
Definition SEMI : char := 59.
Definition LT : char := 60.
Definition GT : char := 62.
Definition BACKSLASH : char := 92.
Definition UNDERSCORE : char := 95.
Definition BACKTICK : char := 96.
Definition LBRACE : char := 123.
Definition RBRACE : char := 125.
End Ch.

(** The one-character strings that the source writes as escapes. *)
Definition nl : str := [Ch.LF].
Definition dq : str := [Ch.DQUOTE].

Definition in_range (lo hi c : char) : bool := (lo <=? c) && (c <=? hi).

Definition is_lower (c : char) : bool := in_range 97 122 c.
Definition is_upper (c : char) : bool := in_range 65 90 c.
Definition is_digit (c : char) : bool := in_range 48 57 c.

(** ECMAScript LineTerminator: LF, CR, LS, PS. *)
Definition is_line_terminator (c : char) : bool :=
  (c =? 10) || (c =? 13) || (c =? 8232) || (c =? 8233).

(** ECMAScript WhiteSpace and LineTerminator: the class [\s] of a regular
    expression and the characters removed by [String.prototype.trim]. *)
Definition is_space (c : char) : bool :=
  in_range 9 13 c || (c =? 32) || (c =? 160) || (c =? 5760)
  || in_range 8192 8202 c || (c =? 8232) || (c =? 8233) || (c =? 8239)
  || (c =? 8287) || (c =? 12288) || (c =? 65279).

(** The class [.] of a regular expression without the [s] flag. *)
Definition is_dot (c : char) : bool := negb (is_line_terminator c).

Definition str_eqb (a b : str) : bool := bool_decide (a = b).

Fixpoint drop_while (p : char -> bool) (s : str) : str :=
  match s with
  | c :: s' => if p c then drop_while p s' else s
  | [] => []
  end.

Definition trimStart (s : str) : str := drop_while is_space s.
Definition trimEnd (s : str) : str := rev (drop_while is_space (rev s)).
Definition trim (s : str) : str := trimEnd (trimStart s).

Fixpoint starts_with (p s : str) : bool :=
  match p, s with
  | [], _ => true
  | a :: p', b :: s' => (a =? b) && starts_with p' s'
  | _ :: _, [] => false
  end.

(** [s.includes(sub)] *)
Fixpoint includes (s sub : str) : bool :=
  starts_with sub s ||
  match s with
  | [] => false
  | _ :: s' => includes s' sub
  end.

(** [parts.join(sep)] *)
Fixpoint join (sep : str) (parts : list str) : str :=
  match parts with
  | [] => []
  | [p] => p
  | p :: ps => p ++ sep ++ join sep ps
  end.

(** [`${n}`] for a non-negative integer. *)
Definition num_to_str (n : nat) : str :=
  js (NilZero.string_of_uint (Nat.to_uint n)).

(** [a || b] on strings: the empty string is the only falsy string. *)
Definition or_else (a b : str) : str :=
  match a with [] => b | _ => a end.

(** ** Regular expressions

    The fragment that the source uses: sequences of single characters,
    character classes, greedy [*], [+] and [?] over one class, capture
    groups around a greedy star and the end anchor; matching is the
    backtracking, leftmost, greedy-first search of ECMAScript. *)

Module Re.

Inductive atom : Type :=
| Lit (c : char)               (* the character c *)
| Cls (p : char -> bool)       (* one character of a class *)
| Star (p : char -> bool)      (* p* *)
| Plus (p : char -> bool)      (* p+ *)
| Opt (p : char -> bool)       (* p? *)
| Group (p : char -> bool)     (* (p* ), a capture group *)
| Eos.                         (* $ without the m flag *)

Definition lits (s : string) : list atom := List.map Lit (js s).
Arguments lits s%_string.

Section Backtracking.
Context {R : Type}.

(** Greedy [p*] followed by the continuation [k]: the longest run is
    tried first, then every shorter one. *)
Fixpoint star (p : char -> bool) (k : str -> option R) (s : str)
  : option R :=
  match s with
  | c :: s' =>
      if p c then
        match star p k s' with
        | Some r => Some r
        | None => k s
        end
      else k s
  | [] => k []
  end.

(** The same for a capture group: [k] also receives the captured run. *)
Fixpoint group (p : char -> bool) (k : str -> str -> option R)
         (acc s : str) : option R :=
  match s with
  | c :: s' =>
      if p c then
        match group p k (acc ++ [c]) s' with
        | Some r => Some r
        | None => k acc s
        end
      else k acc s
  | [] => k acc []
  end.
End Backtracking.

(** [run r s caps]: match [r] at the start of [s]; the result is the
    list of captures and the unmatched rest of [s]. *)
Fixpoint run (r : list atom) (s : str) (caps : list str)
  : option (list str * str) :=
  match r with
  | [] => Some (caps, s)
  | Lit c :: r' =>
      match s with
      | c' :: s' => if c =? c' then run r' s' caps else None
      | [] => None
      end
  | Cls p :: r' =>
      match s with
      | c' :: s' => if p c' then run r' s' caps else None
      | [] => None
      end
  | Star p :: r' => star p (fun s' => run r' s' caps) s
  | Plus p :: r' =>
      match s with
      | c' :: s' =>
          if p c' then star p (fun s'' => run r' s'' caps) s' else None
      | [] => None
      end
  | Opt p :: r' =>
      match s with
      | c' :: s' =>
          if p c' then
            match run r' s' caps with
            | Some res => Some res
            | None => run r' s caps
            end
          else run r' s caps
      | [] => run r' s caps
      end
  | Group p :: r' => group p (fun x s' => run r' s' (caps ++ [x])) [] s
  | Eos :: r' =>
      match s with
      | [] => run r' s caps
      | _ :: _ => None
      end
  end.

(** A regular expression that starts with [^] (no [m] flag) can only
    match at the start of the input: [s.match(re)] gives the captures. *)
Definition match_start (r : list atom) (s : str) : option (list str) :=
  fst <$> run r s [].

Definition test_start (r : list atom) (s : str) : bool :=
  bool_decide (is_Some (match_start r s)).

(** The result of a successful search: the text before the match, the
    matched text and the text after it. *)
Record found := { f_pre : str; f_match : str; f_post : str }.

Definition match_here (r : list atom) (pre s : str) : option found :=
  match run r s [] with
  | Some (_, rest) =>
      Some {| f_pre := pre;
              f_match := take (length s - length rest)%nat s;
              f_post := rest |}
  | None => None
  end.

(** Leftmost match of an unanchored regular expression. *)
Fixpoint search_from (r : list atom) (pre s : str) : option found :=
  match match_here r pre s with
  | Some f => Some f
  | None =>
      match s with
      | c :: s' => search_from r (pre ++ [c]) s'
      | [] => None
      end
  end.

Definition search (r : list atom) (s : str) : option found :=
  search_from r [] s.

(** A regular expression [/^.../m]: with the [m] flag [^] matches at the
    start of the input and after every line terminator. *)
Fixpoint test_line_starts (r : list atom) (at_start : bool) (s : str)
  : bool :=
  (at_start && bool_decide (is_Some (run r s []))) ||
  match s with
  | c :: s' => test_line_starts r (is_line_terminator c) s'
  | [] => false
  end.

Definition test_multiline (r : list atom) (s : str) : bool :=
  test_line_starts r true s.

End Re.

(** ** More of the string library *)

(** [s.split(re)] for a regular expression without capture groups that
    never matches the empty string: the pieces between successive
    leftmost matches. [skip] counts the characters of the current match
    that are still to be passed over, [cur] is the piece being read. *)
Fixpoint split_re (r : list Re.atom) (skip : nat) (cur s : str)
  : list str :=
  match s with
  | [] => [cur]
  | c :: s' =>
      match skip with
      | S n => split_re r n cur s'
      | O =>
          match Re.run r s [] with
          | Some (_, rest) =>
              match (length s - length rest)%nat with
              | S n => cur :: split_re r n [] s'
              | O => split_re r O (cur ++ [c]) s'
              end
          | None => split_re r O (cur ++ [c]) s'
          end
      end
  end.

Definition split (r : list Re.atom) (s : str) : list str :=
  split_re r O [] s.

(** [GetSubstitution] of ECMAScript for a regular expression without
    capture groups: in the replacement text [$$] is a dollar sign, [$&]
    the matched text, [$`] the text before it and [$'] the text after
    it; every other dollar sign stands for itself. *)
Fixpoint get_substitution (f : Re.found) (repl : str) : str :=
  match repl with
  | [] => []
  | c :: repl' =>
      if c =? Ch.DOLLAR then
        match repl' with
        | d :: repl'' =>
            if d =? Ch.DOLLAR then Ch.DOLLAR :: get_substitution f repl''
            else if d =? Ch.AMP then Re.f_match f ++ get_substitution f repl''
            else if d =? Ch.BACKTICK then
              Re.f_pre f ++ get_substitution f repl''
            else if d =? Ch.QUOTE then
              Re.f_post f ++ get_substitution f repl''
            else c :: get_substitution f repl'
        | [] => [c]
        end
      else c :: get_substitution f repl'
  end.

(** [s.replace(re, repl)] for a regular expression without the [g] flag:
    the leftmost match only. *)
Definition replace_first (r : list Re.atom) (repl s : str) : str :=
  match Re.search r s with
  | Some f => Re.f_pre f ++ get_substitution f repl ++ Re.f_post f
  | None => s
  end.

(** [s.indexOf(':')], as the pair of [s.slice(0, idx)] and
    [s.slice(idx + 1)]; [None] stands for [-1]. *)
Fixpoint cut_at (d : char) (s : str) : option (str * str) :=
  match s with
  | [] => None
  | c :: s' =>
      if c =? d then Some ([], s')
      else
        match cut_at d s' with
        | Some (a, b) => Some (c :: a, b)
        | None => None
        end
  end.

(** ** The data model *)

(** [{ title, lang, code }] *)
Record ExportedSection := {
  title : str;
  lang : str;
  code : str
}.

(** [{ name, sections }] *)
Record ExportedComponent := {
  name : str;
  sections : list ExportedSection
}.

(** [{ filename, content }] *)
Record SynthesizedFile := {
  filename : str;
  content : str
}.

Definition append_code (raw : str) (s : ExportedSection) : ExportedSection :=
  {| title := title s; lang := lang s; code := code s ++ raw ++ nl |}.

Definition push_section (s : ExportedSection) (c : ExportedComponent)
  : ExportedComponent :=
  {| name := name c; sections := sections c ++ [s] |}.

Definition update_section (i : nat) (f : ExportedSection -> ExportedSection)
           (c : ExportedComponent) : ExportedComponent :=
  {| name := name c; sections := alter f i (sections c) |}.

(** ** apply-figma-export.js *)

(** [/[^a-zA-Z0-9\-\_ ]/]: the complement is kept by [sanitizeName]. *)
Definition is_name_char (c : char) : bool :=
  is_lower c || is_upper c || is_digit c
  || (c =? Ch.HYPHEN) || (c =? Ch.UNDERSCORE) || (c =? Ch.SP).

(** [/[^A-Za-z0-9_]/]: the complement is kept by [buildSFC]. *)
Definition is_ident_char (c : char) : bool :=
  is_upper c || is_lower c || is_digit c || (c =? Ch.UNDERSCORE).

(** [s.replace(/\s+/g, '_')]: [in_run] tells that the previous character
    belonged to the run of white space that is being replaced. *)
Fixpoint collapse_spaces (in_run : bool) (s : str) : str :=
  match s with
  | [] => []
  | c :: s' =>
      if is_space c then
        if in_run then collapse_spaces true s'
        else Ch.UNDERSCORE :: collapse_spaces true s'
      else c :: collapse_spaces false s'
  end.

Definition sanitizeName (name : str) : str :=
  or_else
    (collapse_spaces false (trim (List.filter is_name_char name)))
    (js "Generated").

(** [/\r?\n/] *)
Definition lineBreakRe : list Re.atom :=
  [Re.Opt (N.eqb Ch.CR); Re.Lit Ch.LF].

(** [/^\/\/\s*=====\s*Component:\s*( .* )\s*=====\s*$/], with blanks added
    inside the capture group for readability. *)
Definition compRe : list Re.atom :=
  Re.lits "//" ++ [Re.Star is_space] ++ Re.lits "=====" ++
  [Re.Star is_space] ++ Re.lits "Component:" ++
  [Re.Star is_space; Re.Group is_dot; Re.Star is_space] ++
  Re.lits "=====" ++ [Re.Star is_space; Re.Eos].

(** [/^\/\/\s*----\s*( .* )\s*\(( .* )\)\s*----\s*$/], with blanks added
    inside the capture groups for readability. *)
Definition secRe : list Re.atom :=
  Re.lits "//" ++ [Re.Star is_space] ++ Re.lits "----" ++
  [Re.Star is_space; Re.Group is_dot; Re.Star is_space;
   Re.Lit Ch.LPAREN; Re.Group is_dot; Re.Lit Ch.RPAREN;
   Re.Star is_space] ++
  Re.lits "----" ++ [Re.Star is_space; Re.Eos].

(** [raw.replace(/\t/g, '')] *)
Definition strip_tabs (raw : str) : str :=
  List.filter (fun c => negb (c =? Ch.TAB)) raw.

(** The variables of the loop of [parseBlocks]. [curSection] is a
    reference to an element of [cur.sections]: it is kept as the index of
    that element, so that appending to its code changes [cur]. *)
Record parser := {
  comps : list ExportedComponent;
  cur : option ExportedComponent;
  curSection : option nat
}.

Definition parser_init : parser :=
  {| comps := []; cur := None; curSection := None |}.

(** [if (cur) comps.push(cur)] *)
Definition push_cur (cs : list ExportedComponent)
           (c : option ExportedComponent) : list ExportedComponent :=
  match c with
  | Some c => cs ++ [c]
  | None => cs
  end.

Section Importer.

(** [String.prototype.toLowerCase] belongs to the language, and its
    case mapping covers all of Unicode: it is a parameter here. *)
Variable toLowerCase : str -> str.

(** One iteration of the loop of [parseBlocks]. *)
Definition parse_line (st : parser) (raw : str) : parser :=
  let line := strip_tabs raw in
  match Re.match_start compRe line with
  | Some m =>
      {| comps := push_cur (comps st) (cur st);
         cur := Some {| name := trim (nth 0 m []); sections := [] |};
         curSection := None |}
  | None =>
      match Re.match_start secRe line, cur st with
      | Some s, Some c =>
          let sec := {| title := trim (nth 0 s []);
                        lang := toLowerCase (trim (nth 1 s []));
                        code := [] |} in
          {| comps := comps st;
             cur := Some (push_section sec c);
             curSection := Some (length (sections c)) |}
      | _, _ =>
          match curSection st with
          | Some i =>
              {| comps := comps st;
                 cur := update_section i (append_code raw) <$> cur st;
                 curSection := curSection st |}
          | None => st
          end
      end
  end.

Definition parse_lines (lines : list str) : list ExportedComponent :=
  let st := fold_left parse_line lines parser_init in
  push_cur (comps st) (cur st).

Definition parseBlocks (content : str) : list ExportedComponent :=
  parse_lines (split lineBreakRe content).

End Importer.

(** [s.replace(/c/g, by)] for one character [c] and a replacement text
    without dollar sign. *)
Definition replace_char (c : char) (by_ : str) (s : str) : str :=
  flat_map (fun d => if d =? c then by_ else [d]) s.

(** Three global replacements, one after the other. *)
Definition escapeHtml (s : str) : str :=
  replace_char Ch.GT (js "&gt;")
    (replace_char Ch.LT (js "&lt;")
       (replace_char Ch.AMP (js "&amp;") s)).

(** The three arrays filled by the first loop of [buildSFC]. *)
Record parts := {
  htmlParts : list str;
  cssParts : list str;
  jsParts : list str
}.

Definition is_template_lang (l : str) : bool :=
  str_eqb l (js "html") || str_eqb l (js "vue")
  || str_eqb l (js "template") || str_eqb l (js "component").

Definition is_script_lang (l : str) : bool :=
  str_eqb l (js "js") || str_eqb l (js "jsx") || str_eqb l (js "tsx").

(** The body of the loop over [component.sections]. *)
Definition classify (p : parts) (sec : ExportedSection) : parts :=
  match lang sec with
  | [] => p
  | _ =>
      if includes (lang sec) (js "css") then
        {| htmlParts := htmlParts p;
           cssParts := cssParts p ++ [code sec];
           jsParts := jsParts p |}
      else if is_template_lang (lang sec) then
        {| htmlParts := htmlParts p ++ [code sec];
           cssParts := cssParts p;
           jsParts := jsParts p |}
      else if is_script_lang (lang sec) then
        {| htmlParts := htmlParts p;
           cssParts := cssParts p;
           jsParts := jsParts p ++ [code sec] |}
      else
        {| htmlParts :=
             htmlParts p ++
             [js "<pre>" ++ escapeHtml (code sec) ++ js "</pre>"];
           cssParts := cssParts p;
           jsParts := jsParts p |}
  end.

Definition classify_all (secs : list ExportedSection) : parts :=
  fold_left classify secs
    {| htmlParts := []; cssParts := []; jsParts := [] |}.

(** *** [cssDeclsToJsObject] *)

(** [/;\s*\n?/] *)
Definition declSepRe : list Re.atom :=
  [Re.Lit Ch.SEMI; Re.Star is_space; Re.Opt (N.eqb Ch.LF)].

(** [prop.replace(/-([a-z])/g, (_, c) => c.toUpperCase())] *)
Fixpoint camelCase (s : str) : str :=
  match s with
  | [] => []
  | c :: s' =>
      if c =? Ch.HYPHEN then
        match s' with
        | d :: s'' =>
            if is_lower d then (d - 32) :: camelCase s''
            else c :: camelCase s'
        | [] => [c]
        end
      else c :: camelCase s'
  end.

(** A plain JavaScript object with string values: its own properties in
    the order of their creation. *)
Abbreviation jsobject := (list (str * str)) (only parsing).

Fixpoint obj_update (k v : str) (o : jsobject) : option jsobject :=
  match o with
  | [] => None
  | (k', v') :: o' =>
      if str_eqb k k' then Some ((k', v) :: o')
      else cons (k', v') <$> obj_update k v o'
  end.

(** [obj[k] = v]. Assigning a string to [__proto__] runs the setter
    inherited from [Object.prototype], which ignores it. *)
Definition obj_set (k v : str) (o : jsobject) : jsobject :=
  if str_eqb k (js "__proto__") then o
  else
    match obj_update k v o with
    | Some o' => o'
    | None => o ++ [(k, v)]
    end.

(** An array index is the canonical decimal form of an integer below
    2^32 - 1. *)
Definition digits_value (s : str) : N :=
  fold_left (fun acc c => 10 * acc + (c - 48)) s 0.

Definition array_index (k : str) : option N :=
  match k with
  | [] => None
  | c :: k' =>
      if forallb is_digit k
         && ((negb (c =? 48)) || bool_decide (k' = []))
         && (digits_value k <? 4294967295)
      then Some (digits_value k)
      else None
  end.

Fixpoint insert_sorted (e : N * (str * str)) (l : list (N * (str * str)))
  : list (N * (str * str)) :=
  match l with
  | [] => [e]
  | e' :: l' =>
      if fst e <=? fst e' then e :: l else e' :: insert_sorted e l'
  end.

(** [Object.entries(o)]: the array indices in ascending order, then the
    other keys in the order of their creation. *)
Definition obj_entries (o : jsobject) : list (str * str) :=
  let indexed :=
    omap (fun kv => (fun i => (i, kv)) <$> array_index (fst kv)) o in
  let others :=
    List.filter (fun kv => bool_decide (array_index (fst kv) = None)) o in
  List.map snd (fold_right insert_sorted [] indexed) ++ others.

(** The body of the loop over the declarations. *)
Definition add_decl (o : jsobject) (ln : str) : jsobject :=
  match cut_at Ch.COLON ln with
  | None => o
  | Some (before, after) =>
      obj_set (camelCase (trim before)) (trim after) o
  end.

Definition render_entry (kv : str * str) : str :=
  let safe := replace_char Ch.QUOTE [Ch.BACKSLASH; Ch.QUOTE] (snd kv) in
  js "  " ++ fst kv ++ js ": '" ++ safe ++ js "'".

Definition cssDeclsToJsObject (cssText : str) : str :=
  let lines :=
    List.filter (fun l => negb (bool_decide (l = [])))
      (List.map trim (split declSepRe cssText)) in
  let obj := fold_left add_decl lines [] in
  let entries := List.map render_entry (obj_entries obj) in
  js "{" ++ nl ++ join (js "," ++ nl) entries ++ nl ++ js "}".

(** *** [buildSFC] *)

(** [/^\{[\s\S]*\}$/] *)
Definition objectLiteralRe : list Re.atom :=
  [Re.Lit Ch.LBRACE; Re.Star (fun _ => true); Re.Lit Ch.RBRACE; Re.Eos].

(** [/^\s*[a-zA-Z-]+\s*:/m] *)
Definition is_decl_char (c : char) : bool :=
  is_lower c || is_upper c || (c =? Ch.HYPHEN).

Definition declRe : list Re.atom :=
  [Re.Star is_space; Re.Plus is_decl_char; Re.Star is_space;
   Re.Lit Ch.COLON].

(** [component.name || `Component_${idx + 1}`], sanitized. *)
Definition nameBase (component : ExportedComponent) (idx : nat) : str :=
  sanitizeName
    (or_else (name component) (js "Component_" ++ num_to_str (idx + 1))).

Definition compName (component : ExportedComponent) (idx : nat) : str :=
  List.filter is_ident_char (nameBase component idx).

Definition fallback_template (component : ExportedComponent) : str :=
  nl ++ js "<div class=" ++ dq ++ js "generated-root" ++ dq ++ js ">" ++ nl ++
  js "  <!-- generated component: " ++ name component ++ js " -->" ++ nl ++
  js "  <div>" ++ name component ++ js "</div>" ++ nl ++
  js "</div>" ++ nl.

Definition initial_template (component : ExportedComponent) (p : parts)
  : str :=
  match htmlParts p with
  | [] => fallback_template component
  | _ => join nl (htmlParts p)
  end.

(** [if (!template.includes(':style')) template = ...] *)
Definition wrap_inline_style (template : str) : str :=
  if includes template (js ":style") then template
  else
    nl ++ js "<div :style=" ++ dq ++ js "inlineStyle" ++ dq ++ js ">" ++ nl ++
    template ++ nl ++ js "</div>" ++ nl.

(** The values of [scriptSetup], [template] and [cssParts] after the
    script has been resolved. *)
Record resolved := {
  scriptSetup : str;
  template : str;
  styleParts : list str
}.

Definition resolve_script (p : parts) (template0 : str) : resolved :=
  match jsParts p with
  | j :: _ =>
      let first := trim j in
      if Re.test_start objectLiteralRe first then
        {| scriptSetup := js "const inlineStyle = " ++ first ++ nl;
           template := wrap_inline_style template0;
           styleParts := cssParts p |}
      else
        {| scriptSetup := join nl (jsParts p) ++ nl;
           template := template0;
           styleParts := cssParts p |}
  | [] =>
      match cssParts p with
      | _ :: _ =>
          let joined := join nl (cssParts p) in
          if Re.test_multiline declRe joined then
            {| scriptSetup :=
                 js "const inlineStyle = " ++ cssDeclsToJsObject joined ++ nl;
               template := wrap_inline_style template0;
               styleParts := [] |}
          else
            {| scriptSetup := []; template := template0;
               styleParts := cssParts p |}
      | [] =>
          {| scriptSetup := []; template := template0; styleParts := [] |}
      end
  end.

Definition script_block (setup compName : str) : str :=
  match setup with
  | [] =>
      js "<script>" ++ nl ++ js "export default { name: '" ++ compName ++
      js "' }" ++ nl ++ js "</script>" ++ nl
  | _ =>
      js "<script setup>" ++ nl ++ setup ++ nl ++ js "</script>" ++ nl
  end.

Definition style_block (css : list str) : str :=
  match css with
  | [] => []
  | _ =>
      js "<style scoped>" ++ nl ++ join nl css ++ nl ++ js "</style>" ++ nl
  end.

Definition header_comment (name : str) : str :=
  js "<!-- Generated from Figma export: " ++ name ++ js " -->".

Definition buildSFC (component : ExportedComponent) (idx : nat)
  : SynthesizedFile :=
  let compName := compName component idx in
  let p := classify_all (sections component) in
  let r := resolve_script p (initial_template component p) in
  let script := script_block (scriptSetup r) compName in
  let style := style_block (styleParts r) in
  {| filename := compName ++ js ".vue";
     content :=
       header_comment (name component) ++ nl ++
       js "<template>" ++ nl ++ template r ++ nl ++ js "</template>" ++ nl ++
       nl ++ script ++ nl ++ style |}.

(** *** [writeComponentsToApp] *)

(** [/\.vue$/i] *)
Definition vueSuffixRe : list Re.atom :=
  [Re.Lit 46;
   Re.Cls (fun c => (c =? 118) || (c =? 86));
   Re.Cls (fun c => (c =? 117) || (c =? 85));
   Re.Cls (fun c => (c =? 101) || (c =? 69));
   Re.Eos].

(** [/export default \{\s*name:\s*'[^']*'\s*\}/] *)
Definition exportNameRe : list Re.atom :=
  Re.lits "export default {" ++ [Re.Star is_space] ++ Re.lits "name:" ++
  [Re.Star is_space; Re.Lit Ch.QUOTE;
   Re.Star (fun c => negb (c =? Ch.QUOTE)); Re.Lit Ch.QUOTE;
   Re.Star is_space; Re.Lit Ch.RBRACE].

(** [/<!-- Generated from Figma export: [^>]*-->/] *)
Definition headerRe : list Re.atom :=
  Re.lits "<!-- Generated from Figma export: " ++
  [Re.Star (fun c => negb (c =? Ch.GT))] ++ Re.lits "-->".

(** The condition under which the callback of [forEach] goes on to
    synthesize the component: the first section tagged [vue], [template]
    or [component] exists and its code is not blank. *)
Definition is_gate_lang (l : str) : bool :=
  str_eqb l (js "vue") || str_eqb l (js "template")
  || str_eqb l (js "component").

Definition tplSection (c : ExportedComponent) : option ExportedSection :=
  List.find (fun s => is_gate_lang (lang s)) (sections c).

Definition has_template (c : ExportedComponent) : bool :=
  match tplSection c with
  | None => false
  | Some s =>
      match code s with
      | [] => false
      | _ => match trim (code s) with [] => false | _ => true end
      end
  end.

(** [used], [files] and the calls of [fs.writeFileSync], in order. *)
Record writer := {
  used : gmap str nat;
  files : list str;
  written : list SynthesizedFile
}.

Definition emit (f : SynthesizedFile) (used' : gmap str nat) (w : writer)
  : writer :=
  {| used := used';
     files := files w ++ [filename f];
     written := written w ++ [f] |}.

(** The callback of [comps.forEach]. *)
Definition write_component (w : writer) (c : ExportedComponent) (i : nat)
  : writer :=
  if has_template c then
    let sfc := buildSFC c i in
    let base := replace_first vueSuffixRe [] (filename sfc) in
    match used w !! base with
    | Some n =>
        let count := (n + 1)%nat in
        let newBase := base ++ js "_" ++ num_to_str count in
        let content1 :=
          replace_first exportNameRe
            (js "export default { name: '" ++ newBase ++ js "' }")
            (content sfc) in
        let content2 :=
          replace_first headerRe (header_comment (name c)) content1 in
        emit {| filename := newBase ++ js ".vue"; content := content2 |}
             (<[base := count]> (used w)) w
    | None =>
        emit sfc (<[base := 1%nat]> (used w)) w
    end
  else w.

Fixpoint forEach (w : writer) (i : nat) (comps : list ExportedComponent)
  : writer :=
  match comps with
  | [] => w
  | c :: comps' => forEach (write_component w c i) (S i) comps'
  end.

Definition writeComponentsToApp (comps : list ExportedComponent) : writer :=
  forEach {| used := ∅; files := []; written := [] |} O comps.

(** *** The process and the file system *)

(** The result of a call of [fs] that can throw. The report is what
    Node writes on standard error, message and stack trace, when
    nothing catches the exception. *)
Inductive fs_result (A : Type) : Type :=
| Ok (a : A)
| Throws (report : str).
Arguments Ok {A} a.
Arguments Throws {A} report.

(** What the process does to its environment, in order. [Uncaught] is
    the end of a process by an exception that nothing catches: the
    report on standard error and exit code 1. *)
Inductive event : Type :=
| ConsoleError (msg : str)
| ConsoleLog (msg : str)
| MkdirSync (dir : str)
| WriteFileSync (path data : str)
| Uncaught (report : str).

(** The environment of one run: the two paths computed when the module
    is loaded, and what the file system answers to each call. A call
    that returns is [Ok]; whether a call throws is a matter of its
    arguments. *)
Record world := {
  inputFile : str;
  targetApp : str;
  existsSync : str -> bool;
  readFileSync : str -> fs_result str;
  mkdirSync : str -> fs_result unit;
  writeFileSync : str -> str -> fs_result unit
}.

(** A piece of the program: the events it adds, and its value when
    control goes on after it; [None] when the process has ended, by
    [process.exit(1)] or by an uncaught exception. *)
Definition proc (A : Type) : Type := list event * option A.

#[global] Instance proc_ret : MRet proc := fun A a => ([], Some a).

#[global] Instance proc_bind : MBind proc := fun A B f m =>
  match snd m with
  | Some a => (fst m ++ fst (f a), snd (f a))
  | None => (fst m, None)
  end.

Definition console_error (msg : str) : proc unit :=
  ([ConsoleError msg], Some tt).

Definition console_log (msg : str) : proc unit :=
  ([ConsoleLog msg], Some tt).

(** [process.exit(1)] *)
Definition exit1 : proc unit := ([], None).

(** A call of [fs]: the event [done] when it returns. *)
Definition fs_call {A : Type} (r : fs_result A) (done : list event)
  : proc A :=
  match r with
  | Ok a => (done, Some a)
  | Throws report => ([Uncaught report], None)
  end.

(** [if (b) p] *)
Definition when (b : bool) (p : proc unit) : proc unit :=
  if b then p else mret tt.

(** [path.join(a, b)] for a normalized directory [a] and a relative path
    [b] without dot segments, on POSIX. *)
Definition path_join (a b : str) : str := a ++ js "/" ++ b.

Definition compDir (w : world) : str :=
  path_join (targetApp w) (js "src/components").

Definition appVuePath (w : world) : str :=
  path_join (targetApp w) (js "src/App.vue").

(** [safeMkdir(dir)] *)
Definition safeMkdir (w : world) (dir : str) : proc unit :=
  when (negb (existsSync w dir)) (fs_call (mkdirSync w dir) [MkdirSync dir]).

(** *** The effects of [writeComponentsToApp] *)

(** The calls of [fs.writeFileSync] and of [console.log] in the
    callback of [forEach], for the files that the callback synthesizes;
    an exception of a write ends the loop and the process. *)
Fixpoint write_events (w : world) (fs : list SynthesizedFile) : proc unit :=
  match fs with
  | [] => mret tt
  | f :: fs' =>
      let p := path_join (compDir w) (filename f) in
      fs_call (writeFileSync w p (content f)) [WriteFileSync p (content f)];;
      console_log (js "Wrote " ++ p);;
      write_events w fs'
  end.

(** [writeComponentsToApp(comps)], with its effects: the value is
    [files]. *)
Definition writeComponentsToApp_fs (w : world)
           (comps : list ExportedComponent) : proc (list str) :=
  let r := writeComponentsToApp comps in
  safeMkdir w (compDir w);;
  write_events w (written r);;
  mret (files r).

(** *** [updateAppVue] *)

(** [s.split(sep)] for a separator of one character. *)
Fixpoint split_char (d : char) (s : str) : list str :=
  match s with
  | [] => [[]]
  | c :: s' =>
      if c =? d then [] :: split_char d s'
      else
        match split_char d s' with
        | l :: ls => (c :: l) :: ls
        | [] => [[c]]
        end
  end.

(** [text.split('\n').map(l => '      ' + l).join('\n')] *)
Definition indent_lines (text : str) : str :=
  join nl (List.map (fun l => js "      " ++ l) (split_char Ch.LF text)).

Section UpdateAppVue.

(** [path.basename] belongs to Node: it is a parameter here. *)
Variable basename : str -> str -> str.

(** The elements of [imports] and of [uses]. *)
Definition import_line (f : str) : str :=
  js "import " ++ basename f (js ".vue") ++ js " from './components/" ++ f ++
  js "'".

Definition use_block (f : str) : str :=
  let name := basename f (js ".vue") in
  js "  <section class=" ++ dq ++ js "generated-section" ++ dq ++ js ">" ++ nl ++
  js "    <h3>" ++ name ++ js "</h3>" ++ nl ++
  js "    <" ++ name ++ js " />" ++ nl ++
  js "  </section>".

(** The text of the root file that shows the given files. *)
Definition root_app (files : list str) : str :=
  js "<!-- Auto-generated App.vue: shows generated Figma components -->" ++ nl ++
  js "<template>" ++ nl ++
  js "  <UApp>" ++ nl ++
  js "    <NuxtPage>" ++ nl ++
  indent_lines (join nl (List.map use_block files)) ++ nl ++
  js "    </NuxtPage>" ++ nl ++
  js "  </UApp>" ++ nl ++
  js "</template>" ++ nl ++ nl ++
  js "<script setup lang=" ++ dq ++ js "ts" ++ dq ++ js ">" ++ nl ++
  join nl (List.map import_line files) ++ nl ++
  js "</script>" ++ nl ++ nl ++
  js "<style>" ++ nl ++
  js "#app { padding: 20px }" ++ nl ++
  js ".generated-section { margin-bottom: 24px }" ++ nl ++
  js "</style>" ++ nl.

Definition updateAppVue (w : world) (files : list str) : proc unit :=
  fs_call (writeFileSync w (appVuePath w) (root_app files))
          [WriteFileSync (appVuePath w) (root_app files)];;
  console_log (js "Overwrote " ++ appVuePath w).

End UpdateAppVue.

(** *** [main] *)

(** How a run ends: the events and the exit code. *)
Record outcome := {
  events : list event;
  exit_code : nat
}.

(** The process ends with exit code 0 when control reaches the end of
    the module, and with exit code 1 otherwise. *)
Definition finish (p : proc unit) : outcome :=
  {| events := fst p;
     exit_code := match snd p with Some _ => 0%nat | None => 1%nat end |}.

Definition done_messages : list event :=
  [ConsoleLog
     (nl ++
      js "Done. Review the generated components in my-vue-app/src/components");
   ConsoleLog (js "Then:");
   ConsoleLog (js "  cd my-vue-app");
   ConsoleLog (js "  pnpm install (or npm install)");
   ConsoleLog (js "  pnpm dev (or npm run dev)")].

Definition is_empty {A : Type} (l : list A) : bool :=
  match l with [] => true | _ => false end.

Section Main.

Variable toLowerCase : str -> str.
Variable basename : str -> str -> str.

(** [main()], called when the module is loaded. *)
Definition main (w : world) : outcome :=
  finish (
    when (negb (existsSync w (inputFile w)))
      (console_error (js "Input file not found: " ++ inputFile w);; exit1);;
    when (negb (existsSync w (targetApp w)))
      (console_error (js "Target my-vue-app not found at " ++ targetApp w);;
       exit1);;
    content ← fs_call (readFileSync w (inputFile w)) [];
    let comps := parseBlocks toLowerCase content in
    when (is_empty comps)
      (console_error (js "No components found in input file");; exit1);;
    files ← writeComponentsToApp_fs w comps;
    when (is_empty files)
      (console_error
         (js "No components with Vue template sections were generated");;
       exit1);;
    updateAppVue basename w files;;
    (done_messages, Some tt)).

End Main.

(** *** [updateAppVueWithTemplates] *)

(** [templates.map(t => t.trim()).filter(Boolean).join('\n\n')] *)
Definition join_templates (templates : list str) : str :=
  join (nl ++ nl)
    (List.filter (fun t => negb (str_eqb t [])) (List.map trim templates)).

(** The text of the root file that wraps the given templates. *)
Definition templates_app (templates : list str) : str :=
  js "<!-- Auto-generated App.vue: injected Figma components -->" ++ nl ++
  js "<template>" ++ nl ++
  js "  <UApp>" ++ nl ++
  js "    <NuxtPage>" ++ nl ++
  indent_lines (join_templates templates) ++ nl ++
  js "    </NuxtPage>" ++ nl ++
  js "  </UApp>" ++ nl ++
  js "</template>" ++ nl ++ nl ++
  js "<script setup lang=" ++ dq ++ js "ts" ++ dq ++ js ">" ++ nl ++
  js "// Nuxt UI components are expected to be globally available in this project" ++ nl ++
  js "</script>" ++ nl ++ nl ++
  js "<style scoped>" ++ nl ++
  js "/* Generated styles are not included; keep your project's styles and Tailwind config */" ++ nl ++
  js "</style>" ++ nl.

Definition updateAppVueWithTemplates (w : world) (templates : list str)
  : proc unit :=
  fs_call (writeFileSync w (appVuePath w) (templates_app templates))
          [WriteFileSync (appVuePath w) (templates_app templates)];;
  console_log (js "Overwrote " ++ appVuePath w).

(** ** CodeSection.vue: [downloadAllFromFrame] *)

Module Exporter.

(** A [CodeBlock] of the code generator. *)
Record CodeBlock := {
  name : str;
  title : str;
  lang : str;
  code : str
}.

(** A child of the selected frame, with what the plugin host and the
    code generator answer for it: whether [getDesignComponent] gives a
    component, whether [child.getCSSAsync()] or [codegen] rejects when
    it is awaited for this child, and the [codeBlocks] of [codegen]
    when neither does. *)
Record node := {
  node_name : str;
  node_id : str;
  has_component : bool;
  host_rejects : bool;
  codeBlocks : list CodeBlock
}.

Definition component_header (child : node) : str :=
  js "// ===== Component: " ++ or_else (node_name child) (node_id child) ++
  js " =====".

Definition section_header (b : CodeBlock) : str :=
  js "// ---- " ++ or_else (title b) (name b) ++ js " (" ++ lang b ++
  js ") ----".

(** The strings pushed on [parts] for one block and for one child. *)
Definition block_parts (b : CodeBlock) : list str :=
  [section_header b ++ nl; code b; nl].

Definition child_parts (child : node) : list str :=
  if has_component child then
    (component_header child ++ nl) ::
    flat_map block_parts (codeBlocks child)
  else [].

(** The loop of the [try] block: the value of [parts] after it, or
    [None] when an awaited call rejects, which ends the loop at that
    child and passes control to [catch]. A child without design
    component is skipped before anything is awaited for it. *)
Fixpoint collect_parts (children : list node) : option (list str) :=
  match children with
  | [] => Some []
  | child :: rest =>
      if has_component child && host_rejects child then None
      else app (child_parts child) <$> collect_parts rest
  end.

(** The text handed to the browser for saving; [None] when nothing is
    downloaded: either [parts] is empty, or the [catch] clause has been
    reached. *)
Definition downloadAllFromFrame (children : list node) : option str :=
  match collect_parts children with
  | Some [] => None
  | Some parts => Some (join nl parts)
  | None => None
  end.

(** Whether the [catch] clause runs, which writes one line with
    [console.error]. *)
Definition logs_failure (children : list node) : bool :=
  match collect_parts children with
  | Some _ => false
  | None => true
  end.

(** The name under which the text is saved:
    [`${frameNode.name ? frameNode.name.replace(/\s+/g, '_') : 'frame'}-components-code.txt`],
    for a frame whose name is a string. *)
Definition download_filename (frame_name : str) : str :=
  match frame_name with
  | [] => js "frame"
  | _ => collapse_spaces false frame_name
  end ++ js "-components-code.txt".

End Exporter.

(** * The vocabulary of the properties *)

(** ** Suffixes *)

(** The suffixes of [s], the longest first. *)
Fixpoint tails (s : str) : list str :=
  s :: match s with
       | [] => []
       | _ :: s' => tails s'
       end.

(** The proper suffixes of [s]. *)
Definition proper_suffixes (s : str) : list str :=
  match s with
  | [] => []
  | _ :: s' => tails s'
  end.

(** ** Header lines *)

(** What [parseBlocks] sees in a raw line. *)
Definition comp_match (raw : str) : option (list str) :=
  Re.match_start compRe (strip_tabs raw).

Definition sec_match (raw : str) : option (list str) :=
  Re.match_start secRe (strip_tabs raw).

(** A line that is neither a component header nor a section header. *)
Definition is_plain (raw : str) : bool :=
  bool_decide (comp_match raw = None) && bool_decide (sec_match raw = None).

(** Text that a header line can carry: no tab and no line terminator. *)
Definition header_char (c : char) : bool :=
  is_dot c && negb (c =? Ch.TAB).

Definition header_safe (s : str) : bool := forallb header_char s.

(** A language tag without opening parenthesis. *)
Definition no_lparen (s : str) : bool :=
  forallb (fun c => negb (c =? Ch.LPAREN)) s.

(** ** Lines *)

(** [c] put in front of the first line. *)
Definition cons_head (c : char) (ls : list str) : list str :=
  match ls with
  | l :: ls' => (c :: l) :: ls'
  | [] => [[c]]
  end.

(** The lines of a text, read off directly: a line ends at a line feed,
    and a carriage return just before that line feed belongs to the line
    break. *)
Fixpoint lines_of (s : str) : list str :=
  match s with
  | [] => [[]]
  | c :: s' =>
      if c =? Ch.LF then [] :: lines_of s'
      else if c =? Ch.CR then
        match s' with
        | d :: s'' =>
            if d =? Ch.LF then [] :: lines_of s''
            else cons_head c (lines_of s')
        | [] => cons_head c (lines_of s')
        end
      else cons_head c (lines_of s')
  end.

(** [cur] put in front of the first line. *)
Definition prepend (cur : str) (ls : list str) : list str :=
  match ls with
  | l :: ls' => (cur ++ l) :: ls'
  | [] => [cur]
  end.

(** ** The layout of an input of [parseBlocks] *)

(** A section header line with the lines up to the next header. *)
Record SecSpan := {
  sec_header : str;
  sec_body : list str
}.

(** A component header line, the lines before the first section header
    and the sections of the component. *)
Record CompSpan := {
  comp_header : str;
  comp_skipped : list str;
  comp_sections : list SecSpan
}.

(** The lines of a span, of a component and of a whole input. *)
Definition sec_lines (s : SecSpan) : list str :=
  sec_header s :: sec_body s.

Definition comp_lines (c : CompSpan) : list str :=
  comp_header c :: comp_skipped c ++ flat_map sec_lines (comp_sections c).

Definition layout_lines (preamble : list str) (spans : list CompSpan)
  : list str :=
  preamble ++ flat_map comp_lines spans.

(** The two kinds of header lines; a line that matches both patterns is
    a component header. *)
Definition is_comp_header (raw : str) : bool :=
  bool_decide (is_Some (comp_match raw)).

Definition is_sec_header (raw : str) : bool :=
  negb (is_comp_header raw) && bool_decide (is_Some (sec_match raw)).

(** A span starts with its header, and no other line of it is a
    header. *)
Definition wf_sec (s : SecSpan) : bool :=
  is_sec_header (sec_header s) && forallb is_plain (sec_body s).

Definition wf_comp (c : CompSpan) : bool :=
  is_comp_header (comp_header c) && forallb is_plain (comp_skipped c)
  && forallb wf_sec (comp_sections c).

(** The lines before the first component header are any lines but
    component headers. *)
Definition wf_layout (preamble : list str) (spans : list CompSpan) : bool :=
  forallb (fun l => negb (is_comp_header l)) preamble
  && forallb wf_comp spans.

(** The text that a run of body lines adds to the code of a section. *)
Definition body_code (body : list str) : str :=
  flat_map (fun raw => raw ++ nl) body.

(** What the parser makes of a section span and of a component span;
    [toLowerCase] is the case mapping of the language. *)
Definition section_of (toLowerCase : str -> str) (s : SecSpan)
  : ExportedSection :=
  let m := default [] (sec_match (sec_header s)) in
  {| title := trim (nth 0 m []);
     lang := toLowerCase (trim (nth 1 m []));
     code := body_code (sec_body s) |}.

Definition component_of (toLowerCase : str -> str) (c : CompSpan)
  : ExportedComponent :=
  let m := default [] (comp_match (comp_header c)) in
  {| name := trim (nth 0 m []);
     sections := List.map (section_of toLowerCase) (comp_sections c) |}.

(** ** The Exporter's text, read by the Importer *)

(** [child.name || child.id] and [b.title || b.name]. *)
Definition child_label (c : Exporter.node) : str :=
  or_else (Exporter.node_name c) (Exporter.node_id c).

Definition block_title (b : Exporter.CodeBlock) : str :=
  or_else (Exporter.title b) (Exporter.name b).

(** A code that ends with a carriage return loses it to the line feed
    that the Exporter puts after it. *)
Definition ends_with_cr (s : str) : bool :=
  bool_decide (last s = Some Ch.CR).

(** A block that survives the interchange format: its title and language
    tag fit on a header line, the tag has no opening parenthesis, and no
    line of its code reads as a header. *)
Definition wf_block (b : Exporter.CodeBlock) : bool :=
  header_safe (block_title b) && header_safe (Exporter.lang b)
  && no_lparen (Exporter.lang b)
  && negb (ends_with_cr (Exporter.code b))
  && forallb is_plain (split lineBreakRe (Exporter.code b)).

(** A child whose name fits on a header line, with blocks that survive
    the format. *)
Definition wf_child (c : Exporter.node) : bool :=
  header_safe (child_label c) && forallb wf_block (Exporter.codeBlocks c).

(** The lines that the Exporter writes for a block and for a child. *)
Definition span_of_block (b : Exporter.CodeBlock) : SecSpan :=
  {| sec_header := Exporter.section_header b;
     sec_body := [] :: lines_of (Exporter.code b) ++ [[]; []] |}.

Definition span_of_child (c : Exporter.node) : CompSpan :=
  {| comp_header := Exporter.component_header c;
     comp_skipped := [[]];
     comp_sections := List.map span_of_block (Exporter.codeBlocks c) |}.

(** What the Importer reads back for a block and for a child. *)
Definition imported_section (toLowerCase : str -> str)
           (b : Exporter.CodeBlock) : ExportedSection :=
  {| title := trim (block_title b);
     lang := toLowerCase (trim (Exporter.lang b));
     code := nl ++ body_code (split lineBreakRe (Exporter.code b)) ++
             nl ++ nl |}.

Definition imported_component (toLowerCase : str -> str)
           (c : Exporter.node) : ExportedComponent :=
  {| name := trim (child_label c);
     sections :=
       List.map (imported_section toLowerCase) (Exporter.codeBlocks c) |}.

(** ** File names *)

(** The number of earlier files with the base name [b]. *)
Fixpoint count (b : str) (seen : list str) : nat :=
  match seen with
  | [] => O
  | x :: seen' => ((if str_eqb x b then 1 else 0) + count b seen')%nat
  end.

(** The file name of a component with base name [b] that comes after
    [k] components with the same base name. *)
Definition file_name (b : str) (k : nat) : str :=
  match k with
  | O => b ++ js ".vue"
  | S _ => b ++ js "_" ++ num_to_str (S k) ++ js ".vue"
  end.

(** The base names of the components that pass the gate, in order;
    [i] is the index of the first one in the export. *)
Fixpoint gated_bases (i : nat) (comps : list ExportedComponent) : list str :=
  match comps with
  | [] => []
  | c :: comps' =>
      (if has_template c then [compName c i] else []) ++
      gated_bases (S i) comps'
  end.

(** The file names that a run gives, for the base names [seen] so far. *)
Fixpoint file_names (seen : list str) (i : nat)
         (comps : list ExportedComponent) : list str :=
  match comps with
  | [] => []
  | c :: comps' =>
      if has_template c then
        file_name (compName c i) (count (compName c i) seen) ::
        file_names (seen ++ [compName c i]) (S i) comps'
      else file_names seen (S i) comps'
  end.

(** The collision table counts the files of each base name. *)
Definition counts (used : gmap (list N) nat) (seen : list str) : Prop :=
  forall b, used !! b = match count b seen with
                        | O => None
                        | S k => Some (S k)
                        end.

(** ** Style sections *)

(** [sec.lang.includes('css')] *)
Definition is_css_lang (l : str) : bool := includes l (js "css").

(** ** Bare declarations *)

(** A declaration [property: value;] on a line of its own. *)
Definition render_decl (d : str * str) : str :=
  fst d ++ js ": " ++ snd d ++ js ";" ++ nl.

(** The characters of a property name. *)
Definition is_prop_char (c : char) : bool :=
  is_lower c || (c =? Ch.HYPHEN).

(** A property name of lower-case letters and hyphens, and a value
    without semicolon and without white space around it. *)
Definition wf_decl (d : str * str) : bool :=
  negb (bool_decide (fst d = [])) && forallb is_prop_char (fst d)
  && forallb (fun c => negb (c =? Ch.SEMI)) (snd d)
  && match snd d with c :: _ => negb (is_space c) | [] => false end
  && match last (snd d) with Some c => negb (is_space c) | None => false end.





(** ** Events *)

(** The calls of [fs.writeFileSync] among the events of a run. *)
Definition file_writes (evs : list event) : list (str * str) :=
  flat_map (fun e => match e with
                     | WriteFileSync p d => [(p, d)]
                     | _ => []
                     end) evs.

(** What is written on standard error: the messages of
    [console.error] and the report of an uncaught exception. *)
Definition stderr (evs : list event) : list str :=
  flat_map (fun e => match e with
                     | ConsoleError msg => [msg]
                     | Uncaught report => [report]
                     | _ => []
                     end) evs.

(** The events of [safeMkdir] on the component directory, of the
    writes of the component files and of [updateAppVue], when no call
    throws. *)
Definition mkdir_events (w : world) : list event :=
  if existsSync w (compDir w) then [] else [MkdirSync (compDir w)].

Definition write_log (w : world) (fs : list SynthesizedFile) : list event :=
  flat_map
    (fun f =>
       [WriteFileSync (compDir w ++ js "/" ++ filename f) (content f);
        ConsoleLog (js "Wrote " ++ compDir w ++ js "/" ++ filename f)])
    fs.

Definition root_log (basename : str -> str -> str) (w : world)
           (files : list str) : list event :=
  [WriteFileSync (appVuePath w) (root_app basename files);
   ConsoleLog (js "Overwrote " ++ appVuePath w)].

(** Whether a call of [fs] throws. *)
Definition throws {A : Type} (r : fs_result A) : Prop :=
  exists report, r = Throws report.

(** The component has a usable template section: its first section
    tagged [vue], [template] or [component] has code that is not
    blank. *)
Definition template_tags : list str :=
  [js "vue"; js "template"; js "component"].

Definition usable_template (c : ExportedComponent) : Prop :=
  exists before s after,
    sections c = before ++ s :: after /\
    Forall (fun x => lang x ∉ template_tags) before /\
    lang s ∈ template_tags /\
    trim (code s) <> [].

(** ** Inputs for the examples *)

(** [toLowerCase] on strings of ASCII characters. *)
Definition ascii_toLowerCase (s : str) : str :=
  List.map (fun c => if is_upper c then c + 32 else c) s.

(** A section with an ASCII title and tag. *)
Definition demo_section (t l : string) (c : str) : ExportedSection :=
  {| title := js t; lang := js l; code := c |}.

(** A component [Foo] with one [vue] section. *)
Definition demo_foo : ExportedComponent :=
  {| name := js "Foo";
     sections := [demo_section "Root" "vue" (js "<div>hi</div>" ++ nl)] |}.

(** The input of the end-to-end example of the specification. *)
Definition demo_html_input : str :=
  js "// ===== Component: Foo =====" ++ nl ++
  js "// ---- Root (html) ----" ++ nl ++
  js "<div>hi</div>" ++ nl.

(** What [parseBlocks] makes of it. *)
Definition demo_html : ExportedComponent :=
  {| name := js "Foo";
     sections :=
       [demo_section "Root" "html" (js "<div>hi</div>" ++ nl ++ nl)] |}.

(** A component whose second script candidate is an object literal,
    and one whose first script candidate is. *)
Definition demo_two_scripts : ExportedComponent :=
  {| name := js "Box";
     sections :=
       [demo_section "Root" "vue" (js "<p/>");
        demo_section "Setup" "js" (js "run()");
        demo_section "Style" "js" (js "{ color: 'red' }")] |}.

Definition demo_style_object : ExportedComponent :=
  {| name := js "Box";
     sections :=
       [demo_section "Root" "vue" (js "<p/>");
        demo_section "Style" "js" (js " { color: 'red' } " ++ nl);
        demo_section "Setup" "js" (js "run()")] |}.


(** A frame with two children: a button with a style block and a
    template block, and a layer without design component. *)
Definition demo_frame : list Exporter.node :=
  [ {| Exporter.node_name := js "Primary Button";
       Exporter.node_id := js "1:2";
       Exporter.has_component := true;
       Exporter.host_rejects := false;
       Exporter.codeBlocks :=
         [ {| Exporter.name := js "css"; Exporter.title := js "Style";
              Exporter.lang := js "CSS";
              Exporter.code := js "color: red;" ++ nl ++ js "width: 4px;" |};
           {| Exporter.name := js "component"; Exporter.title := [];
              Exporter.lang := js "vue";
              Exporter.code := js "<UButton />" |} ] |};
    {| Exporter.node_name := js "Guide";
       Exporter.node_id := js "1:3";
       Exporter.has_component := false;
       Exporter.host_rejects := false;
       Exporter.codeBlocks := [] |} ].

(** A child whose code holds a line that reads as a component header. *)
Definition demo_header_in_code : list Exporter.node :=
  [ {| Exporter.node_name := js "A";
       Exporter.node_id := js "1:2";
       Exporter.has_component := true;
       Exporter.host_rejects := false;
       Exporter.codeBlocks :=
         [ {| Exporter.name := js "js"; Exporter.title := js "T";
              Exporter.lang := js "js";
              Exporter.code := js "// ===== Component: B =====" |} ] |} ].



(** A run in which every path exists and the input file holds the
    end-to-end example. *)
Definition demo_world : world :=
  {| inputFile := js "/work/downloaded-components.txt";
     targetApp := js "/work/my-vue-app";
     existsSync := fun _ => true;
     readFileSync := fun _ => Ok demo_html_input;
     mkdirSync := fun _ => Ok tt;
     writeFileSync := fun _ _ => Ok tt |}.

(** ** Vocabulary of the further properties *)

(** The name that a component header line carries. *)
Definition header_name (raw : str) : str :=
  trim (nth 0 (default [] (comp_match raw)) []).

(** The component that a header line opens, before any section. *)
Definition bare_component (raw : str) : ExportedComponent :=
  {| name := header_name raw; sections := [] |}.

(** A text with every line feed turned into carriage return and line
    feed. *)
Definition to_crlf (s : str) : str :=
  flat_map (fun c => if c =? Ch.LF then [Ch.CR; Ch.LF] else [c]) s.

(** Inputs for the examples of the further properties. *)
Definition demo_unix_input : str :=
  js "// ===== Component: Foo =====" ++ nl ++
  js "// ---- Root (vue) ----" ++ nl ++
  js "<p/>" ++ nl.

Definition demo_second_export : str :=
  js "// ===== Component: Bar =====" ++ nl ++
  js "// ---- Root (vue) ----" ++ nl ++
  js "<b/>".

Definition demo_headers_world : world :=
  {| inputFile := js "/work/downloaded-components.txt";
     targetApp := js "/work/my-vue-app";
     existsSync := fun _ => true;
     readFileSync := fun _ =>
       Ok (js "notes" ++ nl ++
           js "// ===== Component: A =====" ++ nl ++
           js "<p/>" ++ nl ++
           js "// ===== Component: B =====" ++ nl);
     mkdirSync := fun _ => Ok tt;
     writeFileSync := fun _ _ => Ok tt |}.

(** The escape of one character. *)
Definition escape_char (c : char) : str :=
  if c =? Ch.AMP then js "&amp;"
  else if c =? Ch.LT then js "&lt;"
  else if c =? Ch.GT then js "&gt;"
  else [c].

(** What the first loop of [buildSFC] puts in the markup for a section
    that is neither style nor script. *)
Definition html_part (s : ExportedSection) : str :=
  if is_template_lang (lang s) then code s
  else js "<pre>" ++ escapeHtml (code s) ++ js "</pre>".

(** The three kinds of sections, in the order in which the loop tests the
    language tag: style first, then markup named as such, then script;
    every other tagged section is shown as preformatted markup. *)
Definition is_style_section (s : ExportedSection) : bool :=
  is_css_lang (lang s).

Definition is_script_section (s : ExportedSection) : bool :=
  negb (is_css_lang (lang s)) && negb (is_template_lang (lang s))
  && is_script_lang (lang s).

Definition is_markup_section (s : ExportedSection) : bool :=
  negb (str_eqb (lang s) []) && negb (is_css_lang (lang s))
  && (is_template_lang (lang s) || negb (is_script_lang (lang s))).

(** The synthesized files of the components that pass the gate, in
    order; [i] is the index of the first component in the export. *)
Fixpoint gated_files (i : nat) (comps : list ExportedComponent)
  : list SynthesizedFile :=
  match comps with
  | [] => []
  | c :: comps' =>
      (if has_template c then [buildSFC c i] else []) ++
      gated_files (S i) comps'
  end.

(** An identifier followed by [.vue]. *)
Definition is_vue_file_name (f : str) : Prop :=
  exists b, f = b ++ js ".vue" /\ Forall (fun c => is_ident_char c = true) b.

(** Components and a run for the examples. *)
Definition demo_foo_2 : ExportedComponent :=
  {| name := js "Foo_2";
     sections := [demo_section "Root" "vue" (js "<b>ho</b>" ++ nl)] |}.

Definition demo_bar : ExportedComponent :=
  {| name := js "Bar";
     sections := [demo_section "Root" "vue" (js "<b>ho</b>" ++ nl)] |}.

Definition demo_ok_world : world :=
  {| inputFile := js "/work/downloaded-components.txt";
     targetApp := js "/work/my-vue-app";
     existsSync := fun _ => true;
     readFileSync := fun _ => Ok demo_unix_input;
     mkdirSync := fun _ => Ok tt;
     writeFileSync := fun _ _ => Ok tt |}.

(** Six spaces after every line feed. *)
Definition indent_char (c : char) : str :=
  if c =? Ch.LF then Ch.LF :: js "      " else [c].

(** A template that [trim] empties. *)
Definition is_blank (t : str) : bool := str_eqb (trim t) [].

(** A list of parts that is empty or whose last part ends with a line
    feed. *)
Definition ends_with_lf (ps : list str) : Prop :=
  ps = [] \/ exists p, last ps = Some p /\ last p = Some Ch.LF.

(** A search result, with [h] put in front of the text before the
    match. *)
Definition shift_pre (h : str) (f : Re.found) : Re.found :=
  {| Re.f_pre := h ++ Re.f_pre f; Re.f_match := Re.f_match f;
     Re.f_post := Re.f_post f |}.

(** The frame of the example followed by a child for which the code
    generator rejects. *)
Definition demo_rejecting_frame : list Exporter.node :=
  [ {| Exporter.node_name := js "Guide";
       Exporter.node_id := js "1:3";
       Exporter.has_component := false;
       Exporter.host_rejects := true;
       Exporter.codeBlocks := [] |};
    {| Exporter.node_name := js "Broken";
       Exporter.node_id := js "1:4";
       Exporter.has_component := true;
       Exporter.host_rejects := true;
       Exporter.codeBlocks := [] |} ].

(** The creation of the component directory does not throw, and no
    write of the given files does. *)
Definition mkdir_ok (w : world) : Prop :=
  existsSync w (compDir w) = true \/ ~ throws (mkdirSync w (compDir w)).

Definition writes_ok (w : world) (fs : list SynthesizedFile) : Prop :=
  Forall (fun f => ~ throws (writeFileSync w (compDir w ++ js "/" ++ filename f)
                                          (content f))) fs.

(** An instance of [basename] for the examples: the name without the
    given extension at its end. *)
Definition demo_basename (p ext : str) : str :=
  if starts_with (rev ext) (rev p)
  then take (length p - length ext) p
  else p.

(** A run in which the path of the input file exists and is a
    directory, so that reading it throws. *)
Definition demo_dir_world : world :=
  {| inputFile := js "/work/exports";
     targetApp := js "/work/my-vue-app";
     existsSync := fun _ => true;
     readFileSync := fun _ =>
       Throws (js "Error: EISDIR: illegal operation on a directory, read");
     mkdirSync := fun _ => Ok tt;
     writeFileSync := fun _ _ => Ok tt |}.

(** A run on an export of two components in which the second write
    throws. *)
Definition demo_full_world : world :=
  {| inputFile := js "/work/downloaded-components.txt";
     targetApp := js "/work/my-vue-app";
     existsSync := fun _ => true;
     readFileSync := fun _ =>
       Ok (demo_unix_input ++ Ch.LF :: demo_second_export);
     mkdirSync := fun _ => Ok tt;
     writeFileSync := fun p _ =>
       if str_eqb p (js "/work/my-vue-app/src/components/Bar.vue")
       then Throws (js "Error: ENOSPC: no space left on device, write")
       else Ok tt |}.

(** * Properties *)

#[local] Arguments N.eqb : simpl never.
#[local] Arguments N.leb : simpl never.

(** ** The regular expression matcher *)

Section RegexLemmas.
Context {R : Type}.
Implicit Types (p : N -> bool) (s w x : str).

Lemma star_none p (k : str -> option R) s :
  (forall z, z ∈ tails s -> k z = None) -> Re.star p k s = None.
Proof.
  induction s as [|c s IH]; intros H; simpl.
  - apply H. left.
  - assert (k (c :: s) = None) as Hk by (apply H; left).
    destruct (p c); [|exact Hk].
    rewrite IH; [exact Hk|].
    intros z Hz. apply H. simpl. right. exact Hz.
Qed.

(** A greedy star takes the whole run [w] when the continuation accepts
    what follows. *)
Lemma star_longest p (k : str -> option R) w s r :
  Forall (fun c => p c = true) w ->
  k s = Some r ->
  head (List.map p s) <> Some true ->
  Re.star p k (w ++ s) = Some r.
Proof.
  intros Hw Hk Hs. induction Hw as [|c w Hc _ IH]; simpl.
  - destruct s as [|c s]; [exact Hk|].
    simpl in *. destruct (p c); [done|exact Hk].
  - rewrite Hc, IH. reflexivity.
Qed.

Lemma group_none p (k : str -> str -> option R) acc s :
  (forall z a, z ∈ tails s -> k a z = None) -> Re.group p k acc s = None.
Proof.
  revert acc. induction s as [|c s IH]; intros acc H; simpl.
  - apply H. left.
  - assert (k acc (c :: s) = None) as Hk by (apply H; left).
    destruct (p c); [|exact Hk].
    rewrite IH; [exact Hk|].
    intros z a Hz. apply H. simpl. right. exact Hz.
Qed.

(** A greedy group captures [x] when the continuation accepts the rest
    and refuses every proper suffix of it. *)
Lemma group_longest p (k : str -> str -> option R) acc x rest r :
  Forall (fun c => p c = true) x ->
  k (acc ++ x) rest = Some r ->
  (forall z a, z ∈ proper_suffixes rest -> k a z = None) ->
  Re.group p k acc (x ++ rest) = Some r.
Proof.
  intros Hx. revert acc.
  induction Hx as [|c x Hc _ IH]; intros acc Hk Hno; simpl.
  - rewrite app_nil_r in Hk.
    destruct rest as [|c rest]; [exact Hk|].
    simpl. destruct (p c); [|exact Hk].
    rewrite group_none; [exact Hk|].
    intros z a Hz. apply Hno. exact Hz.
  - rewrite Hc, (IH (acc ++ [c])); [reflexivity| |exact Hno].
    rewrite <- app_assoc. exact Hk.
Qed.

End RegexLemmas.

Lemma tails_inv (s z : str) : z ∈ tails s -> exists y, s = y ++ z.
Proof.
  induction s as [|c s IH]; simpl; intros H.
  - apply list_elem_of_singleton in H as ->. by exists [].
  - apply elem_of_cons in H as [->|H]; [by exists []|].
    destruct (IH H) as [y ->]. by exists (c :: y).
Qed.

Lemma run_lits (l : str) r s caps :
  Re.run (List.map Re.Lit l ++ r) (l ++ s) caps = Re.run r s caps.
Proof.
  induction l as [|c l IH]; simpl; [reflexivity|].
  rewrite N.eqb_refl. exact IH.
Qed.

Lemma run_lit c r s caps :
  Re.run (Re.Lit c :: r) (c :: s) caps = Re.run r s caps.
Proof. simpl. by rewrite N.eqb_refl. Qed.

Lemma run_star_longest p r w s caps res :
  Forall (fun c => p c = true) w ->
  Re.run r s caps = Some res ->
  head (List.map p s) <> Some true ->
  Re.run (Re.Star p :: r) (w ++ s) caps = Some res.
Proof. intros Hw Hr Hs. simpl. by apply star_longest. Qed.

Lemma run_group_longest p r x rest caps res :
  Forall (fun c => p c = true) x ->
  Re.run r rest (caps ++ [x]) = Some res ->
  Forall (fun z => forall a, Re.run r z (caps ++ [a]) = None)
         (proper_suffixes rest) ->
  Re.run (Re.Group p :: r) (x ++ rest) caps = Some res.
Proof.
  intros Hx Hr Hno. simpl.
  apply (group_longest p _ [] x rest res Hx Hr).
  intros z a Hz. rewrite Forall_forall in Hno. by apply Hno.
Qed.

(** A pattern that goes on with [\s*] and one literal character refuses
    a text in which the character does not occur. *)
Lemma run_star_lit_none p c r s caps :
  Forall (fun d => d <> c) s ->
  Re.run (Re.Star p :: Re.Lit c :: r) s caps = None.
Proof.
  intros Hs. simpl. apply star_none. intros z Hz.
  apply tails_inv in Hz as [y ->]. apply Forall_app in Hs as [_ Hz].
  destruct Hz as [|d z Hd _]; simpl; [reflexivity|].
  destruct (N.eqb_spec c d); [congruence|reflexivity].
Qed.

(** *** White space *)

Lemma drop_while_split p (s : str) :
  exists w, s = w ++ drop_while p s /\ Forall (fun c => p c = true) w.
Proof.
  induction s as [|c s [w [E Hw]]]; simpl.
  - by exists [].
  - destruct (p c) eqn:Hc.
    + exists (c :: w). split; [simpl; f_equal; exact E|by constructor].
    + by exists [].
Qed.

Lemma drop_while_head p (s : str) :
  head (List.map p (drop_while p s)) <> Some true.
Proof.
  induction s as [|c s IH]; simpl; [done|].
  destruct (p c) eqn:Hc; [exact IH|]. simpl. rewrite Hc. done.
Qed.

Lemma drop_while_idemp p (s : str) :
  drop_while p (drop_while p s) = drop_while p s.
Proof.
  induction s as [|c s IH]; simpl; [done|].
  destruct (p c) eqn:Hc; [exact IH|]. simpl. by rewrite Hc.
Qed.

Lemma drop_while_app p (s t : str) :
  drop_while p (s ++ t) =
  if forallb p s then drop_while p t else drop_while p s ++ t.
Proof.
  induction s as [|c s IH]; simpl; [done|].
  destruct (p c); [exact IH|done].
Qed.

Lemma drop_while_all p (s : str) :
  forallb p s = true -> drop_while p s = [].
Proof.
  induction s as [|c s IH]; simpl; [done|].
  destruct (p c); [exact IH|done].
Qed.

Lemma trim_trimStart (s : str) : trim (trimStart s) = trim s.
Proof. unfold trim, trimStart. by rewrite drop_while_idemp. Qed.

Lemma trim_app_space (s : str) : trim (s ++ [Ch.SP]) = trim s.
Proof.
  unfold trim, trimStart, trimEnd. rewrite drop_while_app.
  destruct (forallb is_space s) eqn:Hs.
  - by rewrite (drop_while_all _ _ Hs).
  - by rewrite rev_app_distr.
Qed.

Lemma head_app_not (b : list bool) (b' : list bool) :
  head b <> Some true -> head b' <> Some true -> head (b ++ b') <> Some true.
Proof. destruct b; simpl; auto. Qed.

(** ** Header lines *)

Lemma header_safe_dot (s : str) :
  header_safe s = true -> Forall (fun c => is_dot c = true) s.
Proof.
  unfold header_safe. rewrite forallb_forall, Forall_forall.
  intros H c Hc. apply list_elem_of_In, H in Hc.
  unfold header_char in Hc. by apply andb_prop in Hc as [? _].
Qed.

Lemma strip_tabs_safe (s : str) : header_safe s = true -> strip_tabs s = s.
Proof.
  unfold header_safe, strip_tabs.
  induction s as [|c s IH]; simpl; [done|].
  unfold header_char at 1. intros H.
  apply andb_prop in H as [H1 H2]. apply andb_prop in H1 as [_ ->].
  simpl. by rewrite IH.
Qed.

Lemma header_safe_app (s t : str) :
  header_safe (s ++ t) = header_safe s && header_safe t.
Proof. apply forallb_app. Qed.

Lemma compRe_header (n : str) :
  header_safe n = true ->
  exists x, Re.run compRe (js "// ===== Component: " ++ n ++ js " =====") []
            = Some ([x], []) /\ trim x = trim n.
Proof.
  intros Hn.
  destruct (drop_while_split is_space (n ++ [Ch.SP])) as [w [E Hw]].
  set (x := drop_while is_space (n ++ [Ch.SP])) in *.
  exists x. split.
  - change (js "// ===== Component: " ++ n ++ js " =====")
      with (js "//" ++ [Ch.SP] ++ js "=====" ++ [Ch.SP] ++ js "Component:" ++
            (Ch.SP :: n ++ [Ch.SP] ++ js "=====")).
    rewrite (app_assoc n), E, <- app_assoc.
    unfold compRe, Re.lits. rewrite run_lits.
    apply run_star_longest; [by repeat constructor| |done].
    rewrite run_lits.
    apply run_star_longest; [by repeat constructor| |done].
    rewrite run_lits.
    apply (run_star_longest _ _ (Ch.SP :: w)); [by constructor| |].
    + apply run_group_longest.
      * assert (Forall (fun c => is_dot c = true) (n ++ [Ch.SP])) as Hd.
        { apply Forall_app. split; [by apply header_safe_dot|].
          by repeat constructor. }
        rewrite E in Hd. by apply Forall_app in Hd as [_ ?].
      * reflexivity.
      * repeat constructor.
    + rewrite map_app. apply head_app_not; [apply drop_while_head|done].
  - unfold x. fold (trimStart (n ++ [Ch.SP])).
    by rewrite trim_trimStart, trim_app_space.
Qed.

Lemma no_lparen_Forall (s : str) :
  no_lparen s = true -> Forall (fun c => c <> Ch.LPAREN) s.
Proof.
  unfold no_lparen. rewrite forallb_forall, Forall_forall.
  intros H c Hc. apply list_elem_of_In, H in Hc.
  destruct (N.eqb_spec c Ch.LPAREN); [done|assumption].
Qed.

Lemma secRe_header (t l : str) :
  header_safe t = true -> header_safe l = true -> no_lparen l = true ->
  exists x, Re.run secRe (js "// ---- " ++ t ++ js " (" ++ l ++ js ") ----") []
            = Some ([x; l], []) /\ trim x = trim t.
Proof.
  intros Ht Hl Hp.
  destruct (drop_while_split is_space (t ++ [Ch.SP])) as [w [E Hw]].
  set (x := drop_while is_space (t ++ [Ch.SP])) in *.
  exists x. split.
  - change (js "// ---- " ++ t ++ js " (" ++ l ++ js ") ----")
      with (js "//" ++ [Ch.SP] ++ js "----" ++
            (Ch.SP :: t ++ [Ch.SP] ++ (Ch.LPAREN :: l ++ js ") ----"))).
    rewrite (app_assoc t), E, <- app_assoc.
    unfold secRe, Re.lits. rewrite run_lits.
    apply run_star_longest; [by repeat constructor| |done].
    rewrite run_lits.
    apply (run_star_longest _ _ (Ch.SP :: w)); [by constructor| |].
    + apply run_group_longest.
      * assert (Forall (fun c => is_dot c = true) (t ++ [Ch.SP])) as Hd.
        { apply Forall_app. split; [by apply header_safe_dot|].
          by repeat constructor. }
        rewrite E in Hd. by apply Forall_app in Hd as [_ ?].
      * apply (run_star_longest _ _ []); [constructor| |done].
        rewrite run_lit.
        apply run_group_longest; [by apply header_safe_dot|reflexivity|].
        repeat constructor.
      * apply Forall_forall. intros z Hz a.
        apply tails_inv in Hz as [y Hy].
        apply run_star_lit_none.
        assert (Forall (fun c => c <> Ch.LPAREN) (l ++ js ") ----")) as Hno.
        { apply Forall_app. split; [by apply no_lparen_Forall|].
          repeat constructor; done. }
        rewrite Hy in Hno. by apply Forall_app in Hno as [_ ?].
    + rewrite map_app. apply head_app_not; [apply drop_while_head|done].
  - unfold x. fold (trimStart (t ++ [Ch.SP])).
    by rewrite trim_trimStart, trim_app_space.
Qed.

Lemma compRe_section_header (s : str) :
  Re.run compRe (js "// ---- " ++ s) [] = None.
Proof. reflexivity. Qed.

(** ** Lines *)

Lemma prepend_cons_head cur c ls :
  prepend cur (cons_head c ls) = prepend (cur ++ [c]) ls.
Proof. destruct ls; simpl; by rewrite <- ?app_assoc, ?app_nil_r. Qed.

Lemma lines_of_nonempty s : lines_of s <> [].
Proof.
  destruct s as [|c s]; simpl; [done|].
  destruct (c =? Ch.LF); [done|].
  assert (forall ls, cons_head c ls <> []) as H by (by intros []).
  destruct (c =? Ch.CR); [|apply H].
  destruct s as [|d s]; [apply H|]. destruct (d =? Ch.LF); [done|apply H].
Qed.

Lemma prepend_nil s : prepend [] (lines_of s) = lines_of s.
Proof.
  pose proof (lines_of_nonempty s). by destruct (lines_of s).
Qed.

Lemma run_lineBreakRe (s : str) :
  Re.run lineBreakRe s [] =
  match s with
  | c :: s' =>
      if c =? Ch.LF then Some ([], s')
      else if c =? Ch.CR then
        match s' with
        | d :: s'' => if d =? Ch.LF then Some ([], s'') else None
        | [] => None
        end
      else None
  | [] => None
  end.
Proof.
  destruct s as [|c s]; [reflexivity|]. unfold lineBreakRe. simpl.
  rewrite (N.eqb_sym Ch.CR c), (N.eqb_sym Ch.LF c).
  destruct (N.eqb_spec c Ch.LF) as [->|Hlf]; [reflexivity|].
  destruct (c =? Ch.CR); [|reflexivity].
  destruct s as [|d s]; [reflexivity|].
  rewrite (N.eqb_sym Ch.LF d). by destruct (d =? Ch.LF).
Qed.

Lemma split_re_lines (n : nat) : forall (s cur : str),
  (length s <= n)%nat ->
  split_re lineBreakRe O cur s = prepend cur (lines_of s).
Proof.
  induction n as [|n IH]; intros [|c s] cur Hn; simpl in Hn;
    try (simpl; by rewrite app_nil_r); [lia|].
  cbn [split_re]. rewrite run_lineBreakRe. cbn [lines_of].
  destruct (c =? Ch.LF).
  { replace (length (c :: s) - length s)%nat with 1%nat by (simpl; lia).
    rewrite IH by lia. simpl. by rewrite prepend_nil, app_nil_r. }
  assert (split_re lineBreakRe 0 (cur ++ [c]) s =
          prepend cur (cons_head c (lines_of s))) as Hplain.
  { rewrite IH by lia. by rewrite prepend_cons_head. }
  destruct (c =? Ch.CR); [|exact Hplain].
  destruct s as [|d s]; [exact Hplain|].
  destruct (d =? Ch.LF); [|exact Hplain].
  replace (length (c :: d :: s) - length s)%nat with 2%nat by (simpl; lia).
  cbn [split_re]. destruct n as [|n]; [simpl in Hn; lia|].
  rewrite IH by (simpl in Hn; lia).
  simpl. by rewrite prepend_nil, app_nil_r.
Qed.

Lemma split_lines (s : str) : split lineBreakRe s = lines_of s.
Proof.
  unfold split. rewrite (split_re_lines (length s)) by lia.
  apply prepend_nil.
Qed.

Lemma cons_head_app c (ls ms : list str) :
  ls <> [] -> cons_head c (ls ++ ms) = cons_head c ls ++ ms.
Proof. by destruct ls. Qed.

Lemma last_cons_ne (c d : N) (a : str) :
  last (c :: a) <> Some d -> last a <> Some d.
Proof. destruct a; simpl; [done|auto]. Qed.

Lemma lines_of_app_lf_le (n : nat) : forall (a b : str),
  (length a <= n)%nat -> last a <> Some Ch.CR ->
  lines_of (a ++ Ch.LF :: b) = lines_of a ++ lines_of b.
Proof.
  induction n as [|n IH]; intros [|c a] b Hn Hl; simpl in Hn; try lia;
    try (simpl; by rewrite ?N.eqb_refl).
  pose proof (last_cons_ne _ _ _ Hl) as Hl'.
  assert (cons_head c (lines_of (a ++ Ch.LF :: b)) =
          cons_head c (lines_of a) ++ lines_of b) as Hplain.
  { rewrite IH by (done || lia).
    apply cons_head_app, lines_of_nonempty. }
  cbn [lines_of app].
  destruct (c =? Ch.LF); [by rewrite IH by (done || lia)|].
  destruct (N.eqb_spec c Ch.CR) as [->|_]; [|exact Hplain].
  destruct a as [|d a]; [done|]. cbn [app].
  destruct (d =? Ch.LF); [|exact Hplain].
  destruct n as [|n]; [simpl in Hn; lia|].
  rewrite IH; [done|simpl in Hn; lia|by apply last_cons_ne in Hl'].
Qed.

Lemma lines_of_app_lf (a b : str) :
  last a <> Some Ch.CR ->
  lines_of (a ++ Ch.LF :: b) = lines_of a ++ lines_of b.
Proof. by apply (lines_of_app_lf_le (length a)). Qed.

(** A text without line feed is one line. *)
Lemma lines_of_one (s : str) :
  Forall (fun c => c <> Ch.LF) s -> lines_of s = [s].
Proof.
  induction 1 as [|c s Hc Hs IH]; [done|]. cbn [lines_of].
  destruct (N.eqb_spec c Ch.LF); [done|].
  assert (cons_head c (lines_of s) = [c :: s]) as Hplain by (by rewrite IH).
  destruct (c =? Ch.CR); [|exact Hplain].
  destruct Hs as [|d s Hd Hs]; [exact Hplain|].
  destruct (N.eqb_spec d Ch.LF); [done|exact Hplain].
Qed.

Lemma join_cons (sep p : str) (ps : list str) :
  ps <> [] -> join sep (p :: ps) = p ++ sep ++ join sep ps.
Proof. by destruct ps. Qed.

(** The lines of parts joined by line feeds are the lines of the parts. *)
Lemma lines_of_join (parts : list str) :
  parts <> [] ->
  Forall (fun p => last p <> Some Ch.CR) parts ->
  lines_of (join nl parts) = flat_map lines_of parts.
Proof.
  intros Hne H. induction H as [|p ps Hp Hps IH]; [done|].
  destruct ps as [|q ps].
  - simpl. by rewrite app_nil_r.
  - rewrite join_cons by done. unfold nl at 1. cbn [app flat_map].
    rewrite lines_of_app_lf by done. f_equal. by apply IH.
Qed.

(** ** The layout of an input of [parseBlocks] *)

Section Layout.
Variable toLowerCase : str -> str.

#[local] Abbreviation step := (parse_line toLowerCase).

Lemma step_comp_header st raw :
  is_comp_header raw = true ->
  step st raw =
  {| comps := push_cur (comps st) (cur st);
     cur := Some {| name := trim (nth 0 (default [] (comp_match raw)) []);
                    sections := [] |};
     curSection := None |}.
Proof.
  unfold is_comp_header, comp_match, parse_line. intros H.
  apply bool_decide_eq_true in H as [m ->]. reflexivity.
Qed.

Lemma step_sec_header st raw c :
  is_sec_header raw = true -> cur st = Some c ->
  step st raw =
  {| comps := comps st;
     cur := Some (push_section
                    {| title := trim (nth 0 (default [] (sec_match raw)) []);
                       lang := toLowerCase
                                 (trim (nth 1 (default [] (sec_match raw)) []));
                       code := [] |} c);
     curSection := Some (length (sections c)) |}.
Proof.
  unfold is_sec_header, is_comp_header, comp_match, sec_match, parse_line.
  intros H Hc. apply andb_prop in H as [H1 H2].
  apply negb_true_iff, bool_decide_eq_false in H1.
  apply bool_decide_eq_true in H2 as [m Hm].
  destruct (Re.match_start compRe _); [by destruct H1|].
  rewrite Hm, Hc. reflexivity.
Qed.

Lemma step_plain st raw :
  is_plain raw = true ->
  step st raw =
  match curSection st with
  | Some i =>
      {| comps := comps st;
         cur := update_section i (append_code raw) <$> cur st;
         curSection := curSection st |}
  | None => st
  end.
Proof.
  unfold is_plain, comp_match, sec_match, parse_line. intros H.
  apply andb_prop in H as [H1 H2].
  apply bool_decide_eq_true in H1, H2. by rewrite H1, H2.
Qed.

(** Before the first component header nothing is recorded. *)
Lemma fold_preamble pre :
  forallb (fun l => negb (is_comp_header l)) pre = true ->
  fold_left step pre parser_init = parser_init.
Proof.
  induction pre as [|raw pre IH]; simpl; [done|]. intros H.
  apply andb_prop in H as [H1 H2].
  replace (step parser_init raw) with parser_init; [by apply IH|].
  unfold is_comp_header, comp_match in H1.
  apply negb_true_iff, bool_decide_eq_false in H1.
  unfold parse_line.
  destruct (Re.match_start compRe _); [by destruct H1|].
  simpl. by destruct (Re.match_start secRe _).
Qed.

(** Plain lines after a component header and before its first section
    are dropped. *)
Lemma fold_skipped ls cs c :
  forallb is_plain ls = true ->
  fold_left step ls {| comps := cs; cur := c; curSection := None |} =
  {| comps := cs; cur := c; curSection := None |}.
Proof.
  induction ls as [|raw ls IH]; simpl; [done|]. intros H.
  apply andb_prop in H as [H1 H2]. rewrite step_plain by done. by apply IH.
Qed.

(** Plain lines after a section header are appended to the code of that
    section, the last one of the current component. *)
Lemma fold_body body cs n secs s :
  forallb is_plain body = true ->
  fold_left step body
    {| comps := cs;
       cur := Some {| name := n; sections := secs ++ [s] |};
       curSection := Some (length secs) |} =
  {| comps := cs;
     cur := Some {| name := n;
                    sections :=
                      secs ++ [{| title := title s; lang := lang s;
                                  code := code s ++ body_code body |}] |};
     curSection := Some (length secs) |}.
Proof.
  revert s. induction body as [|raw body IH]; intros s H; simpl.
  - rewrite app_nil_r. by destruct s.
  - apply andb_prop in H as [H1 H2]. rewrite step_plain by done.
    cbn [curSection cur comps fmap option_fmap option_map].
    unfold update_section. cbn [name sections].
    replace (length secs) with (length secs + 0)%nat at 1 by lia.
    rewrite alter_app_r. cbn [alter list_alter].
    rewrite (IH (append_code raw s)) by done.
    unfold append_code. cbn [title lang code]. unfold body_code.
    by rewrite <- !app_assoc.
Qed.

Lemma fold_section s cs c cs0 :
  wf_sec s = true ->
  fold_left step (sec_lines s)
    {| comps := cs; cur := Some c; curSection := cs0 |} =
  {| comps := cs;
     cur := Some (push_section (section_of toLowerCase s) c);
     curSection := Some (length (sections c)) |}.
Proof.
  unfold wf_sec, sec_lines. intros H. apply andb_prop in H as [H1 H2].
  cbn [fold_left]. rewrite (step_sec_header _ _ c) by done.
  cbn [comps]. destruct c as [n secs]. unfold push_section.
  cbn [name sections]. rewrite fold_body by done. reflexivity.
Qed.

Lemma fold_sections ss cs c cs0 :
  forallb wf_sec ss = true ->
  exists cs1,
    fold_left step (flat_map sec_lines ss)
      {| comps := cs; cur := Some c; curSection := cs0 |} =
    {| comps := cs;
       cur := Some {| name := name c;
                      sections := sections c ++ List.map (section_of toLowerCase) ss |};
       curSection := cs1 |}.
Proof.
  revert c cs0. induction ss as [|s ss IH]; intros c cs0 H.
  - exists cs0. simpl. rewrite app_nil_r. by destruct c.
  - simpl in H. apply andb_prop in H as [H1 H2].
    cbn [flat_map]. rewrite fold_left_app, fold_section by done.
    destruct (IH (push_section (section_of toLowerCase s) c)
                 (Some (length (sections c))) H2) as [cs1 ->].
    exists cs1. unfold push_section. cbn [name sections map].
    by rewrite <- app_assoc.
Qed.

Lemma fold_component c st :
  wf_comp c = true ->
  exists cs1,
    fold_left step (comp_lines c) st =
    {| comps := push_cur (comps st) (cur st);
       cur := Some (component_of toLowerCase c);
       curSection := cs1 |}.
Proof.
  unfold wf_comp, comp_lines. intros H.
  apply andb_prop in H as [H H3]. apply andb_prop in H as [H1 H2].
  cbn [fold_left]. rewrite step_comp_header by done.
  rewrite fold_left_app, fold_skipped by done.
  destruct (fold_sections (comp_sections c)
              (push_cur (comps st) (cur st))
              {| name := trim (nth 0 (default [] (comp_match (comp_header c))) []);
                 sections := [] |} None H3) as [cs1 ->].
  by exists cs1.
Qed.

Lemma fold_components spans st :
  forallb wf_comp spans = true ->
  let st' := fold_left step (flat_map comp_lines spans) st in
  push_cur (comps st') (cur st') =
  push_cur (comps st) (cur st) ++ List.map (component_of toLowerCase) spans.
Proof.
  revert st. induction spans as [|c spans IH]; intros st H.
  - simpl. by rewrite app_nil_r.
  - simpl in H. apply andb_prop in H as [H1 H2].
    cbn [flat_map]. cbv zeta. rewrite fold_left_app.
    destruct (fold_component c st H1) as [cs1 ->].
    rewrite (IH _ H2). simpl. by rewrite <- app_assoc.
Qed.

(** The parser inverts the layout. *)
Lemma parse_lines_layout pre spans :
  wf_layout pre spans = true ->
  parse_lines toLowerCase (layout_lines pre spans) =
  List.map (component_of toLowerCase) spans.
Proof.
  unfold wf_layout, layout_lines, parse_lines. intros H.
  apply andb_prop in H as [H1 H2].
  rewrite fold_left_app, fold_preamble by done.
  by rewrite (fold_components spans parser_init H2).
Qed.

End Layout.

(** Every list of lines has a layout. *)
Lemma sections_complete (ls : list str) :
  forallb (fun l => negb (is_comp_header l)) ls = true ->
  exists skipped ss,
    ls = skipped ++ flat_map sec_lines ss /\
    forallb is_plain skipped = true /\ forallb wf_sec ss = true.
Proof.
  induction ls as [|raw ls IH]; intros H.
  - by exists [], [].
  - simpl in H. apply andb_prop in H as [H1 H2].
    destruct (IH H2) as (skipped & ss & -> & Hs & Hss).
    destruct (sec_match raw) as [m|] eqn:Hm.
    + exists [], ({| sec_header := raw; sec_body := skipped |} :: ss).
      split; [done|]. split; [done|].
      cbn [forallb]. rewrite Hss, andb_true_r.
      unfold wf_sec, is_sec_header. cbn [sec_header sec_body].
      rewrite H1, Hs, Hm. by rewrite bool_decide_eq_true_2.
    + exists (raw :: skipped), ss. split; [done|]. split; [|done].
      cbn [forallb]. rewrite Hs, andb_true_r.
      unfold is_plain. rewrite Hm.
      unfold is_comp_header in H1.
      apply negb_true_iff, bool_decide_eq_false in H1.
      destruct (comp_match raw); [by destruct H1|done].
Qed.

Lemma layout_complete (ls : list str) :
  exists pre spans,
    ls = layout_lines pre spans /\ wf_layout pre spans = true.
Proof.
  induction ls as [|raw ls (pre & spans & -> & H)].
  - by exists [], [].
  - unfold wf_layout in H. apply andb_prop in H as [H1 H2].
    destruct (is_comp_header raw) eqn:Hraw.
    + destruct (sections_complete pre H1) as (skipped & ss & -> & Hs & Hss).
      exists [], ({| comp_header := raw; comp_skipped := skipped;
                     comp_sections := ss |} :: spans).
      split.
      * unfold layout_lines, comp_lines. cbn [flat_map app].
        cbn [comp_header comp_skipped comp_sections].
        by rewrite <- !app_assoc.
      * unfold wf_layout. cbn [forallb]. rewrite H2. unfold wf_comp.
        cbn [comp_header comp_skipped comp_sections].
        by rewrite Hraw, Hs, Hss.
    + exists (raw :: pre), spans. split; [done|].
      unfold wf_layout. cbn [forallb]. by rewrite Hraw, H1, H2.
Qed.



(** ** The Exporter's text, read by the Importer *)

Lemma Forall_last {A} (P : A -> Prop) (l : list A) (x : A) :
  Forall P l -> last l = Some x -> P x.
Proof.
  intros H. induction H as [|y l Hy Hl IH]; [done|].
  destruct l as [|z l]; simpl; [by intros [= <-]|exact IH].
Qed.

Lemma header_safe_last (s : str) :
  header_safe s = true -> last s <> Some Ch.CR.
Proof.
  intros H%header_safe_dot Hl.
  by apply (Forall_last _ _ _ H) in Hl.
Qed.

Lemma header_safe_no_lf (s : str) :
  header_safe s = true -> Forall (fun c => c <> Ch.LF) s.
Proof.
  intros H%header_safe_dot. eapply Forall_impl; [exact H|].
  intros c Hc ->. done.
Qed.

(** The lines of a header line followed by a line feed. *)
Lemma lines_of_header (h : str) :
  header_safe h = true -> lines_of (h ++ nl) = [h; []].
Proof.
  intros H. unfold nl.
  rewrite lines_of_app_lf by (by apply header_safe_last).
  by rewrite lines_of_one by (by apply header_safe_no_lf).
Qed.

Lemma component_header_safe (c : Exporter.node) :
  header_safe (child_label c) = true ->
  header_safe (Exporter.component_header c) = true.
Proof.
  intros H. unfold Exporter.component_header. fold (child_label c).
  by rewrite !header_safe_app, H.
Qed.

Lemma section_header_safe (b : Exporter.CodeBlock) :
  header_safe (block_title b) = true ->
  header_safe (Exporter.lang b) = true ->
  header_safe (Exporter.section_header b) = true.
Proof.
  intros H1 H2. unfold Exporter.section_header. fold (block_title b).
  by rewrite !header_safe_app, H1, H2.
Qed.

Lemma wf_block_inv (b : Exporter.CodeBlock) :
  wf_block b = true ->
  header_safe (block_title b) = true /\
  header_safe (Exporter.lang b) = true /\
  no_lparen (Exporter.lang b) = true /\
  last (Exporter.code b) <> Some Ch.CR /\
  forallb is_plain (lines_of (Exporter.code b)) = true.
Proof.
  unfold wf_block, ends_with_cr. rewrite split_lines. intros H.
  repeat (apply andb_prop in H as [H ?]).
  repeat split; try done.
  by apply negb_true_iff, bool_decide_eq_false in H1.
Qed.

Lemma block_parts_lines (b : Exporter.CodeBlock) :
  wf_block b = true ->
  flat_map lines_of (Exporter.block_parts b) = sec_lines (span_of_block b) /\
  Forall (fun p => last p <> Some Ch.CR) (Exporter.block_parts b).
Proof.
  intros (Ht & Hl & _ & Hcr & _)%wf_block_inv.
  pose proof (section_header_safe b Ht Hl) as Hh. split.
  - unfold Exporter.block_parts, sec_lines, span_of_block.
    cbn [flat_map sec_header sec_body].
    rewrite lines_of_header by done. rewrite app_nil_r.
    reflexivity.
  - unfold Exporter.block_parts. repeat constructor; try done.
    unfold nl. by rewrite last_snoc.
Qed.

Lemma blocks_parts_lines (bs : list Exporter.CodeBlock) :
  forallb wf_block bs = true ->
  flat_map lines_of (flat_map Exporter.block_parts bs) =
  flat_map sec_lines (List.map span_of_block bs) /\
  Forall (fun p => last p <> Some Ch.CR) (flat_map Exporter.block_parts bs).
Proof.
  induction bs as [|b bs IH]; [done|]. intros H.
  simpl in H. apply andb_prop in H as [Hb Hbs].
  destruct (IH Hbs) as [E F]. destruct (block_parts_lines b Hb) as [Eb Fb].
  cbn [flat_map map]. rewrite flat_map_app, Eb, E. split; [done|].
  apply Forall_app. by split.
Qed.

Lemma child_parts_lines (c : Exporter.node) :
  Exporter.has_component c = true -> wf_child c = true ->
  flat_map lines_of (Exporter.child_parts c) = comp_lines (span_of_child c) /\
  Forall (fun p => last p <> Some Ch.CR) (Exporter.child_parts c).
Proof.
  unfold wf_child, Exporter.child_parts. intros -> H.
  apply andb_prop in H as [Hn Hbs].
  destruct (blocks_parts_lines _ Hbs) as [E F].
  pose proof (component_header_safe c Hn) as Hh. split.
  - cbn [flat_map]. rewrite lines_of_header, E by done. reflexivity.
  - constructor; [|exact F]. unfold nl. by rewrite last_snoc.
Qed.

Lemma children_parts_lines (cs : list Exporter.node) :
  forallb wf_child (List.filter Exporter.has_component cs) = true ->
  flat_map lines_of (flat_map Exporter.child_parts cs) =
  flat_map comp_lines
    (List.map span_of_child (List.filter Exporter.has_component cs)) /\
  Forall (fun p => last p <> Some Ch.CR) (flat_map Exporter.child_parts cs).
Proof.
  induction cs as [|c cs IH]; [done|]. cbn [List.filter flat_map].
  destruct (Exporter.has_component c) eqn:Hc.
  - cbn [forallb]. intros H. apply andb_prop in H as [Hw Hcs].
    destruct (IH Hcs) as [E F].
    destruct (child_parts_lines c Hc Hw) as [Ec Fc].
    rewrite flat_map_app, Ec, E. split; [done|].
    apply Forall_app. by split.
  - intros H. destruct (IH H) as [E F].
    unfold Exporter.child_parts at 1 3. rewrite Hc. by split.
Qed.

Section RoundTripLemmas.
Variable toLowerCase : str -> str.

Lemma span_of_block_ok (b : Exporter.CodeBlock) :
  wf_block b = true ->
  wf_sec (span_of_block b) = true /\
  section_of toLowerCase (span_of_block b) = imported_section toLowerCase b.
Proof.
  intros (Ht & Hl & Hp & _ & Hplain)%wf_block_inv.
  pose proof (section_header_safe b Ht Hl) as Hh.
  destruct (secRe_header _ _ Ht Hl Hp) as (x & Hx & Htrim).
  assert (sec_match (Exporter.section_header b) = Some [x; Exporter.lang b])
    as Hsec.
  { unfold sec_match, Re.match_start. rewrite strip_tabs_safe by done.
    unfold Exporter.section_header. fold (block_title b). by rewrite Hx. }
  assert (comp_match (Exporter.section_header b) = None) as Hcomp.
  { unfold comp_match, Re.match_start. rewrite strip_tabs_safe by done.
    unfold Exporter.section_header.
    by rewrite compRe_section_header. }
  split.
  - unfold wf_sec, span_of_block, is_sec_header, is_comp_header.
    cbn [sec_header sec_body]. rewrite Hsec, Hcomp.
    cbn [forallb]. rewrite forallb_app, Hplain. reflexivity.
  - unfold section_of, imported_section, span_of_block.
    cbn [sec_header sec_body]. rewrite Hsec, split_lines.
    cbn [default from_option nth id]. rewrite Htrim. f_equal.
    unfold body_code. cbn [flat_map]. by rewrite flat_map_app.
Qed.

Lemma span_of_blocks_ok (bs : list Exporter.CodeBlock) :
  forallb wf_block bs = true ->
  forallb wf_sec (List.map span_of_block bs) = true /\
  List.map (section_of toLowerCase) (List.map span_of_block bs) =
  List.map (imported_section toLowerCase) bs.
Proof.
  induction bs as [|b bs IH]; [done|]. cbn [forallb map]. intros H.
  apply andb_prop in H as [Hb Hbs].
  destruct (IH Hbs) as [-> ->]. destruct (span_of_block_ok b Hb) as [-> ->].
  done.
Qed.

Lemma span_of_child_ok (c : Exporter.node) :
  wf_child c = true ->
  wf_comp (span_of_child c) = true /\
  component_of toLowerCase (span_of_child c) =
  imported_component toLowerCase c.
Proof.
  unfold wf_child. intros H. apply andb_prop in H as [Hn Hbs].
  pose proof (component_header_safe c Hn) as Hh.
  destruct (compRe_header _ Hn) as (x & Hx & Htrim).
  destruct (span_of_blocks_ok _ Hbs) as [Hwf Hsecs].
  assert (comp_match (Exporter.component_header c) = Some [x]) as Hcomp.
  { unfold comp_match, Re.match_start. rewrite strip_tabs_safe by done.
    unfold Exporter.component_header. fold (child_label c). by rewrite Hx. }
  split.
  - unfold wf_comp, span_of_child, is_comp_header.
    cbn [comp_header comp_skipped comp_sections]. by rewrite Hcomp, Hwf.
  - unfold component_of, imported_component, span_of_child.
    cbn [comp_header comp_sections]. rewrite Hcomp, Hsecs.
    cbn [default from_option nth id]. by rewrite Htrim.
Qed.

Lemma span_of_children_ok (cs : list Exporter.node) :
  forallb wf_child cs = true ->
  forallb wf_comp (List.map span_of_child cs) = true /\
  List.map (component_of toLowerCase) (List.map span_of_child cs) =
  List.map (imported_component toLowerCase) cs.
Proof.
  induction cs as [|c cs IH]; [done|]. cbn [forallb map]. intros H.
  apply andb_prop in H as [Hc Hcs].
  destruct (IH Hcs) as [-> ->]. destruct (span_of_child_ok c Hc) as [-> ->].
  done.
Qed.

(** The Importer reads the Exporter's text back, component by component
    and block by block. *)
Lemma collect_parts_all (children : list Exporter.node) (parts : list str) :
  Exporter.collect_parts children = Some parts ->
  parts = flat_map Exporter.child_parts children.
Proof.
  revert parts. induction children as [|c cs IH]; intros parts H.
  - injection H as <-. reflexivity.
  - cbn [Exporter.collect_parts] in H.
    destruct (Exporter.has_component c && Exporter.host_rejects c); [done|].
    destruct (Exporter.collect_parts cs) as [ps|]; [|done].
    injection H as <-. cbn [flat_map]. by rewrite (IH ps).
Qed.

Lemma parse_download (children : list Exporter.node) (text : str) :
  Exporter.downloadAllFromFrame children = Some text ->
  forallb wf_child (List.filter Exporter.has_component children) = true ->
  parseBlocks toLowerCase text =
  List.map (imported_component toLowerCase)
           (List.filter Exporter.has_component children).
Proof.
  unfold Exporter.downloadAllFromFrame. intros Ht Hwf.
  destruct (children_parts_lines children Hwf) as [E F].
  destruct (span_of_children_ok _ Hwf) as [Hspans <-].
  destruct (Exporter.collect_parts children) as [parts|] eqn:Hc; [|done].
  rewrite <- (collect_parts_all _ _ Hc) in E, F.
  destruct parts as [|p ps]; [done|].
  replace text with (join nl (p :: ps)) by congruence.
  unfold parseBlocks. rewrite split_lines, lines_of_join, E by done.
  apply (parse_lines_layout toLowerCase []).
  unfold wf_layout. by rewrite Hspans.
Qed.

End RoundTripLemmas.

(** ** File names *)

Lemma filter_Forall (p : N -> bool) (s : str) :
  Forall (fun c => p c = true) (List.filter p s).
Proof.
  induction s as [|c s IH]; simpl; [constructor|].
  destruct (p c) eqn:Hc; [by constructor|exact IH].
Qed.

Lemma compName_ident (c : ExportedComponent) (idx : nat) :
  Forall (fun ch => is_ident_char ch = true) (compName c idx).
Proof. apply filter_Forall. Qed.

Lemma search_vue_suffix (x pre : str) :
  Forall (fun c => is_ident_char c = true) x ->
  Re.search_from vueSuffixRe pre (x ++ js ".vue") =
  Some {| Re.f_pre := pre ++ x; Re.f_match := js ".vue"; Re.f_post := [] |}.
Proof.
  intros Hx. revert pre.
  induction Hx as [|c x Hc _ IH]; intros pre.
  - by rewrite app_nil_r.
  - cbn [app Re.search_from].
    replace (Re.match_here vueSuffixRe pre (c :: x ++ js ".vue"))
      with (@None Re.found).
    + rewrite IH. by rewrite <- app_assoc.
    + unfold Re.match_here, vueSuffixRe. cbn [Re.run].
      destruct (N.eqb_spec 46 c) as [<-|_]; [done|reflexivity].
Qed.

(** [filename.replace(/\.vue$/i, '')] gives back the component name. *)
Lemma strip_vue_suffix (x : str) :
  Forall (fun c => is_ident_char c = true) x ->
  replace_first vueSuffixRe [] (x ++ js ".vue") = x.
Proof.
  intros Hx. unfold replace_first, Re.search.
  rewrite search_vue_suffix by done. simpl. by rewrite app_nil_r.
Qed.

Lemma count_app (b : str) (s1 s2 : list str) :
  count b (s1 ++ s2) = (count b s1 + count b s2)%nat.
Proof. induction s1 as [|x s1 IH]; simpl; [done|]. rewrite IH. lia. Qed.

Lemma counts_insert used seen b :
  counts used seen ->
  counts (<[b := S (count b seen)]> used) (seen ++ [b]).
Proof.
  intros H b'. rewrite count_app. simpl. unfold str_eqb.
  destruct (decide (b = b')) as [<-|Hne].
  - rewrite lookup_insert_eq, bool_decide_eq_true_2 by done.
    by replace (count b seen + (1 + 0))%nat with (S (count b seen)) by lia.
  - rewrite lookup_insert_ne, bool_decide_eq_false_2 by done.
    rewrite H. by replace (count b' seen + (0 + 0))%nat with (count b' seen)
      by lia.
Qed.

(** What the callback of [forEach] does for a component that passes the
    gate. *)
Lemma write_component_gated w c i :
  has_template c = true ->
  write_component w c i =
  let b := compName c i in
  match used w !! b with
  | Some n =>
      let newBase := b ++ js "_" ++ num_to_str (n + 1) in
      emit {| filename := newBase ++ js ".vue";
              content :=
                replace_first headerRe (header_comment (name c))
                  (replace_first exportNameRe
                     (js "export default { name: '" ++ newBase ++ js "' }")
                     (content (buildSFC c i))) |}
           (<[b := (n + 1)%nat]> (used w)) w
  | None => emit (buildSFC c i) (<[b := 1%nat]> (used w)) w
  end.
Proof.
  intros H. unfold write_component. rewrite H.
  change (filename (buildSFC c i)) with (compName c i ++ js ".vue").
  by rewrite strip_vue_suffix by apply compName_ident.
Qed.

Lemma write_component_files w c i seen :
  counts (used w) seen -> has_template c = true ->
  files (write_component w c i) =
  files w ++ [file_name (compName c i) (count (compName c i) seen)] /\
  counts (used (write_component w c i)) (seen ++ [compName c i]).
Proof.
  intros Hu Hc. rewrite write_component_gated by done. cbv zeta.
  pose proof (Hu (compName c i)) as Hb.
  pose proof (counts_insert _ _ (compName c i) Hu) as Hu'.
  destruct (count (compName c i) seen) as [|k] eqn:Hk; rewrite Hb.
  - by split.
  - replace (S k + 1)%nat with (S (S k)) by lia. split; [|exact Hu'].
    unfold emit, file_name. cbn [files filename].
    by rewrite <- !app_assoc.
Qed.

Lemma forEach_files comps : forall w i seen,
  counts (used w) seen ->
  files (forEach w i comps) = files w ++ file_names seen i comps.
Proof.
  induction comps as [|c comps IH]; intros w i seen Hu; simpl.
  - by rewrite app_nil_r.
  - destruct (has_template c) eqn:Hc.
    + destruct (write_component_files w c i seen Hu Hc) as [Hf Hu'].
      rewrite (IH _ _ _ Hu'), Hf. by rewrite <- app_assoc.
    + unfold write_component at 1. rewrite Hc. by apply IH.
Qed.

Lemma counts_empty : counts ∅ [].
Proof. intros b. apply lookup_empty. Qed.

Lemma writeComponentsToApp_files comps :
  files (writeComponentsToApp comps) = file_names [] O comps.
Proof.
  unfold writeComponentsToApp.
  by rewrite (forEach_files comps _ O []) by apply counts_empty.
Qed.

Lemma file_names_app pre : forall seen i rest,
  file_names seen i (pre ++ rest) =
  file_names seen i pre ++
  file_names (seen ++ gated_bases i pre) (i + length pre) rest.
Proof.
  induction pre as [|c pre IH]; intros seen i rest; simpl.
  - by rewrite app_nil_r, Nat.add_0_r.
  - replace (i + S (length pre))%nat with (S i + length pre)%nat by lia.
    destruct (has_template c); rewrite IH.
    + by rewrite <- app_assoc.
    + done.
Qed.

Lemma file_names_length pre : forall seen i,
  length (file_names seen i pre) = length (gated_bases i pre).
Proof.
  induction pre as [|c pre IH]; intros seen i; simpl; [done|].
  destruct (has_template c); simpl; by rewrite IH.
Qed.

Lemma gated_bases_length comps : forall i,
  length (gated_bases i comps) = length (List.filter has_template comps).
Proof.
  induction comps as [|c comps IH]; intros i; simpl; [done|].
  destruct (has_template c); simpl; by rewrite IH.
Qed.

Lemma write_component_sync w c i :
  files w = List.map filename (written w) ->
  files (write_component w c i) =
  List.map filename (written (write_component w c i)).
Proof.
  intros H. unfold write_component.
  destruct (has_template c); [|exact H].
  destruct (used w !! _); unfold emit; cbn [files written];
    by rewrite List.map_app, H.
Qed.

Lemma forEach_sync comps : forall w i,
  files w = List.map filename (written w) ->
  files (forEach w i comps) = List.map filename (written (forEach w i comps)).
Proof.
  induction comps as [|c comps IH]; intros w i H; simpl; [exact H|].
  by apply IH, write_component_sync.
Qed.

(** [files] lists the names of the files written, in order. *)
Lemma writeComponentsToApp_sync comps :
  files (writeComponentsToApp comps) =
  List.map filename (written (writeComponentsToApp comps)).
Proof. by apply forEach_sync. Qed.

Lemma no_files_nothing_written comps :
  files (writeComponentsToApp comps) = [] ->
  written (writeComponentsToApp comps) = [].
Proof.
  rewrite writeComponentsToApp_sync.
  by destruct (written (writeComponentsToApp comps)).
Qed.

(** One file is written for each component that passes the gate. *)
Lemma written_length comps :
  length (written (writeComponentsToApp comps)) =
  length (List.filter has_template comps).
Proof.
  rewrite <- (length_map filename), <- writeComponentsToApp_sync.
  by rewrite writeComponentsToApp_files, file_names_length,
    gated_bases_length.
Qed.

(** ** The gate of [writeComponentsToApp] *)

Lemma is_gate_lang_spec (l : str) :
  is_gate_lang l = true <->
  l = js "vue" \/ l = js "template" \/ l = js "component".
Proof.
  unfold is_gate_lang, str_eqb.
  rewrite !orb_true_iff, !bool_decide_eq_true. tauto.
Qed.

Lemma has_template_spec (c : ExportedComponent) :
  has_template c = true <->
  exists s, List.find (fun s => is_gate_lang (lang s)) (sections c) = Some s
            /\ trim (code s) <> [].
Proof.
  unfold has_template, tplSection.
  destruct (List.find _ (sections c)) as [s|]; split.
  - intros H. exists s. split; [done|].
    destruct (code s); [done|]. by destruct (trim _).
  - intros (s' & [= <-] & H). destruct (code s) eqn:E; [done|].
    by destruct (trim _).
  - done.
  - by intros (s & ? & _).
Qed.

Lemma write_component_dropped w c i :
  has_template c = false -> write_component w c i = w.
Proof. intros H. unfold write_component. by rewrite H. Qed.

Lemma write_component_emits w c i :
  has_template c = true ->
  exists f, written (write_component w c i) = written w ++ [f] /\
            files (write_component w c i) = files w ++ [filename f].
Proof.
  intros H. rewrite write_component_gated by done. cbv zeta.
  destruct (used w !! compName c i); eexists; by split.
Qed.

(** C1 (amended). A component is materialized to a file if and only if
    the first of its sections tagged [vue], [template] or [component]
    exists and has non-blank code, hence only if it owns a section with
    one of these tags and non-blank code; a component that is not
    materialized leaves the run unchanged, so that a run writes one file
    for each component that passes this gate. The tag [html] is not
    among the tags of the gate. *)
Theorem materialized_iff_first_template_section
        (w : writer) (c : ExportedComponent) (i : nat) :
  ((exists f, written (write_component w c i) = written w ++ [f] /\
              files (write_component w c i) = files w ++ [filename f])
   <->
   (exists s,
       List.find (fun s => is_gate_lang (lang s)) (sections c) = Some s /\
       trim (code s) <> [])) /\
  ((exists f, written (write_component w c i) = written w ++ [f]) ->
   exists s, s ∈ sections c /\ is_gate_lang (lang s) = true /\
             trim (code s) <> []) /\
  ((exists f, written (write_component w c i) = written w ++ [f])
   \/ write_component w c i = w) /\
  (forall l, is_gate_lang l = true <->
             l = js "vue" \/ l = js "template" \/ l = js "component") /\
  (forall comps,
      length (written (writeComponentsToApp comps)) =
      length (List.filter has_template comps)).
Proof.
  assert ((exists f, written (write_component w c i) = written w ++ [f]) ->
          has_template c = true) as Hgate.
  { intros (f & Hf). destruct (has_template c) eqn:Hc; [done|].
    rewrite write_component_dropped in Hf by done.
    apply (f_equal length) in Hf. rewrite length_app in Hf.
    simpl in Hf. lia. }
  split; [|split; [|split;
    [|split; [apply is_gate_lang_spec|apply written_length]]]].
  2: { intros (s & Hs & Hcode)%Hgate%has_template_spec.
       apply find_some in Hs as [Hin Hl].
       exists s. split; [by apply list_elem_of_In|done]. }
  - rewrite <- has_template_spec. split.
    + intros (f & Hf & _). apply Hgate. by exists f.
    + apply write_component_emits.
  - destruct (has_template c) eqn:Hc.
    + left. destruct (write_component_emits w c i Hc) as (f & Hf & _).
      by exists f.
    + right. by apply write_component_dropped.
Qed.

(** An instance of C1: the component [Foo] with its [vue] section is
    materialized. *)
Lemma materialized_iff_first_template_section_witness :
  (exists f,
      written (write_component {| used := ∅; files := []; written := [] |}
                               demo_foo 0) = [f] /\
      files (write_component {| used := ∅; files := []; written := [] |}
                             demo_foo 0) = [filename f]).
Proof.
  apply (proj1 (materialized_iff_first_template_section
                  {| used := ∅; files := []; written := [] |} demo_foo 0)).
  eexists. split; [reflexivity|]. vm_compute. discriminate.
Defined.

(** C1, as stated, fails on the end-to-end example of the specification:
    the component [Foo] owns a section tagged [html] with the non-blank
    code [<div>hi</div>], and no file is synthesized for it. *)
Lemma html_only_component_is_dropped :
  parseBlocks ascii_toLowerCase demo_html_input = [demo_html] /\
  is_template_lang (js "html") = true /\
  trim (js "<div>hi</div>" ++ nl ++ nl) = js "<div>hi</div>" /\
  files (writeComponentsToApp [demo_html]) = [] /\
  written (writeComponentsToApp [demo_html]) = [].
Proof. repeat split; vm_compute; reflexivity. Qed.

(** C2 (amended). In a run over [pre ++ c :: post], where [c] passes the
    gate and has the base name [b]: when no earlier file has this base
    name the file of [c] is [b.vue]; when [k >= 1] earlier files have it,
    the file of [c] is [b_N.vue] with [N = k + 1], the number of the
    occurrence. The second occurrence is therefore suffixed [_2]. *)
Theorem collision_suffix_is_occurrence_number
        (pre : list ExportedComponent) (c : ExportedComponent)
        (post : list ExportedComponent) :
  has_template c = true ->
  let b := compName c (length pre) in
  files (writeComponentsToApp (pre ++ c :: post))
    !! length (gated_bases O pre) =
  Some match count b (gated_bases O pre) with
       | O => b ++ js ".vue"
       | S k => b ++ js "_" ++ num_to_str (S (S k)) ++ js ".vue"
       end.
Proof.
  intros Hc b. rewrite writeComponentsToApp_files, file_names_app.
  rewrite lookup_app_r by (rewrite file_names_length; lia).
  rewrite file_names_length, Nat.sub_diag.
  cbn [file_names app Nat.add]. rewrite Hc. unfold file_name. fold b.
  by destruct (count b (gated_bases 0 pre)).
Qed.

(** An instance of C2: the third [Foo] of a run. *)
Lemma collision_suffix_is_occurrence_number_witness :
  has_template demo_foo = true /\
  files (writeComponentsToApp ([demo_foo; demo_foo] ++ demo_foo :: []))
    !! 2%nat = Some (js "Foo_3.vue").
Proof.
  split; [reflexivity|].
  exact (collision_suffix_is_occurrence_number
           [demo_foo; demo_foo] demo_foo [] eq_refl).
Defined.

(** C2, as stated, fails for two components named [Foo]: the second file
    is [Foo_2.vue], not [Foo_1.vue]. *)
Lemma second_occurrence_is_suffixed_2 :
  files (writeComponentsToApp [demo_foo; demo_foo]) =
  [js "Foo.vue"; js "Foo_2.vue"] /\
  files (writeComponentsToApp [demo_foo; demo_foo]) !! 1%nat <>
  Some (js "Foo_1.vue").
Proof. split; [vm_compute; reflexivity|vm_compute; discriminate]. Qed.

(** C3 on two components named [Foo]: the second file is [Foo_2.vue],
    its default export is renamed to [Foo_2], and its header comment
    still reads [Foo]. *)
Theorem collision_rewrite_on_foo_foo :
  written (writeComponentsToApp [demo_foo; demo_foo]) !! 1%nat =
  Some {| filename := js "Foo_2.vue";
          content :=
            js "<!-- Generated from Figma export: Foo -->" ++ nl ++
            js "<template>" ++ nl ++
            js "<div>hi</div>" ++ nl ++ nl ++
            js "</template>" ++ nl ++ nl ++
            js "<script>" ++ nl ++
            js "export default { name: 'Foo_2' }" ++ nl ++
            js "</script>" ++ nl ++ nl |}.
Proof. vm_compute. reflexivity. Qed.

(** ** Names *)

Lemma digit_name_char (c : N) : is_digit c = true -> is_name_char c = true.
Proof.
  unfold is_name_char. intros ->. by rewrite !orb_true_r.
Qed.

Lemma digit_not_space (c : N) : is_digit c = true -> is_space c = false.
Proof.
  unfold is_digit, is_space, in_range.
  rewrite andb_true_iff, !N.leb_le. intros [H1 H2].
  repeat match goal with
         | |- context [?a <=? c] => destruct (N.leb_spec a c); try lia
         | |- context [c <=? ?a] => destruct (N.leb_spec c a); try lia
         | |- context [c =? ?a] => destruct (N.eqb_spec c a); try lia
         end.
  all: reflexivity.
Qed.

Lemma uint_digits (u : Decimal.uint) :
  Forall (fun c => is_digit c = true) (js (NilEmpty.string_of_uint u)).
Proof. induction u; simpl; constructor; done. Qed.

Lemma num_to_str_digits (n : nat) :
  Forall (fun c => is_digit c = true) (num_to_str n).
Proof.
  unfold num_to_str, NilZero.string_of_uint.
  destruct (Nat.to_uint n) eqn:E; try (rewrite <- E; apply uint_digits).
  by repeat constructor.
Qed.

(** A name of name characters without white space is left as it is. *)
Lemma filter_all (p : N -> bool) (s : str) :
  Forall (fun c => p c = true) s -> List.filter p s = s.
Proof.
  induction 1 as [|c s Hc _ IH]; simpl; [done|]. by rewrite Hc, IH.
Qed.

Lemma drop_while_none (p : N -> bool) (s : str) :
  Forall (fun c => p c = false) s -> drop_while p s = s.
Proof. destruct 1 as [|c s Hc _]; simpl; [done|]. by rewrite Hc. Qed.

Lemma trim_no_space (s : str) :
  Forall (fun c => is_space c = false) s -> trim s = s.
Proof.
  intros H. unfold trim, trimStart, trimEnd.
  rewrite (drop_while_none _ s H).
  rewrite drop_while_none by (by apply Forall_rev).
  apply rev_involutive.
Qed.

Lemma collapse_no_space (s : str) (b : bool) :
  Forall (fun c => is_space c = false) s -> collapse_spaces b s = s.
Proof.
  intros H. revert b. induction H as [|c s Hc _ IH]; intros b; simpl; [done|].
  by rewrite Hc, IH.
Qed.

Lemma sanitizeName_clean (s : str) :
  Forall (fun c => is_name_char c = true) s ->
  Forall (fun c => is_space c = false) s ->
  s <> [] ->
  sanitizeName s = s.
Proof.
  intros H1 H2 H3. unfold sanitizeName.
  rewrite filter_all, trim_no_space, collapse_no_space by done.
  by destruct s.
Qed.

Lemma sanitizeName_positional (n : nat) :
  sanitizeName (js "Component_" ++ num_to_str n) =
  js "Component_" ++ num_to_str n.
Proof.
  pose proof (num_to_str_digits n) as Hd.
  apply sanitizeName_clean; [| |done].
  - apply Forall_app. split; [by repeat constructor|].
    eapply Forall_impl; [exact Hd|]. apply digit_name_char.
  - apply Forall_app. split; [by repeat constructor|].
    eapply Forall_impl; [exact Hd|]. apply digit_not_space.
Qed.

(** C4 (amended). When what is left of a raw name after sanitization is
    empty, [sanitizeName] gives the fixed name [Generated]; the name
    derived from the position, [Component_N] with [N = idx + 1], is the
    base name only of a component whose raw name is itself empty; the
    base name of a component with a non-empty raw name does not depend
    on its position, so the same raw name always gives the same base
    name. *)
Theorem sanitizer_fallback_names :
  (forall raw,
      collapse_spaces false (trim (List.filter is_name_char raw)) = [] ->
      sanitizeName raw = js "Generated") /\
  (forall c idx,
      name c = [] ->
      nameBase c idx = js "Component_" ++ num_to_str (idx + 1)) /\
  (forall c idx idx',
      name c <> [] -> nameBase c idx = nameBase c idx') /\
  (forall c c' idx idx',
      name c = name c' -> name c <> [] -> nameBase c idx = nameBase c' idx').
Proof.
  repeat split.
  - intros raw H. unfold sanitizeName. by rewrite H.
  - intros c idx H. unfold nameBase. rewrite H.
    apply sanitizeName_positional.
  - intros c idx idx' H. unfold nameBase. by destruct (name c).
  - intros c c' idx idx' E H. unfold nameBase. rewrite <- E.
    by destruct (name c).
Qed.

(** Instances of C4. *)
Lemma sanitizer_fallback_names_witness :
  sanitizeName (js "?!") = js "Generated" /\
  nameBase {| name := []; sections := [] |} 6 = js "Component_7" /\
  nameBase {| name := js "My Card"; sections := [] |} 0 =
  nameBase {| name := js "My Card"; sections := [] |} 5.
Proof.
  destruct sanitizer_fallback_names as (H1 & H2 & H3 & _).
  split; [apply H1; reflexivity|].
  split; [exact (H2 {| name := []; sections := [] |} 6%nat eq_refl)|].
  apply H3. discriminate.
Defined.

(** C4, as stated, fails for the all-punctuation name [!!!]: what is
    left after sanitization is empty, and the base name is [Generated],
    not the positional [Component_3] of the third component. *)
Lemma punctuation_name_is_Generated :
  collapse_spaces false (trim (List.filter is_name_char (js "!!!"))) = [] /\
  sanitizeName (js "!!!") = js "Generated" /\
  nameBase {| name := js "!!!"; sections := [] |} 2 = js "Generated" /\
  nameBase {| name := js "!!!"; sections := [] |} 2 <> js "Component_3".
Proof. repeat split; try (vm_compute; reflexivity). vm_compute. discriminate. Qed.

(** ** Script resolution *)

Lemma star_any_exists {R} (k : str -> option R) (w s : str) r :
  k s = Some r -> exists r', Re.star (fun _ => true) k (w ++ s) = Some r'.
Proof.
  intros Hk. induction w as [|c w [r' IH]]; simpl.
  - destruct s as [|c s]; simpl; [by exists r|].
    destruct (Re.star _ k s) as [r'|]; [by exists r'|by exists r].
  - rewrite IH. by exists r'.
Qed.

Lemma star_inv {R} p (k : str -> option R) (s : str) r :
  Re.star p k s = Some r -> exists w z, s = w ++ z /\ k z = Some r.
Proof.
  induction s as [|c s IH]; simpl; intros H.
  - by exists [], [].
  - destruct (p c); [|by exists [], (c :: s)].
    destruct (Re.star p k s) as [r'|] eqn:E; [|by exists [], (c :: s)].
    destruct (IH H) as (w & z & -> & Hz).
    by exists (c :: w), z.
Qed.

(** [objectLiteralRe] accepts exactly the texts that start with an
    opening brace and end with a closing brace, two characters at
    least. *)
Lemma objectLiteralRe_spec (s : str) :
  Re.test_start objectLiteralRe s = true <->
  exists body, s = Ch.LBRACE :: body ++ [Ch.RBRACE].
Proof.
  unfold Re.test_start, Re.match_start, objectLiteralRe.
  rewrite bool_decide_eq_true, fmap_is_Some. split.
  - intros [res H]. destruct s as [|c s]; [done|]. cbn [Re.run] in H.
    destruct (N.eqb_spec Ch.LBRACE c) as [<-|]; [|done].
    apply star_inv in H as (w & z & -> & Hz).
    exists w. do 2 f_equal.
    destruct z as [|d z]; [done|]. cbn [Re.run] in Hz.
    destruct (N.eqb_spec Ch.RBRACE d) as [<-|]; [|done].
    by destruct z.
  - intros [body ->]. cbn [Re.run]. rewrite N.eqb_refl.
    destruct (star_any_exists
                (fun s' => Re.run [Re.Lit Ch.RBRACE; Re.Eos] s' [])
                body [Ch.RBRACE] ([], [])) as [r' Hr]; [reflexivity|].
    by exists r'.
Qed.

Lemma script_block_setup (setup name : str) :
  setup <> [] ->
  script_block setup name =
  js "<script setup>" ++ nl ++ setup ++ nl ++ js "</script>" ++ nl.
Proof. by destruct setup. Qed.

(** C5 (amended). Only the first script candidate is tested. When,
    trimmed, it is wrapped in braces, the script of the synthesized
    file binds it to [inlineStyle], the template is the existing
    template inside an element with [:style="inlineStyle"] unless it
    already contains [:style], and the other script candidates are left
    out. When it is not wrapped in braces, all script candidates,
    joined by line feeds, are the body of the setup script and the
    template is left as it is, whatever the later candidates are. *)
Theorem first_script_candidate_is_inline_style
        (c : ExportedComponent) (idx : nat) (j : str) (rest : list str) :
  let p := classify_all (sections c) in
  jsParts p = j :: rest ->
  (forall body,
      trim j = Ch.LBRACE :: body ++ [Ch.RBRACE] ->
      Re.test_start objectLiteralRe (trim j) = true /\
      content (buildSFC c idx) =
      header_comment (name c) ++ nl ++
      js "<template>" ++ nl ++
      (if includes (initial_template c p) (js ":style")
       then initial_template c p
       else nl ++ js "<div :style=" ++ dq ++ js "inlineStyle" ++ dq ++
            js ">" ++ nl ++ initial_template c p ++ nl ++ js "</div>" ++ nl) ++
      nl ++ js "</template>" ++ nl ++ nl ++
      (js "<script setup>" ++ nl ++
       (js "const inlineStyle = " ++ trim j ++ nl) ++ nl ++
       js "</script>" ++ nl) ++
      nl ++ style_block (cssParts p)) /\
  ((forall body, trim j <> Ch.LBRACE :: body ++ [Ch.RBRACE]) ->
   Re.test_start objectLiteralRe (trim j) = false /\
   content (buildSFC c idx) =
   header_comment (name c) ++ nl ++
   js "<template>" ++ nl ++ initial_template c p ++ nl ++
   js "</template>" ++ nl ++ nl ++
   (js "<script setup>" ++ nl ++
    (join nl (j :: rest) ++ nl) ++ nl ++
    js "</script>" ++ nl) ++
   nl ++ style_block (cssParts p)).
Proof.
  intros p Hj. split.
  - intros body Hb.
    assert (Re.test_start objectLiteralRe (trim j) = true) as Ht.
    { apply objectLiteralRe_spec. by exists body. }
    split; [exact Ht|].
    unfold buildSFC. fold p. unfold resolve_script. rewrite Hj, Ht.
    cbn [scriptSetup template styleParts].
    rewrite script_block_setup by done. reflexivity.
  - intros Hb.
    assert (Re.test_start objectLiteralRe (trim j) = false) as Ht.
    { destruct (Re.test_start objectLiteralRe (trim j)) eqn:E; [|done].
      apply objectLiteralRe_spec in E as [body E]. by destruct (Hb body). }
    split; [exact Ht|].
    unfold buildSFC. fold p. unfold resolve_script. rewrite Hj, Ht.
    cbn [scriptSetup template styleParts].
    rewrite script_block_setup; [reflexivity|].
    unfold nl. by destruct (join [Ch.LF] (j :: rest)).
Qed.

(** Two instances of C5: a first script candidate that is an object
    literal between white space, and a first script candidate that is
    not wrapped in braces, followed by one that is. *)
Lemma first_script_candidate_is_inline_style_witness :
  jsParts (classify_all (sections demo_style_object)) =
  [js " { color: 'red' } " ++ nl; js "run()"] /\
  trim (js " { color: 'red' } " ++ nl) =
  Ch.LBRACE :: js " color: 'red' " ++ [Ch.RBRACE] /\
  content (buildSFC demo_style_object 0) =
  js "<!-- Generated from Figma export: Box -->" ++ nl ++
  js "<template>" ++ nl ++ nl ++
  js "<div :style=" ++ dq ++ js "inlineStyle" ++ dq ++ js ">" ++ nl ++
  js "<p/>" ++ nl ++
  js "</div>" ++ nl ++ nl ++
  js "</template>" ++ nl ++ nl ++
  js "<script setup>" ++ nl ++
  js "const inlineStyle = { color: 'red' }" ++ nl ++ nl ++
  js "</script>" ++ nl ++ nl /\
  jsParts (classify_all (sections demo_two_scripts)) =
  [js "run()"; js "{ color: 'red' }"] /\
  content (buildSFC demo_two_scripts 0) =
  js "<!-- Generated from Figma export: Box -->" ++ nl ++
  js "<template>" ++ nl ++
  js "<p/>" ++ nl ++
  js "</template>" ++ nl ++ nl ++
  js "<script setup>" ++ nl ++
  js "run()" ++ nl ++
  js "{ color: 'red' }" ++ nl ++ nl ++
  js "</script>" ++ nl ++ nl.
Proof.
  split; [reflexivity|]. split; [reflexivity|]. split.
  - exact (proj2 (proj1 (first_script_candidate_is_inline_style
                           demo_style_object 0 _ _ eq_refl)
                        (js " color: 'red' ") eq_refl)).
  - split; [reflexivity|].
    apply (proj2 (first_script_candidate_is_inline_style
                    demo_two_scripts 0 (js "run()") [js "{ color: 'red' }"]
                    eq_refl)).
    intros body H. discriminate H.
Defined.

(** C5, as stated, fails when a later script candidate is wrapped in
    braces and the first one is not: the candidates are concatenated as
    the body of the setup script, and no style is bound. *)
Lemma later_style_object_is_not_bound :
  jsParts (classify_all (sections demo_two_scripts)) =
  [js "run()"; js "{ color: 'red' }"] /\
  Re.test_start objectLiteralRe (trim (js "{ color: 'red' }")) = true /\
  content (buildSFC demo_two_scripts 0) =
  js "<!-- Generated from Figma export: Box -->" ++ nl ++
  js "<template>" ++ nl ++
  js "<p/>" ++ nl ++
  js "</template>" ++ nl ++ nl ++
  js "<script setup>" ++ nl ++
  js "run()" ++ nl ++
  js "{ color: 'red' }" ++ nl ++ nl ++
  js "</script>" ++ nl ++ nl /\
  includes (content (buildSFC demo_two_scripts 0)) (js "inlineStyle") = false.
Proof. repeat split; vm_compute; reflexivity. Qed.

(** ** Components made of style sections *)





(** ** Bare declarations *)

Lemma drop_while_head_id (p : N -> bool) (s : str) :
  head (List.map p s) <> Some true -> drop_while p s = s.
Proof. destruct s as [|c s]; simpl; [done|]. by destruct (p c). Qed.





Ltac range_cases c :=
  repeat match goal with
         | |- context [?a <=? c] => destruct (N.leb_spec a c); try lia
         | |- context [c <=? ?a] => destruct (N.leb_spec c a); try lia
         | |- context [c =? ?a] => destruct (N.eqb_spec c a); try lia
         end.

Lemma prop_char_facts (c : N) :
  is_prop_char c = true ->
  c <> Ch.SEMI /\ c <> Ch.COLON /\ is_space c = false /\
  is_decl_char c = true /\ is_digit c = false /\ c <> Ch.UNDERSCORE.
Proof.
  unfold is_prop_char, is_decl_char, is_lower, is_upper, is_digit, is_space,
    in_range, Ch.SEMI, Ch.COLON, Ch.UNDERSCORE, Ch.HYPHEN.
  intros H. apply orb_prop in H as [H|H].
  - apply andb_prop in H as [H1 H2]. apply N.leb_le in H1, H2.
    repeat split; try lia; range_cases c; reflexivity.
  - apply N.eqb_eq in H as ->. by repeat split.
Qed.

Lemma wf_decl_inv (d : str * str) :
  wf_decl d = true ->
  fst d <> [] /\ Forall (fun c => is_prop_char c = true) (fst d) /\
  Forall (fun c => c <> Ch.SEMI) (snd d) /\
  head (List.map is_space (snd d)) <> Some true /\
  head (List.map is_space (rev (snd d))) <> Some true /\
  snd d <> [].
Proof.
  unfold wf_decl. rewrite !andb_true_iff.
  intros ((((H1 & H2) & H3) & H4) & H5).
  apply negb_true_iff, bool_decide_eq_false in H1.
  split; [done|]. split.
  { apply Forall_forall. intros c Hc. rewrite forallb_forall in H2.
    by apply H2, list_elem_of_In. }
  split.
  { apply Forall_forall. intros c Hc. rewrite forallb_forall in H3.
    apply list_elem_of_In, H3 in Hc.
    destruct (N.eqb_spec c Ch.SEMI); [done|assumption]. }
  destruct (snd d) as [|c v] eqn:E; [done|].
  split; [simpl; by destruct (is_space c)|]. split; [|done].
  destruct (last (c :: v)) as [e|] eqn:El; [|done].
  apply last_Some in El as [v' ->]. rewrite rev_unit. simpl.
  by destruct (is_space e).
Qed.

Lemma trim_id (s : str) :
  head (List.map is_space s) <> Some true ->
  head (List.map is_space (rev s)) <> Some true ->
  trim s = s.
Proof.
  intros H1 H2. unfold trim, trimStart, trimEnd.
  rewrite (drop_while_head_id _ s H1), drop_while_head_id by done.
  apply rev_involutive.
Qed.
















(** A text of bare declarations passes the test of [buildSFC]. *)
Lemma decls_look_like_decls (ds : list (str * str)) :
  ds <> [] -> forallb wf_decl ds = true ->
  Re.test_multiline declRe (flat_map render_decl ds) = true.
Proof.
  destruct ds as [|d ds]; [done|]. intros _ H.
  cbn [forallb] in H. apply andb_prop in H as [Hd _].
  apply wf_decl_inv in Hd as (Hne & Hp & _).
  cbn [flat_map]. unfold render_decl at 1.
  destruct (fst d) as [|c p]; [done|].
  apply Forall_cons in Hp as [Hc Hp].
  pose proof (prop_char_facts c Hc) as (_ & _ & Hsp & Hdc & _).
  unfold Re.test_multiline. cbn [app Re.test_line_starts].
  apply orb_true_iff. left. cbn [andb]. apply bool_decide_eq_true.
  exists ([], Ch.SP :: snd d ++ js ";" ++ nl ++ flat_map render_decl ds).
  unfold declRe.
  apply (run_star_longest _ _ []); [constructor| |simpl; by rewrite Hsp].
  cbn [Re.run]. rewrite Hdc. rewrite <- !app_assoc.
  apply star_longest; [|reflexivity|done].
  eapply Forall_impl; [exact Hp|]. intros e He.
  by apply prop_char_facts in He as (_ & _ & _ & ? & _).
Qed.




(** ** The command-line driver *)

(** The monad of the process *)

Lemma proc_bind_some {A B} (f : A -> proc B) (e : list event) (a : A) :
  mbind f ((e, Some a) : proc A) = (e ++ fst (f a), snd (f a)).
Proof. reflexivity. Qed.

Lemma proc_bind_none {A B} (f : A -> proc B) (e : list event) :
  mbind f ((e, None) : proc A) = (e, None).
Proof. reflexivity. Qed.

Lemma safeMkdir_cases (w : world) :
  safeMkdir w (compDir w) = (mkdir_events w, Some tt) /\
  (existsSync w (compDir w) = true \/ ~ throws (mkdirSync w (compDir w))) \/
  exists report,
    existsSync w (compDir w) = false /\
    mkdirSync w (compDir w) = Throws report /\
    safeMkdir w (compDir w) = ([Uncaught report], None).
Proof.
  unfold safeMkdir, mkdir_events, when.
  destruct (existsSync w (compDir w)); cbn [negb].
  - left. split; [reflexivity|by left].
  - destruct (mkdirSync w (compDir w)) as [[]|report] eqn:E.
    + left. split; [reflexivity|]. right. by intros [? ?].
    + right. by exists report.
Qed.

Lemma write_events_cases (w : world) (fs : list SynthesizedFile) :
  write_events w fs = (write_log w fs, Some tt) /\
  Forall (fun f => ~ throws (writeFileSync w (compDir w ++ js "/" ++ filename f)
                                          (content f))) fs \/
  exists pre f post report,
    fs = pre ++ f :: post /\
    Forall (fun f => ~ throws (writeFileSync w (compDir w ++ js "/" ++ filename f)
                                            (content f))) pre /\
    writeFileSync w (compDir w ++ js "/" ++ filename f) (content f) =
    Throws report /\
    write_events w fs = (write_log w pre ++ [Uncaught report], None).
Proof.
  induction fs as [|f fs IH].
  - left. split; [reflexivity|constructor].
  - cbn [write_events]. unfold path_join.
    destruct (writeFileSync w (compDir w ++ js "/" ++ filename f) (content f))
      as [[]|report] eqn:E.
    + destruct IH as [[IH1 IH2]|(pre & g & post & report & -> & Hpre & Hg & IH)].
      * left. split.
        -- rewrite IH1. reflexivity.
        -- constructor; [|exact IH2]. rewrite E. by intros [? ?].
      * right. exists (f :: pre), g, post, report.
        split; [reflexivity|]. split.
        -- constructor; [|exact Hpre]. rewrite E. by intros [? ?].
        -- split; [exact Hg|]. rewrite IH. reflexivity.
    + right. exists [], f, fs, report. by repeat split.
Qed.

Lemma gate_lang_tags (l : str) :
  is_gate_lang l = true <-> l ∈ template_tags.
Proof.
  rewrite is_gate_lang_spec. unfold template_tags.
  rewrite !elem_of_cons, elem_of_nil. tauto.
Qed.

Lemma find_split {A} (p : A -> bool) (l : list A) (x : A) :
  List.find p l = Some x <->
  exists before after,
    l = before ++ x :: after /\ Forall (fun y => p y = false) before /\
    p x = true.
Proof.
  induction l as [|y l IH]; cbn [List.find].
  - split; [done|]. intros (b & a & E & _). by destruct b.
  - destruct (p y) eqn:Ey.
    + split.
      * intros [= ->]. exists [], l. by repeat split.
      * intros (b & a & E & Hb & Hx). destruct b as [|z b].
        -- by injection E as -> _.
        -- injection E as -> _. apply Forall_cons in Hb as [Hb _]. congruence.
    + rewrite IH. split.
      * intros (b & a & -> & Hb & Hx). exists (y :: b), a.
        repeat split; [by constructor|done].
      * intros (b & a & E & Hb & Hx). destruct b as [|z b].
        -- injection E as -> _. congruence.
        -- injection E as -> ->. apply Forall_cons in Hb as [_ Hb].
           by exists b, a.
Qed.

Lemma has_template_usable (c : ExportedComponent) :
  has_template c = true <-> usable_template c.
Proof.
  rewrite has_template_spec. unfold usable_template. split.
  - intros (s & Hf & Ht). apply find_split in Hf as (b & a & E & Hb & Hs).
    exists b, s, a. split; [exact E|]. split; [|split; [|exact Ht]].
    + eapply Forall_impl; [exact Hb|]. intros x Hx Hin.
      apply gate_lang_tags in Hin. congruence.
    + by apply gate_lang_tags.
  - intros (b & s & a & E & Hb & Hs & Ht). exists s. split; [|exact Ht].
    apply find_split. exists b, a. split; [exact E|]. split.
    + eapply Forall_impl; [exact Hb|]. intros x Hx.
      destruct (is_gate_lang (lang x)) eqn:Eg; [|done].
      apply gate_lang_tags in Eg. by destruct Hx.
    + by apply gate_lang_tags.
Qed.

Lemma no_files_iff_no_template (comps : list ExportedComponent) :
  files (writeComponentsToApp comps) = [] <->
  Forall (fun c => ~ usable_template c) comps.
Proof.
  rewrite writeComponentsToApp_files.
  assert (H : forall seen i,
             file_names seen i comps = [] <->
             Forall (fun c => ~ usable_template c) comps).
  { induction comps as [|c comps IH]; intros seen i; cbn [file_names].
    - split; [constructor|done].
    - destruct (has_template c) eqn:Hc.
      + split; [done|]. intros H. apply Forall_cons in H as [H _].
        destruct H. by apply has_template_usable.
      + rewrite IH. split.
        * intros H. constructor; [|exact H]. intros Hu.
          apply has_template_usable in Hu. congruence.
        * intros H. by apply Forall_cons in H as [_ H]. }
  apply H.
Qed.

Lemma stderr_app (e1 e2 : list event) :
  stderr (e1 ++ e2) = stderr e1 ++ stderr e2.
Proof. apply flat_map_app. Qed.

Lemma file_writes_app (e1 e2 : list event) :
  file_writes (e1 ++ e2) = file_writes e1 ++ file_writes e2.
Proof. apply flat_map_app. Qed.

Lemma mkdir_events_quiet (w : world) :
  file_writes (mkdir_events w) = [] /\ stderr (mkdir_events w) = [].
Proof. unfold mkdir_events. by destruct (existsSync w (compDir w)). Qed.

Lemma write_log_stderr (w : world) (fs : list SynthesizedFile) :
  stderr (write_log w fs) = [].
Proof. induction fs as [|f fs IH]; [done|exact IH]. Qed.

Lemma write_log_writes (w : world) (fs : list SynthesizedFile) :
  file_writes (write_log w fs) =
  List.map (fun f => (compDir w ++ js "/" ++ filename f, content f)) fs.
Proof.
  induction fs as [|f fs IH]; [done|].
  change (write_log w (f :: fs)) with
    ([WriteFileSync (compDir w ++ js "/" ++ filename f) (content f);
      ConsoleLog (js "Wrote " ++ compDir w ++ js "/" ++ filename f)] ++
     write_log w fs).
  rewrite file_writes_app, IH. reflexivity.
Qed.

(** Running the monad on pairs that are known. *)
Ltac run_proc :=
  unfold finish, when, is_empty, console_log, console_error, exit1, fs_call,
    mbind, proc_bind, mret, proc_ret;
  cbn [fst snd negb].

Section MainLemmas.
Variable toLowerCase : str -> str.
Variable basename : str -> str -> str.

#[local] Abbreviation no_template_msg :=
  (js "No components with Vue template sections were generated").

(** The part of [main] after the components have been parsed. *)
#[local] Abbreviation generate w comps :=
  (finish
     (files ← writeComponentsToApp_fs w comps;
      when (is_empty files) (console_error no_template_msg;; exit1);;
      updateAppVue basename w files;;
      (done_messages, Some tt))).

Lemma generate_cases (w : world) (comps : list ExportedComponent) :
  let r := writeComponentsToApp comps in
  (exists report,
      existsSync w (compDir w) = false /\
      mkdirSync w (compDir w) = Throws report /\
      generate w comps = {| events := [Uncaught report]; exit_code := 1 |}) \/
  (mkdir_ok w /\
   exists pre f post report,
     written r = pre ++ f :: post /\ writes_ok w pre /\
     writeFileSync w (compDir w ++ js "/" ++ filename f) (content f) =
     Throws report /\
     generate w comps =
     {| events := mkdir_events w ++ write_log w pre ++ [Uncaught report];
        exit_code := 1 |}) \/
  (mkdir_ok w /\ written r = [] /\ files r = [] /\
   generate w comps =
   {| events := mkdir_events w ++ [ConsoleError no_template_msg];
      exit_code := 1 |}) \/
  (mkdir_ok w /\ writes_ok w (written r) /\ files r <> [] /\
   exists report,
     writeFileSync w (appVuePath w) (root_app basename (files r)) =
     Throws report /\
     generate w comps =
     {| events := mkdir_events w ++ write_log w (written r) ++
                  [Uncaught report];
        exit_code := 1 |}) \/
  (mkdir_ok w /\ writes_ok w (written r) /\ files r <> [] /\
   ~ throws (writeFileSync w (appVuePath w) (root_app basename (files r))) /\
   generate w comps =
   {| events := mkdir_events w ++ write_log w (written r) ++
                root_log basename w (files r) ++ done_messages;
      exit_code := 0 |}).
Proof.
  cbv zeta. unfold writeComponentsToApp_fs.
  destruct (safeMkdir_cases w) as [[Em Hm]|(report & Hx & Hm & Em)].
  2:{ left. exists report. split; [exact Hx|]. split; [exact Hm|].
      rewrite Em. by run_proc. }
  right.
  destruct (write_events_cases w (written (writeComponentsToApp comps)))
    as [[Ew Hw]|(pre & f & post & report & E & Hpre & Hf & Ew)].
  2:{ left. split; [exact Hm|]. exists pre, f, post, report.
      split; [exact E|]. split; [exact Hpre|]. split; [exact Hf|].
      rewrite Em, Ew. by run_proc. }
  right. rewrite Em, Ew.
  destruct (files (writeComponentsToApp comps)) as [|f0 fs0] eqn:Ef.
  - left. pose proof (no_files_nothing_written _ Ef) as Hwr.
    split; [exact Hm|]. split; [exact Hwr|]. split; [reflexivity|].
    rewrite Hwr. run_proc. cbn [write_log flat_map]. by rewrite ?app_nil_r.
  - right. unfold updateAppVue. run_proc.
    destruct (writeFileSync w (appVuePath w) (root_app basename (f0 :: fs0)))
      as [[]|report] eqn:Er; cbn [fst snd].
    + right. split; [exact Hm|]. split; [exact Hw|]. split; [done|].
      split; [by intros [? ?]|].
      unfold root_log. f_equal.
      rewrite ?app_nil_r, <- ?app_assoc. reflexivity.
    + left. split; [exact Hm|]. split; [exact Hw|]. split; [done|].
      exists report. split; [reflexivity|].
      f_equal. rewrite ?app_nil_r, <- ?app_assoc. reflexivity.
Qed.

Lemma main_cases (w : world) :
  (existsSync w (inputFile w) = false /\
   main toLowerCase basename w =
   {| events := [ConsoleError (js "Input file not found: " ++ inputFile w)];
      exit_code := 1 |}) \/
  (existsSync w (inputFile w) = true /\
   existsSync w (targetApp w) = false /\
   main toLowerCase basename w =
   {| events :=
        [ConsoleError (js "Target my-vue-app not found at " ++ targetApp w)];
      exit_code := 1 |}) \/
  (existsSync w (inputFile w) = true /\
   existsSync w (targetApp w) = true /\
   exists report,
     readFileSync w (inputFile w) = Throws report /\
     main toLowerCase basename w =
     {| events := [Uncaught report]; exit_code := 1 |}) \/
  (existsSync w (inputFile w) = true /\
   existsSync w (targetApp w) = true /\
   exists content,
     readFileSync w (inputFile w) = Ok content /\
     parseBlocks toLowerCase content = [] /\
     main toLowerCase basename w =
     {| events := [ConsoleError (js "No components found in input file")];
        exit_code := 1 |}) \/
  (existsSync w (inputFile w) = true /\
   existsSync w (targetApp w) = true /\
   exists content,
     readFileSync w (inputFile w) = Ok content /\
     parseBlocks toLowerCase content <> [] /\
     main toLowerCase basename w =
     generate w (parseBlocks toLowerCase content)).
Proof.
  unfold main.
  destruct (existsSync w (inputFile w)) eqn:Hin.
  2:{ left. split; [done|]. by run_proc. }
  right. destruct (existsSync w (targetApp w)) eqn:Htgt.
  2:{ left. split; [done|]. split; [done|]. by run_proc. }
  right. destruct (readFileSync w (inputFile w)) as [content|report] eqn:Hr.
  2:{ left. split; [done|]. split; [done|]. exists report.
      split; [done|]. by run_proc. }
  right. destruct (parseBlocks toLowerCase content) as [|c0 comps] eqn:Hp.
  - left. split; [done|]. split; [done|]. exists content.
    split; [done|]. split; [done|]. run_proc. rewrite Hp. by run_proc.
  - right. split; [done|]. split; [done|]. exists content.
    split; [done|]. split; [by rewrite Hp|]. run_proc. rewrite Hp.
    run_proc. reflexivity.
Qed.

Lemma generate_exit (w : world) (comps : list ExportedComponent) :
  let r := generate w comps in
  (exit_code r = 1%nat <->
   Forall (fun c => ~ usable_template c) comps \/
   (existsSync w (compDir w) = false /\ throws (mkdirSync w (compDir w))) \/
   Exists (fun f => throws (writeFileSync w (compDir w ++ js "/" ++ filename f)
                                          (content f)))
          (written (writeComponentsToApp comps)) \/
   throws (writeFileSync w (appVuePath w)
             (root_app basename (files (writeComponentsToApp comps))))) /\
  (exit_code r = 1%nat ->
   exists msg, stderr (events r) = [msg] /\
               (last (events r) = Some (ConsoleError msg) \/
                last (events r) = Some (Uncaught msg))) /\
  (exit_code r = 1%nat \/ exit_code r = 0%nat /\ stderr (events r) = []).
Proof.
  cbv zeta.
  destruct (mkdir_events_quiet w) as [Hq1 Hq2].
  destruct (generate_cases w comps)
    as [(report & Hx & Hm & ->)
       |[(Hm & pre & f & post & report & E & Hpre & Hf & ->)
        |[(Hm & Hwr & Hfi & ->)
         |[(Hm & Hw & Hfi & report & Hr & ->)
          |(Hm & Hw & Hfi & Hr & ->)]]]]; cbn [exit_code events].
  - split; [|split; [|by left]].
    + split; [intros _|done]. right. left. split; [done|by exists report].
    + intros _. exists report. split; [done|by right].
  - split; [|split; [|by left]].
    + split; [intros _|done]. right. right. left. rewrite E.
      apply Exists_app. right. apply Exists_cons_hd. by exists report.
    + intros _. exists report. split.
      * by rewrite !stderr_app, Hq2, write_log_stderr.
      * right. rewrite app_assoc. apply last_snoc.
  - split; [|split; [|by left]].
    + split; [intros _|done]. left. by apply no_files_iff_no_template.
    + intros _. eexists. split.
      * by rewrite stderr_app, Hq2.
      * left. apply last_snoc.
  - split; [|split; [|by left]].
    + split; [intros _|done]. right. right. right. by exists report.
    + intros _. exists report. split.
      * by rewrite !stderr_app, Hq2, write_log_stderr.
      * right. rewrite app_assoc. apply last_snoc.
  - split; [|split].
    + split; [done|]. intros [H|[[H1 H2]|[H|H]]].
      * apply no_files_iff_no_template in H. done.
      * destruct Hm as [Hm|Hm]; [congruence|done].
      * exfalso. apply Exists_exists in H as (f & Hin & Hf).
        by apply (proj1 (Forall_forall _ _) Hw f Hin).
      * done.
    + done.
    + right. split; [done|].
      by rewrite !stderr_app, Hq2, write_log_stderr.
Qed.

End MainLemmas.

Lemma first_throw_unique (w : world)
      (pre : list SynthesizedFile) (f : SynthesizedFile)
      (post pre' : list SynthesizedFile) (f' : SynthesizedFile)
      (post' : list SynthesizedFile) :
  pre ++ f :: post = pre' ++ f' :: post' ->
  writes_ok w pre -> writes_ok w pre' ->
  throws (writeFileSync w (compDir w ++ js "/" ++ filename f) (content f)) ->
  throws (writeFileSync w (compDir w ++ js "/" ++ filename f') (content f')) ->
  pre = pre' /\ f = f' /\ post = post'.
Proof.
  revert pre'. induction pre as [|x pre IH]; intros [|y pre'] E H1 H2 Hf Hf'.
  - by injection E as -> ->.
  - injection E as -> _. apply Forall_cons in H2 as [H2 _]. by destruct H2.
  - injection E as -> _. apply Forall_cons in H1 as [H1 _]. by destruct H1.
  - injection E as -> E. apply Forall_cons in H1 as [_ H1].
    apply Forall_cons in H2 as [_ H2].
    destruct (IH pre' E H1 H2 Hf Hf') as (-> & -> & ->). done.
Qed.

(** C7 (amended). A run of the Importer exits with code 1 exactly when
    the input file is missing, or the target directory is missing, or
    no component is parsed, or no component has a usable template
    section, or a call of the file system throws: the reading of the
    input, the creation of the component directory, the writing of a
    component file or of the root file. Every such run writes exactly
    one message on standard error, the message of the check or the
    report of the exception, as its last event; a run with exit code 0
    writes nothing there. In the two empty-result cases no file has
    been written; when a write throws, the files written before it
    stay. *)
Theorem exit_code_1_situations
        (toLowerCase : str -> str) (basename : str -> str -> str)
        (w : world) :
  let r := main toLowerCase basename w in
  (exit_code r = 1%nat <->
   existsSync w (inputFile w) = false \/
   existsSync w (targetApp w) = false \/
   throws (readFileSync w (inputFile w)) \/
   exists text,
     readFileSync w (inputFile w) = Ok text /\
     (parseBlocks toLowerCase text = [] \/
      Forall (fun c => ~ usable_template c)
             (parseBlocks toLowerCase text) \/
      (existsSync w (compDir w) = false /\
       throws (mkdirSync w (compDir w))) \/
      Exists (fun f => throws (writeFileSync w
                                 (compDir w ++ js "/" ++ filename f)
                                 (content f)))
             (written (writeComponentsToApp
                         (parseBlocks toLowerCase text))) \/
      throws (writeFileSync w (appVuePath w)
                (root_app basename
                   (files (writeComponentsToApp
                             (parseBlocks toLowerCase text))))))) /\
  (exit_code r = 1%nat ->
   exists msg, stderr (events r) = [msg] /\
               (last (events r) = Some (ConsoleError msg) \/
                last (events r) = Some (Uncaught msg))) /\
  (exit_code r = 1%nat \/ exit_code r = 0%nat /\ stderr (events r) = []) /\
  (existsSync w (inputFile w) = false ->
   events r = [ConsoleError (js "Input file not found: " ++ inputFile w)]) /\
  (existsSync w (inputFile w) = true ->
   existsSync w (targetApp w) = false ->
   events r =
   [ConsoleError (js "Target my-vue-app not found at " ++ targetApp w)]) /\
  (forall text,
      existsSync w (inputFile w) = true ->
      existsSync w (targetApp w) = true ->
      readFileSync w (inputFile w) = Ok text ->
      parseBlocks toLowerCase text = [] ->
      events r = [ConsoleError (js "No components found in input file")]) /\
  (forall text,
      existsSync w (inputFile w) = true ->
      existsSync w (targetApp w) = true ->
      readFileSync w (inputFile w) = Ok text ->
      parseBlocks toLowerCase text <> [] ->
      Forall (fun c => ~ usable_template c)
             (parseBlocks toLowerCase text) ->
      file_writes (events r) = [] /\
      (mkdir_ok w ->
       events r =
       mkdir_events w ++
       [ConsoleError
          (js "No components with Vue template sections were generated")])) /\
  (forall report,
      existsSync w (inputFile w) = true ->
      existsSync w (targetApp w) = true ->
      readFileSync w (inputFile w) = Throws report ->
      events r = [Uncaught report] /\ exit_code r = 1%nat) /\
  (forall text pre f post report,
      existsSync w (inputFile w) = true ->
      existsSync w (targetApp w) = true ->
      readFileSync w (inputFile w) = Ok text ->
      mkdir_ok w ->
      written (writeComponentsToApp (parseBlocks toLowerCase text)) =
      pre ++ f :: post ->
      writes_ok w pre ->
      writeFileSync w (compDir w ++ js "/" ++ filename f) (content f) =
      Throws report ->
      exit_code r = 1%nat /\
      events r = mkdir_events w ++ write_log w pre ++ [Uncaught report] /\
      file_writes (events r) =
      List.map (fun f => (compDir w ++ js "/" ++ filename f, content f)) pre).
Proof.
  cbv zeta.
  destruct (main_cases toLowerCase basename w)
    as [(Hin & ->)
       |[(Hin & Htgt & ->)
        |[(Hin & Htgt & report & Hr & ->)
         |[(Hin & Htgt & text & Hr & Hp & ->)
          |(Hin & Htgt & text & Hr & Hp & ->)]]]].
  - cbn [exit_code events]. repeat split; intros; try congruence; try done.
    + by left.
    + eexists. split; [done|by left].
    + by left.
  - cbn [exit_code events]. repeat split; intros; try congruence; try done.
    + right. by left.
    + eexists. split; [done|by left].
    + by left.
  - cbn [exit_code events]. repeat split; intros; try congruence; try done.
    + right. right. left. by exists report.
    + eexists. split; [done|by right].
    + by left.
  - cbn [exit_code events]. repeat split; intros; try congruence; try done.
    + right. right. right. exists text. split; [done|by left].
    + eexists. split; [done|by left].
    + by left.
    + replace text0 with text in * by congruence.
      match goal with
      | H : written _ = ?p ++ _ :: _ |- _ => rewrite Hp in H; by destruct p
      end.
    + replace text0 with text in * by congruence.
      match goal with
      | H : written _ = ?p ++ _ :: _ |- _ => rewrite Hp in H; by destruct p
      end.
  - destruct (generate_exit basename w
                (parseBlocks toLowerCase text)) as (G1 & G2 & G3).
    cbv zeta in G1, G2, G3.
    split; [|split; [exact G2|split; [exact G3|]]].
    + rewrite G1. split.
      * intros H. right. right. right. exists text. split; [done|].
        right. exact H.
      * intros [H|[H|[[report H]|(text' & Hc & H)]]]; try congruence.
        replace text' with text in * by congruence.
        destruct H as [H|H]; [done|exact H].
    + split; [intros; congruence|]. split; [intros; congruence|].
      split; [intros text' ? ? Hc ?; congruence|].
      split; [|split; [intros; congruence|]].
      * intros text' _ _ Hc _ Hno.
        replace text' with text in * by congruence.
        apply no_files_iff_no_template in Hno.
        destruct (mkdir_events_quiet w) as [Hq1 Hq2].
        destruct (generate_cases basename w
                    (parseBlocks toLowerCase text))
          as [(report & Hx & Hm & ->)
             |[(Hm & pre & f & post & report & E & Hpre & Hf & ->)
              |[(Hm & Hwr & Hfi & ->)
               |[(Hm & Hw & Hfi & report & Hrr & ->)
                |(Hm & Hw & Hfi & Hrr & ->)]]]]; cbn [exit_code events].
        -- split; [done|]. intros [Hk|Hk]; [congruence|].
           destruct Hk. by exists report.
        -- rewrite (no_files_nothing_written _ Hno) in E. by destruct pre.
        -- split; [by rewrite file_writes_app, Hq1|done].
        -- done.
        -- done.
      * intros text' pre f post report _ _ Hc Hmk E Hpre Hf.
        replace text' with text in * by congruence.
        destruct (mkdir_events_quiet w) as [Hq1 Hq2].
        destruct (generate_cases basename w
                    (parseBlocks toLowerCase text))
          as [(report' & Hx & Hm & ->)
             |[(Hm & pre' & f' & post' & report' & E' & Hpre' & Hf' & ->)
              |[(Hm & Hwr & Hfi & ->)
               |[(Hm & Hw & Hfi & report' & Hrr & ->)
                |(Hm & Hw & Hfi & Hrr & ->)]]]]; cbn [exit_code events].
        -- exfalso. destruct Hmk as [Hk|Hk]; [congruence|].
           destruct Hk. by exists report'.
        -- assert (pre = pre' /\ f = f' /\ post = post') as (-> & -> & ->).
           { apply (first_throw_unique w); [congruence|done|done| |].
             - by exists report.
             - by exists report'. }
           replace report' with report by congruence.
           split; [done|]. split; [done|].
           by rewrite !file_writes_app, Hq1, write_log_writes, app_nil_r.
        -- rewrite Hwr in E. by destruct pre.
        -- exfalso. rewrite E in Hw. apply Forall_app in Hw as [_ Hw].
           apply Forall_cons in Hw as [Hw _]. destruct Hw. by exists report.
        -- exfalso. rewrite E in Hw. apply Forall_app in Hw as [_ Hw].
           apply Forall_cons in Hw as [Hw _]. destruct Hw. by exists report.
Qed.

(** An instance of C7: the end-to-end example of the specification, a
    component whose only section is tagged [html]. *)
Lemma exit_code_1_situations_witness :
  readFileSync demo_world (inputFile demo_world) = Ok demo_html_input /\
  parseBlocks ascii_toLowerCase demo_html_input = [demo_html] /\
  exit_code (main ascii_toLowerCase demo_basename demo_world) = 1%nat /\
  events (main ascii_toLowerCase demo_basename demo_world) =
  [ConsoleError
     (js "No components with Vue template sections were generated")].
Proof.
  split; [reflexivity|]. split; [vm_compute; reflexivity|].
  pose proof (exit_code_1_situations ascii_toLowerCase demo_basename
                demo_world) as H.
  cbv zeta in H. destruct H as (H1 & _ & _ & _ & _ & _ & H7 & _).
  assert (Hno : Forall (fun c => ~ usable_template c)
                       (parseBlocks ascii_toLowerCase demo_html_input)).
  { replace (parseBlocks ascii_toLowerCase demo_html_input)
      with [demo_html] by (vm_compute; reflexivity).
    constructor; [|constructor]. intros Hu.
    apply has_template_usable in Hu. discriminate Hu. }
  split.
  - apply H1. right. right. right. exists demo_html_input.
    split; [reflexivity|]. right. left. exact Hno.
  - assert (Hne : parseBlocks ascii_toLowerCase demo_html_input <> [])
      by (vm_compute; discriminate).
    destruct (H7 demo_html_input eq_refl eq_refl eq_refl Hne Hno) as [_ H].
    apply H. by left.
Defined.

(** C7, as stated, misses the runs that an exception of the file system
    ends: the input path exists and is a directory, so that none of the
    four checks fires, and the process still ends with exit code 1 and
    a report on standard error; and when a later write throws, the
    files written before it stay. *)
Lemma uncaught_exception_is_a_fifth_situation :
  existsSync demo_dir_world (inputFile demo_dir_world) = true /\
  existsSync demo_dir_world (targetApp demo_dir_world) = true /\
  readFileSync demo_dir_world (inputFile demo_dir_world) =
  Throws (js "Error: EISDIR: illegal operation on a directory, read") /\
  exit_code (main ascii_toLowerCase demo_basename demo_dir_world) = 1%nat /\
  events (main ascii_toLowerCase demo_basename demo_dir_world) =
  [Uncaught (js "Error: EISDIR: illegal operation on a directory, read")] /\
  exit_code (main ascii_toLowerCase demo_basename demo_full_world) = 1%nat /\
  List.map fst
    (file_writes (events (main ascii_toLowerCase demo_basename
                            demo_full_world))) =
  [js "/work/my-vue-app/src/components/Foo.vue"] /\
  stderr (events (main ascii_toLowerCase demo_basename demo_full_world)) =
  [js "Error: ENOSPC: no space left on device, write"].
Proof. repeat split; vm_compute; reflexivity. Qed.

(** ** Identifiers *)

Lemma forallb_rev (p : N -> bool) (s : str) :
  forallb p s = true -> forallb p (rev s) = true.
Proof.
  rewrite !forallb_forall. intros H c Hc. apply H. by apply in_rev.
Qed.

(** [trim] removes the white space around a text that has none. *)
Lemma trim_padded (a x b : str) :
  forallb is_space a = true -> forallb is_space b = true ->
  Forall (fun c => is_space c = false) x ->
  trim (a ++ x ++ b) = x.
Proof.
  intros Ha Hb Hx. unfold trim, trimStart, trimEnd.
  rewrite drop_while_app, Ha. destruct Hx as [|c x Hc Hx].
  - cbn [app]. by rewrite (drop_while_all _ _ Hb).
  - cbn [app drop_while]. rewrite Hc.
    change (c :: x ++ b) with ((c :: x) ++ b).
    rewrite rev_app_distr, drop_while_app, (forallb_rev _ _ Hb).
    rewrite drop_while_none; [apply rev_involutive|].
    apply Forall_rev. by constructor.
Qed.

Lemma filter_none (p : N -> bool) (s : str) :
  Forall (fun c => p c = false) s -> List.filter p s = [].
Proof. induction 1 as [|c s Hc _ IH]; simpl; [done|]. by rewrite Hc. Qed.

Lemma forallb_repeat (p : N -> bool) (c : N) (n : nat) :
  p c = true -> forallb p (repeat c n) = true.
Proof. intros H. induction n as [|n IH]; simpl; [done|]. by rewrite H. Qed.

Lemma Forall_repeat (P : N -> Prop) (c : N) (n : nat) :
  P c -> Forall P (repeat c n).
Proof. intros H. induction n; simpl; by constructor. Qed.

Lemma nameBase_hyphens (c : ExportedComponent) (idx a n b : nat) :
  name c = repeat Ch.SP a ++ repeat Ch.HYPHEN (S n) ++ repeat Ch.SP b ->
  nameBase c idx = repeat Ch.HYPHEN (S n).
Proof.
  intros E. unfold nameBase.
  replace (or_else (name c) _) with (name c).
  2: { rewrite E. destruct a; reflexivity. }
  unfold sanitizeName. rewrite E, filter_all.
  2: { rewrite !Forall_app. repeat split; by apply Forall_repeat. }
  rewrite trim_padded;
    [|by apply forallb_repeat|by apply forallb_repeat|by apply Forall_repeat].
  rewrite collapse_no_space by (by apply Forall_repeat). reflexivity.
Qed.

(** C10 (amended). The file name of a synthesized component is its
    identifier followed by [.vue], and the identifier has characters of
    [[A-Za-z0-9_]] only. For a raw name made of hyphens, one at least,
    with spaces around them only, the identifier is empty: the file name
    is [.vue] and the fallback script, used when there is neither a
    script candidate nor a style candidate, exports the empty name. *)
Theorem filename_is_identifier_dot_vue :
  (forall c idx,
      filename (buildSFC c idx) = compName c idx ++ js ".vue" /\
      Forall (fun ch => is_ident_char ch = true) (compName c idx)) /\
  (forall c idx a n b,
      name c = repeat Ch.SP a ++ repeat Ch.HYPHEN (S n) ++ repeat Ch.SP b ->
      compName c idx = [] /\
      filename (buildSFC c idx) = js ".vue" /\
      let p := classify_all (sections c) in
      (jsParts p = [] -> cssParts p = [] ->
       content (buildSFC c idx) =
       header_comment (name c) ++ nl ++
       js "<template>" ++ nl ++ initial_template c p ++ nl ++
       js "</template>" ++ nl ++ nl ++
       (js "<script>" ++ nl ++ js "export default { name: '' }" ++ nl ++
        js "</script>" ++ nl) ++
       nl)).
Proof.
  split.
  - intros c idx. split; [reflexivity|apply compName_ident].
  - intros c idx a n b E.
    assert (compName c idx = []) as Hn.
    { unfold compName. rewrite (nameBase_hyphens c idx a n b E).
      apply filter_none. by apply Forall_repeat. }
    split; [exact Hn|]. split.
    + unfold buildSFC. cbn [filename]. by rewrite Hn.
    + intros p Hj Hc. unfold buildSFC. fold p. unfold resolve_script.
      rewrite Hj, Hc, Hn. cbn [scriptSetup template styleParts].
      cbn [script_block style_block]. by rewrite app_nil_r.
Qed.

(** An instance of C10: the name made of three hyphens between two
    spaces. *)
Lemma filename_is_identifier_dot_vue_witness :
  compName {| name := js " --- "; sections := [] |} 0 = [] /\
  filename (buildSFC {| name := js " --- "; sections := [] |} 0) = js ".vue" /\
  content (buildSFC {| name := js " --- "; sections := [] |} 0) =
  js "<!-- Generated from Figma export:  ---  -->" ++ nl ++
  js "<template>" ++ nl ++ nl ++
  js "<div class=" ++ dq ++ js "generated-root" ++ dq ++ js ">" ++ nl ++
  js "  <!-- generated component:  ---  -->" ++ nl ++
  js "  <div> --- </div>" ++ nl ++
  js "</div>" ++ nl ++ nl ++
  js "</template>" ++ nl ++ nl ++
  js "<script>" ++ nl ++ js "export default { name: '' }" ++ nl ++
  js "</script>" ++ nl ++ nl.
Proof.
  destruct (proj2 filename_is_identifier_dot_vue
              {| name := js " --- "; sections := [] |} 0%nat 1%nat 2%nat 1%nat
              eq_refl) as (H1 & H2 & H3).
  split; [exact H1|]. split; [exact H2|]. exact (H3 eq_refl eq_refl).
Defined.

(** C10, as stated, fails for the name [- -]: the white space between
    the hyphens becomes an underscore, the identifier is [_], the file
    name [_.vue] and the exported name ['_']. *)
Lemma hyphen_space_hyphen_is_underscore :
  compName {| name := js "- -"; sections := [] |} 0 = js "_" /\
  filename (buildSFC {| name := js "- -"; sections := [] |} 0) = js "_.vue" /\
  filename (buildSFC {| name := js "- -"; sections := [] |} 0) <> js ".vue" /\
  script_block [] (compName {| name := js "- -"; sections := [] |} 0) =
  js "<script>" ++ nl ++ js "export default { name: '_' }" ++ nl ++
  js "</script>" ++ nl.
Proof. repeat split; try (vm_compute; reflexivity). vm_compute. discriminate. Qed.

(** ** Round trip of the interchange format *)

(** The code read back is never the code of the block. *)
Lemma imported_code_differs (toLowerCase : str -> str)
      (b : Exporter.CodeBlock) :
  code (imported_section toLowerCase b) <> Exporter.code b.
Proof.
  unfold imported_section. cbn [code]. rewrite split_lines.
  induction (Exporter.code b) as [|c s IH]; [done|].
  intros E. injection E as <- E. apply IH. exact E.
Qed.

(** C9 (amended). When the name (or id) of every child with a design
    component, and the title (or name) and the language tag of each of
    its blocks, have neither tab nor line terminator, no tag has an
    opening parenthesis, no line of a block's code reads as a header
    line and no code ends with a carriage return, then parsing the
    Exporter's text gives exactly one ExportedComponent per such child,
    in order: its name is the child's name (or id) trimmed, its sections
    have the trimmed titles and the trimmed, lowercased tags of the
    child's blocks in order, and the code of each section is an empty
    line, the lines of the block's code and two more empty lines, each
    followed by a line feed, which is never the code of the block. *)
Theorem importer_reads_exporter_text
        (toLowerCase : str -> str) (children : list Exporter.node)
        (text : str) :
  Exporter.downloadAllFromFrame children = Some text ->
  forallb wf_child (List.filter Exporter.has_component children) = true ->
  parseBlocks toLowerCase text =
  List.map (imported_component toLowerCase)
           (List.filter Exporter.has_component children) /\
  (forall b, code (imported_section toLowerCase b) =
             nl ++
             flat_map (fun raw => raw ++ nl)
                      (split lineBreakRe (Exporter.code b)) ++
             nl ++ nl) /\
  (forall b, code (imported_section toLowerCase b) <> Exporter.code b).
Proof.
  intros Ht Hwf. split; [by apply parse_download|].
  split; [reflexivity|apply imported_code_differs].
Qed.

(** An instance of C9: the text of a frame with two children, one of
    them without design component, and what is parsed. *)
Lemma importer_reads_exporter_text_witness :
  Exporter.downloadAllFromFrame demo_frame =
  Some (js "// ===== Component: Primary Button =====" ++ nl ++ nl ++
        js "// ---- Style (CSS) ----" ++ nl ++ nl ++
        js "color: red;" ++ nl ++ js "width: 4px;" ++ nl ++ nl ++ nl ++
        js "// ---- component (vue) ----" ++ nl ++ nl ++
        js "<UButton />" ++ nl ++ nl) /\
  forallb wf_child (List.filter Exporter.has_component demo_frame) = true /\
  parseBlocks ascii_toLowerCase
    (js "// ===== Component: Primary Button =====" ++ nl ++ nl ++
     js "// ---- Style (CSS) ----" ++ nl ++ nl ++
     js "color: red;" ++ nl ++ js "width: 4px;" ++ nl ++ nl ++ nl ++
     js "// ---- component (vue) ----" ++ nl ++ nl ++
     js "<UButton />" ++ nl ++ nl) =
  [ {| name := js "Primary Button";
       sections :=
         [ {| title := js "Style"; lang := js "css";
              code := nl ++ js "color: red;" ++ nl ++ js "width: 4px;" ++ nl ++
                      nl ++ nl |};
           {| title := js "component"; lang := js "vue";
              code := nl ++ js "<UButton />" ++ nl ++ nl ++ nl |} ] |} ].
Proof.
  split; [reflexivity|]. split; [vm_compute; reflexivity|].
  exact (proj1 (importer_reads_exporter_text
                  ascii_toLowerCase demo_frame _ eq_refl eq_refl)).
Defined.

(** C9, as stated, fails for a child whose code holds a line that reads
    as a component header: the text parses to two components, and the
    section of the first one has lost the line. *)
Lemma header_line_in_code_splits_component :
  Exporter.downloadAllFromFrame demo_header_in_code =
  Some (js "// ===== Component: A =====" ++ nl ++ nl ++
        js "// ---- T (js) ----" ++ nl ++ nl ++
        js "// ===== Component: B =====" ++ nl ++ nl) /\
  parseBlocks ascii_toLowerCase
    (js "// ===== Component: A =====" ++ nl ++ nl ++
     js "// ---- T (js) ----" ++ nl ++ nl ++
     js "// ===== Component: B =====" ++ nl ++ nl) =
  [ {| name := js "A";
       sections := [ {| title := js "T"; lang := js "js"; code := nl |} ] |};
    {| name := js "B"; sections := [] |} ].
Proof. split; vm_compute; reflexivity. Qed.

(** ** Further properties of the Importer *)

(** *** [sanitizeName] *)

Lemma drop_while_suffix_Forall (P : N -> Prop) p (s : str) :
  Forall P s -> Forall P (drop_while p s).
Proof.
  induction 1 as [|c s Hc H IH]; simpl; [constructor|].
  destruct (p c); [exact IH|by constructor].
Qed.

Lemma trim_Forall (P : N -> Prop) (s : str) :
  Forall P s -> Forall P (trim s).
Proof.
  intros H. unfold trim, trimEnd, trimStart.
  apply Forall_rev, drop_while_suffix_Forall, Forall_rev.
  by apply drop_while_suffix_Forall.
Qed.

Lemma collapse_spaces_chars (P : N -> Prop) (s : str) : forall b,
  P Ch.UNDERSCORE ->
  Forall (fun c => is_space c = false -> P c) s ->
  Forall P (collapse_spaces b s).
Proof.
  intros b HU H. revert b.
  induction H as [|c s Hc H IH]; intros b; simpl; [constructor|].
  destruct (is_space c) eqn:E.
  - destruct b; [apply IH|constructor; [exact HU|apply IH]].
  - constructor; [by apply Hc|apply IH].
Qed.

Lemma sanitizeName_chars (n : str) :
  sanitizeName n <> [] /\
  Forall (fun c => is_name_char c = true /\ is_space c = false)
         (sanitizeName n).
Proof.
  unfold sanitizeName.
  assert (H : Forall (fun c => is_name_char c = true /\ is_space c = false)
                (collapse_spaces false (trim (List.filter is_name_char n)))).
  { apply collapse_spaces_chars; [done|].
    apply trim_Forall.
    eapply Forall_impl; [apply filter_Forall|]. by intros c Hc Hs. }
  destruct (collapse_spaces false (trim (List.filter is_name_char n)));
    simpl; [split; [done|]|split; [done|exact H]].
  apply (bool_decide_unpack _). vm_compute. exact I.
Qed.

Lemma safe_char_spec (c : N) :
  is_name_char c = true /\ is_space c = false <->
  is_ident_char c || (c =? Ch.HYPHEN) = true.
Proof.
  unfold is_name_char, is_ident_char, is_space, is_lower, is_upper, is_digit,
    in_range, Ch.HYPHEN, Ch.UNDERSCORE, Ch.SP.
  split.
  - intros [H1 H2].
    assert (Hsp : c <> 32).
    { intros E. rewrite E in H2. discriminate H2. }
    clear H2. rewrite !orb_true_iff in *. rewrite !andb_true_iff in *.
    rewrite !N.eqb_eq in *. tauto.
  - intros H. split.
    + rewrite !orb_true_iff in *. rewrite !andb_true_iff in *.
      rewrite !N.eqb_eq in *. tauto.
    + rewrite !orb_true_iff, !andb_true_iff, !N.leb_le, !N.eqb_eq in H.
      rewrite !orb_false_iff, !andb_false_iff, !N.leb_gt, !N.eqb_neq. lia.
Qed.

(** X1. Whatever the name, [sanitizeName] returns a non-empty string made
    of ASCII letters, digits, underscores and hyphens only: no white
    space, no path separator and no dot survives. *)
Theorem sanitizeName_is_file_safe (n : str) :
  sanitizeName n <> [] /\
  Forall (fun c => is_ident_char c || (c =? Ch.HYPHEN) = true)
         (sanitizeName n).
Proof.
  destruct (sanitizeName_chars n) as [H1 H2]. split; [exact H1|].
  eapply Forall_impl; [exact H2|]. intros c. apply safe_char_spec.
Qed.

(** X2. [sanitizeName] is idempotent: a sanitized name is left as it
    is. *)
Theorem sanitizeName_idempotent (n : str) :
  sanitizeName (sanitizeName n) = sanitizeName n.
Proof.
  destruct (sanitizeName_chars n) as [H1 H2].
  apply sanitizeName_clean; [| |exact H1].
  - eapply Forall_impl; [exact H2|]. by intros c [? _].
  - eapply Forall_impl; [exact H2|]. by intros c [_ ?].
Qed.

(** *** [parseBlocks] *)



Lemma trimEnd_head (t : str) :
  head (List.map is_space t) <> Some true ->
  head (List.map is_space (trimEnd t)) <> Some true.
Proof.
  destruct t as [|c t]; [done|]. intros H. unfold trimEnd.
  cbn [rev]. rewrite drop_while_app.
  destruct (forallb is_space (rev t)).
  - cbn [drop_while]. cbn [map head] in H.
    destruct (is_space c) eqn:E; [done|]. cbn [rev app map head].
    by rewrite E.
  - rewrite rev_app_distr. exact H.
Qed.

Lemma trim_idemp (s : str) : trim (trim s) = trim s.
Proof.
  apply trim_id.
  - apply trimEnd_head, drop_while_head.
  - unfold trim, trimEnd. rewrite rev_involutive. apply drop_while_head.
Qed.

Lemma plain_not_comp_header (l : str) :
  is_plain l = true -> is_comp_header l = false.
Proof.
  unfold is_plain, is_comp_header. intros H. apply andb_prop in H as [H _].
  apply bool_decide_eq_true in H. rewrite H. by apply bool_decide_eq_false_2; intros [? ?].
Qed.

Lemma filter_plain (ls : list str) :
  forallb is_plain ls = true -> List.filter is_comp_header ls = [].
Proof.
  induction ls as [|l ls IH]; simpl; [done|]. intros H.
  apply andb_prop in H as [H1 H2]. by rewrite (plain_not_comp_header _ H1), IH.
Qed.

Lemma filter_no_header (ls : list str) :
  forallb (fun l => negb (is_comp_header l)) ls = true ->
  List.filter is_comp_header ls = [].
Proof.
  induction ls as [|l ls IH]; simpl; [done|]. intros H.
  apply andb_prop in H as [H1 H2]. apply negb_true_iff in H1.
  by rewrite H1, IH.
Qed.

Lemma filter_sections (ss : list SecSpan) :
  forallb wf_sec ss = true ->
  List.filter is_comp_header (flat_map sec_lines ss) = [].
Proof.
  induction ss as [|s ss IH]; simpl; [done|]. intros H.
  apply andb_prop in H as [H1 H2]. unfold wf_sec, is_sec_header in H1.
  apply andb_prop in H1 as [H1 H3]. apply andb_prop in H1 as [H1 _].
  apply negb_true_iff in H1. rewrite H1.
  by rewrite List.filter_app, (filter_plain _ H3), IH.
Qed.

Lemma filter_layout (spans : list CompSpan) :
  forallb wf_comp spans = true ->
  List.filter is_comp_header (flat_map comp_lines spans) =
  List.map comp_header spans.
Proof.
  induction spans as [|c spans IH]; simpl; [done|]. intros H.
  apply andb_prop in H as [H1 H2]. unfold wf_comp in H1.
  apply andb_prop in H1 as [H1 H4]. apply andb_prop in H1 as [H1 H3].
  rewrite H1, !List.filter_app, (filter_plain _ H3), (filter_sections _ H4), IH.
  done. done.
Qed.

Lemma headers_of_layout pre spans :
  wf_layout pre spans = true ->
  List.filter is_comp_header (layout_lines pre spans) =
  List.map comp_header spans.
Proof.
  unfold wf_layout, layout_lines. intros H. apply andb_prop in H as [H1 H2].
  by rewrite List.filter_app, (filter_no_header _ H1), filter_layout.
Qed.

Section ParserLemmas.
Variable toLowerCase : str -> str.

Lemma parse_lines_names (ls : list str) :
  List.map name (parse_lines toLowerCase ls) =
  List.map header_name (List.filter is_comp_header ls).
Proof.
  destruct (layout_complete ls) as (pre & spans & -> & H).
  rewrite parse_lines_layout, headers_of_layout by done.
  rewrite !List.map_map. done.
Qed.

Lemma parse_lines_trimmed (ls : list str) :
  Forall (fun c => trim (name c) = name c /\
                   Forall (fun s => trim (title s) = title s) (sections c))
         (parse_lines toLowerCase ls).
Proof.
  destruct (layout_complete ls) as (pre & spans & -> & H).
  rewrite parse_lines_layout by done.
  apply Forall_forall. intros c Hc. apply list_elem_of_In, in_map_iff in Hc.
  destruct Hc as (sp & <- & _). split; [apply trim_idemp|].
  apply Forall_forall. intros s Hs. apply list_elem_of_In, in_map_iff in Hs.
  destruct Hs as (ss & <- & _). apply trim_idemp.
Qed.

End ParserLemmas.

Lemma lines_of_to_crlf (s : str) :
  Forall (fun c => c <> Ch.CR) s -> lines_of (to_crlf s) = lines_of s.
Proof.
  induction 1 as [|c s Hc H IH]; [done|].
  unfold to_crlf in *. cbn [flat_map].
  destruct (N.eqb_spec c Ch.LF) as [->|Hlf].
  - cbn [app lines_of]. rewrite IH. reflexivity.
  - cbn [app lines_of]. rewrite IH.
    destruct (N.eqb_spec c Ch.LF); [done|].
    destruct (N.eqb_spec c Ch.CR); [done|]. reflexivity.
Qed.



Section ParserComposition.
Variable toLowerCase : str -> str.

Lemma layout_of_header_first (h : str) (l2 : list str) :
  is_comp_header h = true ->
  exists spans, h :: l2 = flat_map comp_lines spans /\
                forallb wf_comp spans = true.
Proof.
  intros Hh. destruct (layout_complete (h :: l2)) as (pre & spans & E & H).
  unfold wf_layout in H. apply andb_prop in H as [H1 H2].
  destruct pre as [|p pre].
  - by exists spans.
  - injection E as <- _. simpl in H1. by rewrite Hh in H1.
Qed.

Lemma parse_lines_app (l1 : list str) (h : str) (l2 : list str) :
  is_comp_header h = true ->
  parse_lines toLowerCase (l1 ++ h :: l2) =
  parse_lines toLowerCase l1 ++ parse_lines toLowerCase (h :: l2).
Proof.
  intros Hh. destruct (layout_of_header_first h l2 Hh) as (spans & -> & H).
  pose proof (parse_lines_layout toLowerCase [] spans H) as E.
  unfold layout_lines in E. cbn [app] in E. rewrite E.
  unfold parse_lines. rewrite fold_left_app.
  apply (fold_components toLowerCase spans _ H).
Qed.

Lemma parse_lines_dropped
      (pre before : list str) (h : str) (skipped rest : list str) :
  forallb (fun l => negb (is_comp_header l)) pre = true ->
  is_comp_header h = true ->
  forallb is_plain skipped = true ->
  parse_lines toLowerCase (pre ++ before ++ h :: skipped ++ rest) =
  parse_lines toLowerCase (before ++ h :: rest).
Proof.
  intros H1 H2 H3. unfold parse_lines.
  rewrite fold_left_app, fold_preamble by done.
  rewrite !fold_left_app. cbn [fold_left].
  rewrite !step_comp_header by done.
  by rewrite fold_left_app, fold_skipped.
Qed.

Lemma parse_lines_headers (ls : list str) :
  forallb is_comp_header ls = true ->
  parse_lines toLowerCase ls = List.map bare_component ls.
Proof.
  intros H.
  set (spans := List.map (fun h => {| comp_header := h; comp_skipped := [];
                                      comp_sections := [] |}) ls).
  assert (E : ls = layout_lines [] spans).
  { unfold layout_lines, spans. cbn [app]. clear H.
    induction ls as [|l ls IH]; [done|]. cbn. by rewrite <- IH. }
  rewrite E at 1. rewrite parse_lines_layout.
  - unfold spans. rewrite List.map_map. apply List.map_ext. by intros h.
  - unfold wf_layout, spans. cbn [forallb andb]. clear E spans.
    induction ls as [|l ls IH]; [done|].
    cbn [forallb] in H. apply andb_prop in H as [Hl H].
    cbn [List.map forallb]. rewrite IH by done.
    unfold wf_comp. cbn. by rewrite Hl.
Qed.

End ParserComposition.

Lemma bare_component_dropped (raw : str) :
  has_template (bare_component raw) = false.
Proof. done. Qed.

Lemma forEach_none (comps : list ExportedComponent) : forall w i,
  forallb (fun c => negb (has_template c)) comps = true ->
  forEach w i comps = w.
Proof.
  induction comps as [|c comps IH]; intros w i H; [done|].
  cbn [forallb] in H. apply andb_prop in H as [H1 H2].
  apply negb_true_iff in H1. cbn [forEach].
  rewrite write_component_dropped by done. by apply IH.
Qed.

Lemma layout_no_sections (spans : list CompSpan) :
  forallb wf_comp spans = true ->
  forallb (fun l => negb (is_sec_header l)) (flat_map comp_lines spans) = true ->
  Forall (fun c => comp_sections c = []) spans.
Proof.
  induction spans as [|c spans IH]; intros H1 H2; [constructor|].
  cbn [forallb] in H1. apply andb_prop in H1 as [Hc H1].
  cbn [flat_map] in H2. rewrite forallb_app in H2.
  apply andb_prop in H2 as [H2 H3]. constructor; [|by apply IH].
  unfold comp_lines in H2. cbn [forallb] in H2.
  apply andb_prop in H2 as [_ H2]. rewrite forallb_app in H2.
  apply andb_prop in H2 as [_ H2].
  unfold wf_comp in Hc. apply andb_prop in Hc as [_ Hc].
  destruct (comp_sections c) as [|s ss]; [done|].
  cbn [forallb] in Hc. apply andb_prop in Hc as [Hs _].
  unfold wf_sec in Hs. apply andb_prop in Hs as [Hs _].
  cbn in H2. rewrite Hs in H2. done.
Qed.

Lemma bare_components_dropped (ls : list str) :
  forallb (fun c => negb (has_template c)) (List.map bare_component ls) = true.
Proof. by induction ls. Qed.

Lemma parse_lines_no_sections (toLowerCase : str -> str) (ls : list str) :
  forallb (fun l => negb (is_sec_header l)) ls = true ->
  parse_lines toLowerCase ls =
  List.map bare_component (List.filter is_comp_header ls).
Proof.
  destruct (layout_complete ls) as (pre & spans & -> & H). intros Hn.
  rewrite parse_lines_layout, headers_of_layout by done.
  unfold layout_lines in Hn. rewrite forallb_app in Hn.
  apply andb_prop in Hn as [_ Hn].
  unfold wf_layout in H. apply andb_prop in H as [_ H].
  pose proof (layout_no_sections spans H Hn) as Hs.
  rewrite List.map_map. clear H Hn.
  induction Hs as [|c spans Hc Hs IH]; [done|].
  cbn [List.map]. rewrite IH. f_equal.
  unfold component_of, bare_component, header_name. by rewrite Hc.
Qed.

(** X3. The components that [parseBlocks] returns are, in order, the
    component header lines of the input: one component for each line
    that matches the component pattern, named by the trimmed capture of
    that line. *)
Theorem components_follow_header_lines
        (toLowerCase : str -> str) (content : str) :
  List.map name (parseBlocks toLowerCase content) =
  List.map header_name
    (List.filter is_comp_header (split lineBreakRe content)) /\
  length (parseBlocks toLowerCase content) =
  length (List.filter is_comp_header (split lineBreakRe content)).
Proof.
  unfold parseBlocks.
  pose proof (parse_lines_names toLowerCase (split lineBreakRe content)) as H.
  split; [exact H|].
  apply (f_equal (@length _)) in H. by rewrite !length_map in H.
Qed.

(** X4. The names of the parsed components and the titles of their
    sections carry no white space at either end. *)
Theorem parsed_names_and_titles_are_trimmed
        (toLowerCase : str -> str) (content : str) :
  Forall (fun c => trim (name c) = name c /\
                   Forall (fun s => trim (title s) = title s) (sections c))
         (parseBlocks toLowerCase content).
Proof. apply parse_lines_trimmed. Qed.

(** X5. Line ends: an input written with carriage return and line feed
    is parsed as the same input written with line feeds alone. *)
Theorem crlf_input_parses_like_lf_input
        (toLowerCase : str -> str) (content : str) :
  Forall (fun c => c <> Ch.CR) content ->
  parseBlocks toLowerCase (to_crlf content) =
  parseBlocks toLowerCase content.
Proof.
  intros H. unfold parseBlocks. by rewrite !split_lines, lines_of_to_crlf.
Qed.

(** X6. Lines outside sections leave no trace in the result: the lines
    before the first component header, whatever they are, and, for
    every component header of the input, first or not, the lines
    between it and the first section header that follows it. In
    particular such lines are not added to the last section of the
    component before. *)
Theorem lines_outside_sections_are_dropped
        (toLowerCase : str -> str) (pre before : list str) (h : str)
        (skipped rest : list str) :
  forallb (fun l => negb (is_comp_header l)) pre = true ->
  is_comp_header h = true ->
  forallb is_plain skipped = true ->
  parse_lines toLowerCase (pre ++ before ++ h :: skipped ++ rest) =
  parse_lines toLowerCase (before ++ h :: rest).
Proof. apply parse_lines_dropped. Qed.

(** X7. Two exports can be concatenated: when the second text starts
    with a component header, the text made of the first, a line feed
    and the second is parsed as the components of the first followed by
    the components of the second. *)
Theorem concatenated_exports_parse_separately
        (toLowerCase : str -> str) (a b h : str) (l2 : list str) :
  last a <> Some Ch.CR ->
  split lineBreakRe b = h :: l2 ->
  is_comp_header h = true ->
  parseBlocks toLowerCase (a ++ Ch.LF :: b) =
  parseBlocks toLowerCase a ++ parseBlocks toLowerCase b.
Proof.
  intros Ha Hb Hh. unfold parseBlocks.
  rewrite split_lines in Hb. rewrite !split_lines, lines_of_app_lf, Hb by done.
  by apply parse_lines_app.
Qed.

(** X8. An input without any section header line generates nothing:
    every component is returned with no section, no file is written and
    the run ends with exit code 1. *)
Theorem input_without_section_headers_generates_nothing
        (toLowerCase : str -> str) (basename : str -> str -> str)
        (w : world) (text : str) :
  readFileSync w (inputFile w) = Ok text ->
  forallb (fun l => negb (is_sec_header l)) (split lineBreakRe text) = true ->
  parseBlocks toLowerCase text =
  List.map bare_component
    (List.filter is_comp_header (split lineBreakRe text)) /\
  written (writeComponentsToApp (parseBlocks toLowerCase text)) = [] /\
  exit_code (main toLowerCase basename w) = 1%nat /\
  file_writes (events (main toLowerCase basename w)) = [].
Proof.
  intros Hr H. pose proof (parse_lines_no_sections toLowerCase _ H) as Hp.
  fold (parseBlocks toLowerCase text) in Hp.
  assert (Hw : writeComponentsToApp (parseBlocks toLowerCase text) =
               {| used := ∅; files := []; written := [] |}).
  { rewrite Hp. apply forEach_none, bare_components_dropped. }
  split; [exact Hp|]. split; [by rewrite Hw|].
  destruct (main_cases toLowerCase basename w)
    as [(Hin & ->)
       |[(Hin & Htgt & ->)
        |[(Hin & Htgt & report & Hr' & ->)
         |[(Hin & Htgt & text' & Hr' & Hp' & ->)
          |(Hin & Htgt & text' & Hr' & Hp' & ->)]]]]; try done.
  replace text' with text in * by congruence.
  destruct (mkdir_events_quiet w) as [Hq1 Hq2].
  destruct (generate_cases basename w (parseBlocks toLowerCase text))
    as [(report & Hx & Hm & ->)
       |[(Hm & pre & f & post & report & E & Hpre & Hf & ->)
        |[(Hm & Hwr & Hfi & ->)
         |[(Hm & Hw' & Hfi & report & Hrr & ->)
          |(Hm & Hw' & Hfi & Hrr & ->)]]]]; cbn [exit_code events].
  - done.
  - rewrite Hw in E. by destruct pre.
  - split; [done|]. by rewrite file_writes_app, Hq1.
  - by rewrite Hw in Hfi.
  - by rewrite Hw in Hfi.
Qed.

Lemma crlf_input_parses_like_lf_input_witness :
  Forall (fun c => c <> Ch.CR) demo_unix_input /\
  parseBlocks ascii_toLowerCase (to_crlf demo_unix_input) =
  parseBlocks ascii_toLowerCase demo_unix_input.
Proof.
  assert (H : Forall (fun c => c <> Ch.CR) demo_unix_input).
  { apply Forall_forall. intros c Hc Ec. subst c. revert Hc.
    apply (bool_decide_unpack (Ch.CR ∉ demo_unix_input)). vm_compute. exact I. }
  split; [exact H|].
  exact (crlf_input_parses_like_lf_input ascii_toLowerCase demo_unix_input H).
Defined.

Lemma lines_outside_sections_are_dropped_witness :
  parse_lines ascii_toLowerCase
    ([js "intro"; js "// ---- Orphan (vue) ----"; js "<i/>"] ++
     [js "// ===== Component: Bar ====="; js "// ---- Root (vue) ----";
      js "<b/>"] ++
     js "// ===== Component: Foo =====" ::
     [js "skipped"] ++ [js "// ---- Root (vue) ----"; js "<p/>"]) =
  parse_lines ascii_toLowerCase
    ([js "// ===== Component: Bar ====="; js "// ---- Root (vue) ----";
      js "<b/>"] ++
     js "// ===== Component: Foo =====" ::
     [js "// ---- Root (vue) ----"; js "<p/>"]) /\
  parse_lines ascii_toLowerCase
    ([js "// ===== Component: Bar ====="; js "// ---- Root (vue) ----";
      js "<b/>"] ++
     js "// ===== Component: Foo =====" ::
     [js "// ---- Root (vue) ----"; js "<p/>"]) =
  [ {| name := js "Bar";
       sections := [ {| title := js "Root"; lang := js "vue";
                        code := js "<b/>" ++ nl |} ] |};
    {| name := js "Foo";
       sections := [ {| title := js "Root"; lang := js "vue";
                        code := js "<p/>" ++ nl |} ] |} ].
Proof.
  split; [|vm_compute; reflexivity].
  apply (lines_outside_sections_are_dropped ascii_toLowerCase
           [js "intro"; js "// ---- Orphan (vue) ----"; js "<i/>"]
           [js "// ===== Component: Bar ====="; js "// ---- Root (vue) ----";
            js "<b/>"]
           (js "// ===== Component: Foo =====") [js "skipped"]
           [js "// ---- Root (vue) ----"; js "<p/>"]);
    vm_compute; reflexivity.
Defined.

Lemma concatenated_exports_parse_separately_witness :
  parseBlocks ascii_toLowerCase
    (demo_unix_input ++ Ch.LF :: demo_second_export) =
  parseBlocks ascii_toLowerCase demo_unix_input ++
  parseBlocks ascii_toLowerCase demo_second_export.
Proof.
  apply (concatenated_exports_parse_separately ascii_toLowerCase
           demo_unix_input demo_second_export
           (js "// ===== Component: Bar =====")
           [js "// ---- Root (vue) ----"; js "<b/>"]).
  - vm_compute. discriminate.
  - vm_compute. reflexivity.
  - vm_compute. reflexivity.
Defined.

Lemma input_without_section_headers_generates_nothing_witness :
  parseBlocks ascii_toLowerCase
    (js "notes" ++ nl ++
     js "// ===== Component: A =====" ++ nl ++
     js "<p/>" ++ nl ++
     js "// ===== Component: B =====" ++ nl) =
  [ {| name := js "A"; sections := [] |};
    {| name := js "B"; sections := [] |} ] /\
  exit_code (main ascii_toLowerCase demo_basename demo_headers_world) =
  1%nat /\
  file_writes
    (events (main ascii_toLowerCase demo_basename demo_headers_world)) = [].
Proof.
  destruct (input_without_section_headers_generates_nothing
              ascii_toLowerCase demo_basename demo_headers_world _ eq_refl)
    as (H1 & _ & H3 & H4).
  - vm_compute. reflexivity.
  - split; [|split; [exact H3|exact H4]].
    rewrite H1. vm_compute. reflexivity.
Defined.

(** *** [escapeHtml] *)

Lemma flat_map_flat_map {A B C} (f : B -> list C) (g : A -> list B) (l : list A) :
  flat_map f (flat_map g l) = flat_map (fun x => flat_map f (g x)) l.
Proof.
  induction l as [|x l IH]; [done|]. cbn [flat_map].
  by rewrite flat_map_app, IH.
Qed.

Lemma escapeHtml_one_pass (s : str) : escapeHtml s = flat_map escape_char s.
Proof.
  unfold escapeHtml, replace_char. rewrite !flat_map_flat_map.
  apply flat_map_ext. intros c. unfold escape_char.
  unfold Ch.AMP, Ch.LT, Ch.GT.
  destruct (N.eqb_spec c 38) as [->|H1]; [reflexivity|].
  cbn [flat_map app].
  destruct (N.eqb_spec c 60) as [->|H2]; [reflexivity|].
  cbn [flat_map app].
  destruct (N.eqb_spec c 62) as [->|H3]; reflexivity.
Qed.

Lemma escape_char_safe (c : N) :
  Forall (fun d => d <> Ch.LT /\ d <> Ch.GT) (escape_char c).
Proof.
  unfold escape_char, Ch.AMP, Ch.LT, Ch.GT.
  destruct (N.eqb_spec c 38); [by repeat constructor|].
  destruct (N.eqb_spec c 60); [by repeat constructor|].
  destruct (N.eqb_spec c 62); [by repeat constructor|].
  by repeat constructor.
Qed.

Lemma escape_char_head (c : N) :
  exists t, escape_char c = (if (c =? Ch.LT) || (c =? Ch.GT) then Ch.AMP else c) :: t.
Proof.
  unfold escape_char, Ch.AMP, Ch.LT, Ch.GT.
  destruct (N.eqb_spec c 38) as [->|]; [by eexists|].
  destruct (N.eqb_spec c 60) as [->|]; [by eexists|].
  destruct (N.eqb_spec c 62) as [->|]; by eexists.
Qed.

Lemma escape_inj (a : str) : forall b,
  flat_map escape_char a = flat_map escape_char b -> a = b.
Proof.
  induction a as [|c a IH]; intros [|d b] H.
  - done.
  - cbn [flat_map] in H. destruct (escape_char_head d) as [t E].
    rewrite E in H. discriminate H.
  - cbn [flat_map] in H. destruct (escape_char_head c) as [t E].
    rewrite E in H. discriminate H.
  - cbn [flat_map] in H. revert H. unfold escape_char at 1 3.
    unfold Ch.AMP, Ch.LT, Ch.GT.
    destruct (N.eqb_spec c 38) as [->|Hc1];
      [|destruct (N.eqb_spec c 60) as [->|Hc2];
        [|destruct (N.eqb_spec c 62) as [->|Hc3]]];
    (destruct (N.eqb_spec d 38) as [->|Hd1];
      [|destruct (N.eqb_spec d 60) as [->|Hd2];
        [|destruct (N.eqb_spec d 62) as [->|Hd3]]]);
    change (js "&amp;") with [38; 97; 109; 112; 59];
    change (js "&lt;") with [38; 108; 116; 59];
    change (js "&gt;") with [38; 103; 116; 59];
    cbn [app]; intros H;
    try discriminate H;
    try (injection H as H; f_equal; by apply IH);
    try (injection H as H1 H; first [congruence|subst; f_equal; by apply IH]).
Qed.

(** X9. [escapeHtml] behaves as one pass that replaces each ampersand,
    less-than and greater-than sign by its entity, although it is
    written as three successive replacements; its result holds no angle
    bracket. *)
Theorem escapeHtml_is_one_pass (s : str) :
  escapeHtml s = flat_map escape_char s /\
  Forall (fun d => d <> Ch.LT /\ d <> Ch.GT) (escapeHtml s).
Proof.
  split; [apply escapeHtml_one_pass|]. rewrite escapeHtml_one_pass.
  induction s as [|c s IH]; [constructor|]. cbn [flat_map].
  apply Forall_app. split; [apply escape_char_safe|exact IH].
Qed.

(** X10. [escapeHtml] loses nothing: different texts have different
    escapes. *)
Theorem escapeHtml_is_injective (a b : str) :
  a <> b -> escapeHtml a <> escapeHtml b.
Proof.
  intros H E. apply H. rewrite !escapeHtml_one_pass in E.
  by apply escape_inj.
Qed.

Lemma escapeHtml_is_injective_witness :
  js "<" <> js "&lt;" /\ escapeHtml (js "<") <> escapeHtml (js "&lt;").
Proof.
  assert (H : js "<" <> js "&lt;") by discriminate.
  split; [exact H|]. exact (escapeHtml_is_injective (js "<") (js "&lt;") H).
Defined.

(** *** The first loop of [buildSFC] *)

Lemma classify_step (p : parts) (s : ExportedSection) :
  classify p s =
  {| htmlParts := htmlParts p ++
                  (if is_markup_section s then [html_part s] else []);
     cssParts := cssParts p ++
                 (if is_style_section s then [code s] else []);
     jsParts := jsParts p ++
                (if is_script_section s then [code s] else []) |}.
Proof.
  unfold classify, is_markup_section, is_style_section, is_script_section,
    html_part, is_css_lang.
  destruct (lang s) as [|c l] eqn:E.
  - cbn. rewrite !app_nil_r. by destruct p.
  - replace (str_eqb (c :: l) []) with false
      by (symmetry; by apply bool_decide_eq_false_2).
    destruct (includes (c :: l) (js "css")); cbn [negb andb orb];
      [rewrite !app_nil_r; by destruct p|].
    destruct (is_template_lang (c :: l)); cbn [negb andb orb];
      [rewrite !app_nil_r; by destruct p|].
    destruct (is_script_lang (c :: l)); cbn [negb andb orb];
      rewrite !app_nil_r; by destruct p.
Qed.

Lemma fold_classify (secs : list ExportedSection) : forall p,
  fold_left classify secs p =
  {| htmlParts := htmlParts p ++
                  List.map html_part (List.filter is_markup_section secs);
     cssParts := cssParts p ++
                 List.map code (List.filter is_style_section secs);
     jsParts := jsParts p ++
                List.map code (List.filter is_script_section secs) |}.
Proof.
  induction secs as [|s secs IH]; intros p.
  - cbn. rewrite !app_nil_r. by destruct p.
  - cbn [fold_left List.filter]. rewrite IH, classify_step.
    cbn [htmlParts cssParts jsParts].
    destruct (is_markup_section s), (is_style_section s),
      (is_script_section s); cbn [List.map]; by rewrite <- !app_assoc.
Qed.

Lemma section_kinds (s : ExportedSection) :
  ((if is_markup_section s then 1 else 0) +
   (if is_style_section s then 1 else 0) +
   (if is_script_section s then 1 else 0) =
   (if str_eqb (lang s) [] then 0 else 1))%nat.
Proof.
  unfold is_markup_section, is_style_section, is_script_section, is_css_lang.
  destruct (lang s) as [|c l]; [reflexivity|].
  replace (str_eqb (c :: l) []) with false
    by (symmetry; by apply bool_decide_eq_false_2).
  by destruct (includes (c :: l) (js "css")), (is_template_lang (c :: l)),
    (is_script_lang (c :: l)).
Qed.

(** X11. The first loop of [buildSFC] sorts the sections into markup,
    style and script without reordering them: each list holds the
    sections of its kind in the order of the export, a section tagged
    with a language that names [css] is style whatever else the tag
    says, and every section with a non-empty tag lands in exactly one
    list. *)
Theorem sections_are_sorted_by_language (secs : list ExportedSection) :
  let p := classify_all secs in
  htmlParts p = List.map html_part (List.filter is_markup_section secs) /\
  cssParts p = List.map code (List.filter is_style_section secs) /\
  jsParts p = List.map code (List.filter is_script_section secs) /\
  (length (htmlParts p) + length (cssParts p) + length (jsParts p) =
   length (List.filter (fun s => negb (str_eqb (lang s) [])) secs))%nat.
Proof.
  cbv zeta. unfold classify_all. rewrite fold_classify.
  cbn [htmlParts cssParts jsParts app]. repeat split.
  rewrite !length_map.
  induction secs as [|s secs IH]; [done|]. cbn [List.filter].
  pose proof (section_kinds s) as K.
  destruct (is_markup_section s), (is_style_section s),
    (is_script_section s), (str_eqb (lang s) []);
    cbn [negb length] in *; try discriminate K; lia.
Qed.

Lemma classify_all_untagged (secs : list ExportedSection) :
  classify_all (List.filter (fun s => negb (str_eqb (lang s) [])) secs) =
  classify_all secs.
Proof.
  unfold classify_all. rewrite !fold_classify. cbn [htmlParts cssParts jsParts app].
  assert (F : forall (f : ExportedSection -> bool),
             (forall s, f s = true -> negb (str_eqb (lang s) []) = true) ->
             List.filter f (List.filter (fun s => negb (str_eqb (lang s) [])) secs)
             = List.filter f secs).
  { intros f Hf. induction secs as [|s secs IH]; [done|]. cbn [List.filter].
    destruct (negb (str_eqb (lang s) [])) eqn:E; cbn [List.filter].
    - by rewrite IH.
    - destruct (f s) eqn:Ef; [|exact IH]. apply Hf in Ef. congruence. }
  rewrite !F; [done| | |].
  - intros s. unfold is_script_section, is_css_lang.
    destruct (lang s); [done|]. intros _. by apply negb_true_iff, bool_decide_eq_false_2.
  - intros s. unfold is_style_section, is_css_lang.
    destruct (lang s); [done|]. intros _. by apply negb_true_iff, bool_decide_eq_false_2.
  - intros s. unfold is_markup_section. intros H.
    apply andb_prop in H as [H _]. by apply andb_prop in H as [H _].
Qed.

(** X12. Sections whose language tag is empty contribute nothing: the
    synthesized file is the one of the component without them. *)
Theorem untagged_sections_are_ignored (c : ExportedComponent) (idx : nat) :
  buildSFC {| name := name c;
              sections := List.filter (fun s => negb (str_eqb (lang s) []))
                                      (sections c) |} idx =
  buildSFC c idx.
Proof.
  unfold buildSFC, compName, nameBase, initial_template, fallback_template.
  cbn [name sections]. by rewrite classify_all_untagged.
Qed.

(** *** [writeComponentsToApp] and [main] *)

Lemma digit_ident_char (c : N) : is_digit c = true -> is_ident_char c = true.
Proof.
  unfold is_ident_char. intros ->. by rewrite !orb_true_r.
Qed.

Lemma file_name_is_vue (b : str) (k : nat) :
  Forall (fun c => is_ident_char c = true) b ->
  is_vue_file_name (file_name b k).
Proof.
  intros Hb. unfold file_name. destruct k as [|k].
  - by exists b.
  - exists (b ++ js "_" ++ num_to_str (S (S k))). split.
    + by rewrite <- !app_assoc.
    + apply Forall_app. split; [exact Hb|]. apply Forall_app. split.
      * by repeat constructor.
      * eapply Forall_impl; [apply num_to_str_digits|].
        intros c. apply digit_ident_char.
Qed.

Lemma file_names_are_vue comps : forall seen i,
  Forall is_vue_file_name (file_names seen i comps).
Proof.
  induction comps as [|c comps IH]; intros seen i; cbn [file_names];
    [constructor|].
  destruct (has_template c); [|apply IH].
  constructor; [|apply IH]. apply file_name_is_vue, compName_ident.
Qed.

Lemma count_notin (b : str) (seen : list str) :
  b ∉ seen -> count b seen = O.
Proof.
  induction seen as [|x seen IH]; [done|]. intros H.
  apply not_elem_of_cons in H as [H1 H2]. cbn [count]. unfold str_eqb.
  rewrite bool_decide_eq_false_2 by congruence. by rewrite IH.
Qed.

Lemma forEach_written_fresh comps : forall w i seen,
  counts (used w) seen ->
  NoDup (seen ++ gated_bases i comps) ->
  written (forEach w i comps) = written w ++ gated_files i comps.
Proof.
  induction comps as [|c comps IH]; intros w i seen Hu Hn;
    cbn [forEach gated_files gated_bases] in *.
  - by rewrite app_nil_r.
  - destruct (has_template c) eqn:Hc.
    + cbn [app] in *.
      assert (Hb : compName c i ∉ seen).
      { apply NoDup_app in Hn as (_ & Hn & _). intros Hin.
        apply (Hn _ Hin). by left. }
      pose proof (counts_insert _ _ (compName c i) Hu) as Hu'.
      pose proof (Hu (compName c i)) as Hl.
      rewrite (count_notin _ _ Hb) in Hu', Hl.
      assert (E : write_component w c i =
                  emit (buildSFC c i) (<[compName c i := 1%nat]> (used w)) w).
      { rewrite write_component_gated by done. cbv zeta. by rewrite Hl. }
      rewrite E. rewrite (IH _ _ (seen ++ [compName c i])).
      * unfold emit. cbn [written]. by rewrite <- app_assoc.
      * exact Hu'.
      * by rewrite <- app_assoc.
    + rewrite write_component_dropped by done. cbn [app] in *.
      by apply (IH _ _ seen).
Qed.

Lemma written_names_are_vue (comps : list ExportedComponent) :
  Forall (fun f => is_vue_file_name (filename f))
         (written (writeComponentsToApp comps)).
Proof.
  pose proof (file_names_are_vue comps [] O) as H.
  rewrite <- writeComponentsToApp_files, writeComponentsToApp_sync in H.
  by rewrite List.Forall_map in H.
Qed.

Lemma component_writes (w : world) (fs : list SynthesizedFile) :
  Forall (fun f => is_vue_file_name (filename f)) fs ->
  Forall (fun pd => (exists f, fst pd = compDir w ++ js "/" ++ f /\
                               is_vue_file_name f) \/
                    fst pd = appVuePath w)
         (file_writes (write_log w fs)).
Proof.
  intros H. rewrite write_log_writes. apply List.Forall_map.
  eapply Forall_impl; [exact H|]. intros f Hf. left. by exists (filename f).
Qed.

(** X13. Whatever the input file holds, a run writes only two kinds of
    files: files of the component directory named by an identifier
    followed by [.vue], and the root file [src/App.vue] of the target.
    No name taken from the export can lead a write anywhere else. *)
Theorem run_writes_components_and_root_only
        (toLowerCase : str -> str) (basename : str -> str -> str)
        (w : world) :
  (forall comps,
      Forall (fun f => is_vue_file_name (filename f))
             (written (writeComponentsToApp comps))) /\
  Forall (fun pd => (exists f, fst pd = compDir w ++ js "/" ++ f /\
                               is_vue_file_name f) \/
                    fst pd = appVuePath w)
         (file_writes (events (main toLowerCase basename w))).
Proof.
  split; [apply written_names_are_vue|].
  destruct (main_cases toLowerCase basename w)
    as [(Hin & ->)
       |[(Hin & Htgt & ->)
        |[(Hin & Htgt & report & Hr & ->)
         |[(Hin & Htgt & text & Hr & Hp & ->)
          |(Hin & Htgt & text & Hr & Hp & ->)]]]]; try by constructor.
  pose proof (written_names_are_vue (parseBlocks toLowerCase text)) as Hv.
  destruct (mkdir_events_quiet w) as [Hq1 Hq2].
  destruct (generate_cases basename w (parseBlocks toLowerCase text))
    as [(report & Hx & Hm & ->)
       |[(Hm & pre & f & post & report & E & Hpre & Hf & ->)
        |[(Hm & Hwr & Hfi & ->)
         |[(Hm & Hw & Hfi & report & Hrr & ->)
          |(Hm & Hw & Hfi & Hrr & ->)]]]]; cbn [events].
  - constructor.
  - rewrite !file_writes_app, Hq1. cbn [app]. apply Forall_app. split.
    + apply component_writes. rewrite E in Hv.
      by apply Forall_app in Hv as [Hv _].
    + constructor.
  - rewrite file_writes_app, Hq1. constructor.
  - rewrite !file_writes_app, Hq1. cbn [app]. apply Forall_app. split.
    + by apply component_writes.
    + constructor.
  - rewrite !file_writes_app, Hq1. cbn [app]. apply Forall_app. split.
    + by apply component_writes.
    + apply Forall_app. split; [|constructor].
      constructor; [by right|constructor].
Qed.

(** X14. The numbered names of the collision resolver are not reserved:
    when a component's own base name is the numbered name given to an
    earlier duplicate, both get the same file name, and the later file
    replaces the earlier one. *)
Theorem numbered_name_can_be_taken_twice (c1 c2 c3 : ExportedComponent) :
  has_template c1 = true -> has_template c2 = true ->
  has_template c3 = true ->
  compName c2 1 = compName c1 0 ->
  compName c3 2 = compName c1 0 ++ js "_2" ->
  files (writeComponentsToApp [c1; c2; c3]) =
  [compName c1 0 ++ js ".vue"; compName c1 0 ++ js "_2.vue";
   compName c1 0 ++ js "_2.vue"].
Proof.
  intros H1 H2 H3 E2 E3. rewrite writeComponentsToApp_files.
  cbn [file_names app]. rewrite H1, H2, H3, E2, E3.
  set (b := compName c1 0).
  assert (Hne : b <> b ++ js "_2").
  { intros E. apply (f_equal (@length _)) in E. rewrite length_app in E.
    cbn in E. lia. }
  cbn [count]. unfold str_eqb.
  rewrite bool_decide_eq_true_2 by done.
  rewrite !bool_decide_eq_false_2 by done.
  cbn [Nat.add file_name]. by rewrite <- !app_assoc.
Qed.

(** X15. When the base names of the components that are written are
    pairwise distinct, the files written are the synthesized files
    themselves, in the order of the export: nothing is renamed and no
    content is rewritten. *)
Theorem distinct_names_are_written_unchanged
        (comps : list ExportedComponent) :
  NoDup (gated_bases O comps) ->
  written (writeComponentsToApp comps) = gated_files O comps.
Proof.
  intros H. unfold writeComponentsToApp.
  by rewrite (forEach_written_fresh comps _ O []) by (done || apply counts_empty).
Qed.

(** X16. A run that ends with exit code 0 has read the input, has
    written at least one component file, and then has written the root
    file built from exactly the names of the component files written,
    in the order of the writes; no call of the file system has thrown,
    and these are all the writes of the run. *)
Theorem successful_run_updates_root_with_written_names
        (toLowerCase : str -> str) (basename : str -> str -> str)
        (w : world) :
  exit_code (main toLowerCase basename w) = 0%nat ->
  exists text,
    readFileSync w (inputFile w) = Ok text /\
    let r := writeComponentsToApp (parseBlocks toLowerCase text) in
    written r <> [] /\
    events (main toLowerCase basename w) =
    mkdir_events w ++ write_log w (written r) ++
    root_log basename w (List.map filename (written r)) ++ done_messages /\
    file_writes (events (main toLowerCase basename w)) =
    List.map (fun f => (compDir w ++ js "/" ++ filename f, content f))
             (written r) ++
    [(appVuePath w, root_app basename (List.map filename (written r)))].
Proof.
  destruct (main_cases toLowerCase basename w)
    as [(Hin & ->)
       |[(Hin & Htgt & ->)
        |[(Hin & Htgt & report & Hr & ->)
         |[(Hin & Htgt & text & Hr & Hp & ->)
          |(Hin & Htgt & text & Hr & Hp & ->)]]]]; try done.
  destruct (mkdir_events_quiet w) as [Hq1 Hq2].
  pose proof (writeComponentsToApp_sync (parseBlocks toLowerCase text)) as Hs.
  destruct (generate_cases basename w (parseBlocks toLowerCase text))
    as [(report & Hx & Hm & ->)
       |[(Hm & pre & f & post & report & E & Hpre & Hf & ->)
        |[(Hm & Hwr & Hfi & ->)
         |[(Hm & Hw & Hfi & report & Hrr & ->)
          |(Hm & Hw & Hfi & Hrr & ->)]]]]; cbn [exit_code events]; try done.
  intros _. exists text. split; [exact Hr|]. cbv zeta.
  rewrite <- Hs. split; [|split; [reflexivity|]].
  - intros Hn. rewrite Hn in Hs. done.
  - rewrite !file_writes_app, Hq1, write_log_writes. cbn [app].
    f_equal.
Qed.

Lemma numbered_name_can_be_taken_twice_witness :
  files (writeComponentsToApp [demo_foo; demo_foo; demo_foo_2]) =
  [js "Foo.vue"; js "Foo_2.vue"; js "Foo_2.vue"].
Proof.
  exact (numbered_name_can_be_taken_twice demo_foo demo_foo demo_foo_2
           eq_refl eq_refl eq_refl eq_refl eq_refl).
Defined.

Lemma distinct_names_are_written_unchanged_witness :
  NoDup (gated_bases O [demo_foo; demo_html; demo_bar]) /\
  written (writeComponentsToApp [demo_foo; demo_html; demo_bar]) =
  [buildSFC demo_foo 0; buildSFC demo_bar 2].
Proof.
  assert (H : NoDup (gated_bases O [demo_foo; demo_html; demo_bar])).
  { apply (bool_decide_unpack (NoDup _)). vm_compute. exact I. }
  split; [exact H|].
  exact (distinct_names_are_written_unchanged
           [demo_foo; demo_html; demo_bar] H).
Defined.

Lemma successful_run_updates_root_with_written_names_witness :
  exit_code (main ascii_toLowerCase demo_basename demo_ok_world) = 0%nat /\
  file_writes (events (main ascii_toLowerCase demo_basename demo_ok_world)) =
  [(js "/work/my-vue-app/src/components/Foo.vue",
    js "<!-- Generated from Figma export: Foo -->" ++ nl ++
    js "<template>" ++ nl ++
    js "<p/>" ++ nl ++ nl ++ nl ++
    js "</template>" ++ nl ++ nl ++
    js "<script>" ++ nl ++
    js "export default { name: 'Foo' }" ++ nl ++
    js "</script>" ++ nl ++ nl);
   (js "/work/my-vue-app/src/App.vue",
    js "<!-- Auto-generated App.vue: shows generated Figma components -->" ++
    nl ++
    js "<template>" ++ nl ++
    js "  <UApp>" ++ nl ++
    js "    <NuxtPage>" ++ nl ++
    js "        <section class=" ++ dq ++ js "generated-section" ++ dq ++
    js ">" ++ nl ++
    js "          <h3>Foo</h3>" ++ nl ++
    js "          <Foo />" ++ nl ++
    js "        </section>" ++ nl ++
    js "    </NuxtPage>" ++ nl ++
    js "  </UApp>" ++ nl ++
    js "</template>" ++ nl ++ nl ++
    js "<script setup lang=" ++ dq ++ js "ts" ++ dq ++ js ">" ++ nl ++
    js "import Foo from './components/Foo.vue'" ++ nl ++
    js "</script>" ++ nl ++ nl ++
    js "<style>" ++ nl ++
    js "#app { padding: 20px }" ++ nl ++
    js ".generated-section { margin-bottom: 24px }" ++ nl ++
    js "</style>" ++ nl)] /\
  last (events (main ascii_toLowerCase demo_basename demo_ok_world)) =
  Some (ConsoleLog (js "  pnpm dev (or npm run dev)")).
Proof.
  assert (H : exit_code (main ascii_toLowerCase demo_basename demo_ok_world)
              = 0%nat) by (vm_compute; reflexivity).
  split; [exact H|].
  destruct (successful_run_updates_root_with_written_names
              ascii_toLowerCase demo_basename demo_ok_world H)
    as (text & Hr & _ & H2 & H3).
  injection Hr as <-. split.
  - rewrite H3. vm_compute. reflexivity.
  - rewrite H2. vm_compute. reflexivity.
Defined.

(** *** The rewriting of a colliding file *)

Lemma get_substitution_plain (f : Re.found) (repl : str) :
  Forall (fun c => c <> Ch.DOLLAR) repl -> get_substitution f repl = repl.
Proof.
  induction 1 as [|c repl Hc _ IH]; [done|]. cbn [get_substitution].
  destruct (N.eqb_spec c Ch.DOLLAR); [done|]. by rewrite IH.
Qed.

Lemma star_prefix {R} p (k : str -> option R) (w s : str) r :
  Forall (fun c => p c = true) w ->
  Re.star p k s = Some r -> Re.star p k (w ++ s) = Some r.
Proof.
  intros Hw Hs. induction Hw as [|c w Hc _ IH]; [exact Hs|].
  cbn [app Re.star]. by rewrite Hc, IH.
Qed.

Lemma run_headerRe (n rest : str) :
  Forall (fun c => c <> Ch.GT) n ->
  Re.run headerRe (header_comment n ++ rest) [] = Some ([], rest).
Proof.
  intros Hn. unfold headerRe, header_comment, Re.lits.
  rewrite <- !app_assoc, run_lits. cbn [app Re.run].
  apply star_prefix.
  - eapply Forall_impl; [exact Hn|]. intros c Hc.
    apply negb_true_iff, N.eqb_neq. exact Hc.
  - vm_compute. reflexivity.
Qed.

Lemma search_from_here r (pre s : str) (f : Re.found) :
  Re.match_here r pre s = Some f -> Re.search_from r pre s = Some f.
Proof. intros H. destruct s; cbn [Re.search_from]; by rewrite H. Qed.

Lemma header_plain (n : str) :
  Forall (fun c => c <> Ch.DOLLAR) n ->
  Forall (fun c => c <> Ch.DOLLAR) (header_comment n).
Proof.
  intros Hn. unfold header_comment. apply Forall_app. split.
  - apply (bool_decide_unpack _). vm_compute. exact I.
  - apply Forall_app. split; [exact Hn|].
    apply (bool_decide_unpack _). vm_compute. exact I.
Qed.

Lemma search_header (n rest : str) :
  Forall (fun c => c <> Ch.GT) n ->
  Re.search_from headerRe [] (header_comment n ++ rest) =
  Some {| Re.f_pre := []; Re.f_match := header_comment n;
          Re.f_post := rest |}.
Proof.
  intros Hn. apply search_from_here. unfold Re.match_here.
  rewrite run_headerRe by exact Hn.
  rewrite length_app.
  replace (length (header_comment n) + length rest - length rest)%nat
    with (length (header_comment n)) by lia.
  rewrite take_app_length. reflexivity.
Qed.

Lemma replace_first_found r (repl s : str) (f : Re.found) :
  Re.search r s = Some f ->
  replace_first r repl s =
  Re.f_pre f ++ get_substitution f repl ++ Re.f_post f.
Proof. intros H. unfold replace_first. by rewrite H. Qed.

Lemma header_rewrite_id (n rest : str) :
  Forall (fun c => c <> Ch.GT /\ c <> Ch.DOLLAR) n ->
  replace_first headerRe (header_comment n) (header_comment n ++ rest) =
  header_comment n ++ rest.
Proof.
  intros Hn.
  assert (H1 : Forall (fun c => c <> Ch.GT) n).
  { eapply Forall_impl; [exact Hn|]. by intros c [? _]. }
  assert (H2 : Forall (fun c => c <> Ch.DOLLAR) n).
  { eapply Forall_impl; [exact Hn|]. by intros c [_ ?]. }
  rewrite (replace_first_found _ _ _ _ (search_header n rest H1)).
  rewrite (get_substitution_plain _ _ (header_plain n H2)).
  reflexivity.
Qed.

Lemma run_lits_inv (l : str) r s caps res :
  Re.run (List.map Re.Lit l ++ r) s caps = Some res -> exists z, s = l ++ z.
Proof.
  revert s. induction l as [|c l IH]; intros s H; [by exists s|].
  cbn [List.map app Re.run] in H. destruct s as [|d s]; [done|].
  destruct (N.eqb_spec c d) as [->|]; [|done].
  destruct (IH _ H) as [z ->]. by exists z.
Qed.

Lemma search_from_skip r (h : str) : forall pre rest,
  (forall x y, h = x ++ y -> y <> [] -> Re.run r (y ++ rest) [] = None) ->
  Re.search_from r pre (h ++ rest) = Re.search_from r (pre ++ h) rest.
Proof.
  induction h as [|c h IH]; intros pre rest H.
  - by rewrite app_nil_r.
  - cbn [app Re.search_from]. unfold Re.match_here at 1.
    change (c :: h ++ rest) with ((c :: h) ++ rest).
    rewrite (H [] (c :: h)) by done.
    rewrite IH.
    + by rewrite <- app_assoc.
    + intros x y -> Hy. by apply (H (c :: x) y).
Qed.

Lemma search_from_shift r (h : str) (s : str) : forall pre,
  Re.search_from r (h ++ pre) s = shift_pre h <$> Re.search_from r pre s.
Proof.
  induction s as [|c s IH]; intros pre.
  - cbn [Re.search_from]. unfold Re.match_here.
    by destruct (Re.run r [] []) as [[? ?]|].
  - cbn [Re.search_from]. unfold Re.match_here.
    destruct (Re.run r (c :: s) []) as [[? ?]|]; [done|].
    by rewrite <- app_assoc, IH.
Qed.

Lemma replace_first_skip r (repl h rest : str) :
  Forall (fun c => c <> Ch.DOLLAR) repl ->
  (forall x y, h = x ++ y -> y <> [] -> Re.run r (y ++ rest) [] = None) ->
  replace_first r repl (h ++ rest) = h ++ replace_first r repl rest.
Proof.
  intros Hr H. unfold replace_first, Re.search.
  rewrite (search_from_skip r h [] rest H). cbn [app].
  rewrite <- (app_nil_r h) at 1. rewrite search_from_shift.
  destruct (Re.search_from r [] rest) as [f|]; cbn [fmap option_fmap option_map];
    [|done].
  rewrite !get_substitution_plain by done. cbn [shift_pre Re.f_pre Re.f_post].
  by rewrite <- app_assoc.
Qed.

Lemma header_comment_last (n : str) : last (header_comment n) = Some Ch.GT.
Proof.
  unfold header_comment. rewrite !last_app. reflexivity.
Qed.

Lemma exportNameRe_not_in_header (n rest x y : str) :
  Forall (fun c => c <> Ch.LBRACE) n ->
  header_comment n = x ++ y -> y <> [] ->
  Re.run exportNameRe (y ++ rest) [] = None.
Proof.
  intros Hn E Hy.
  destruct (Re.run exportNameRe (y ++ rest) []) as [res|] eqn:R; [|done].
  exfalso. unfold exportNameRe, Re.lits in R.
  apply run_lits_inv in R as [z Hz].
  assert (Hh : Forall (fun c => c <> Ch.LBRACE) (header_comment n)).
  { unfold header_comment. apply Forall_app. split.
    - apply (bool_decide_unpack _). vm_compute. exact I.
    - apply Forall_app. split; [exact Hn|].
      apply (bool_decide_unpack _). vm_compute. exact I. }
  assert (Hl : Forall (fun c => c <> Ch.GT) (js "export default {")).
  { apply (bool_decide_unpack _). vm_compute. exact I. }
  apply app_eq_app in Hz as [m [[-> _]|[Hm _]]].
  - rewrite E in Hh. apply Forall_app in Hh as [_ Hh].
    apply Forall_app in Hh as [Hh _].
    assert (Hin : Ch.LBRACE ∈ js "export default {").
    { apply (bool_decide_unpack _). vm_compute. exact I. }
    by apply (proj1 (Forall_forall _ _) Hh _ Hin).
  - pose proof (header_comment_last n) as L. rewrite E in L.
    rewrite last_app in L. destruct (last y) as [c|] eqn:Ly.
    + injection L as ->. rewrite Hm in Hl.
      apply Forall_app in Hl as [Hl _].
      by apply (Forall_last _ _ _ Hl Ly).
    + apply last_None in Ly. done.
Qed.

Lemma buildSFC_header (c : ExportedComponent) (i : nat) :
  exists body, content (buildSFC c i) = header_comment (name c) ++ body.
Proof. unfold buildSFC. cbn [content]. by eexists. Qed.

Lemma ident_not_dollar (c : N) : is_ident_char c = true -> c <> Ch.DOLLAR.
Proof. intros H ->. discriminate H. Qed.

Lemma collision_content (c : ExportedComponent) (newBase body : str) :
  Forall (fun ch => ch <> Ch.GT /\ ch <> Ch.DOLLAR /\ ch <> Ch.LBRACE)
         (name c) ->
  Forall (fun ch => is_ident_char ch = true) newBase ->
  replace_first headerRe (header_comment (name c))
    (replace_first exportNameRe
       (js "export default { name: '" ++ newBase ++ js "' }")
       (header_comment (name c) ++ body)) =
  header_comment (name c) ++
  replace_first exportNameRe
    (js "export default { name: '" ++ newBase ++ js "' }") body.
Proof.
  intros Hn Hb. rewrite replace_first_skip.
  - apply header_rewrite_id. eapply Forall_impl; [exact Hn|].
    by intros ch (? & ? & _).
  - apply Forall_app. split.
    + apply (bool_decide_unpack _). vm_compute. exact I.
    + apply Forall_app. split.
      * eapply Forall_impl; [exact Hb|]. apply ident_not_dollar.
      * apply (bool_decide_unpack _). vm_compute. exact I.
  - intros x y E Hy. apply (exportNameRe_not_in_header (name c) body x y);
      [|done|done].
    eapply Forall_impl; [exact Hn|]. by intros ch (_ & _ & ?).
Qed.

(** X17. In the collision branch only the name of the default export is
    renumbered: for a component name without [>], [$] and [{], the
    header comment of the file written still carries the name of the
    export, not the numbered base name, and the text after the header
    is the synthesized text with the first default export renamed. *)
Theorem collision_rewrite_keeps_header
        (w : writer) (c : ExportedComponent) (i n0 : nat) :
  has_template c = true ->
  used w !! compName c i = Some n0 ->
  Forall (fun ch => ch <> Ch.GT /\ ch <> Ch.DOLLAR /\ ch <> Ch.LBRACE)
         (name c) ->
  exists body,
    content (buildSFC c i) = header_comment (name c) ++ body /\
    written (write_component w c i) =
    written w ++
    [ {| filename := compName c i ++ js "_" ++ num_to_str (n0 + 1) ++
                     js ".vue";
         content :=
           header_comment (name c) ++
           replace_first exportNameRe
             (js "export default { name: '" ++ compName c i ++ js "_" ++
              num_to_str (n0 + 1) ++ js "' }")
             body |} ].
Proof.
  intros Hc Hu Hn. destruct (buildSFC_header c i) as [body Hb].
  exists body. split; [exact Hb|].
  rewrite write_component_gated by done. cbv zeta. rewrite Hu.
  unfold emit. cbn [written]. f_equal. f_equal. f_equal.
  - by rewrite <- !app_assoc.
  - rewrite Hb.
    rewrite (collision_content c (compName c i ++ js "_" ++ num_to_str (n0 + 1)));
      [by rewrite <- !app_assoc|exact Hn|].
    apply Forall_app. split; [apply compName_ident|].
    apply Forall_app. split; [by repeat constructor|].
    eapply Forall_impl; [apply num_to_str_digits|].
    intros ch. apply digit_ident_char.
Qed.

Lemma collision_rewrite_keeps_header_witness :
  written (write_component
             {| used := <[js "Foo" := 1%nat]> ∅; files := []; written := [] |}
             demo_foo 1) =
  [ {| filename := js "Foo_2.vue";
       content :=
         js "<!-- Generated from Figma export: Foo -->" ++ nl ++
         js "<template>" ++ nl ++
         js "<div>hi</div>" ++ nl ++ nl ++
         js "</template>" ++ nl ++ nl ++
         js "<script>" ++ nl ++
         js "export default { name: 'Foo_2' }" ++ nl ++
         js "</script>" ++ nl ++ nl |} ].
Proof.
  destruct (collision_rewrite_keeps_header
              {| used := <[js "Foo" := 1%nat]> ∅; files := []; written := [] |}
              demo_foo 1 1) as (body & Hb & Hw).
  - reflexivity.
  - apply lookup_insert_eq.
  - apply (bool_decide_unpack _). vm_compute. exact I.
  - rewrite Hw. cbn [written app]. f_equal. f_equal.
    apply app_inv_head in Hb. rewrite <- Hb. vm_compute. reflexivity.
Defined.

(** *** [updateAppVueWithTemplates] *)

Lemma join_app_head (sep a b : str) (tl : list str) :
  join sep ((a ++ b) :: tl) = a ++ join sep (b :: tl).
Proof. destruct tl; cbn [join]; by rewrite <- ?app_assoc. Qed.

Lemma split_char_nonempty (d : N) (s : str) : split_char d s <> [].
Proof.
  induction s as [|c s IH]; [done|]. cbn [split_char].
  destruct (c =? d); [done|]. by destruct (split_char d s).
Qed.

Lemma indent_lines_one_pass (s : str) :
  indent_lines s = js "      " ++ flat_map indent_char s.
Proof.
  unfold indent_lines. induction s as [|c s IH]; [reflexivity|].
  cbn [split_char flat_map]. unfold indent_char at 1.
  pose proof (split_char_nonempty Ch.LF s) as Hne.
  destruct (c =? Ch.LF).
  - cbn [List.map]. rewrite join_cons; [|by destruct (split_char Ch.LF s)].
    rewrite IH, app_nil_r. reflexivity.
  - destruct (split_char Ch.LF s) as [|l ls]; [done|].
    cbn [List.map] in *.
    change (js "      " ++ c :: l) with (js "      " ++ [c] ++ l).
    rewrite app_assoc, join_app_head.
    rewrite (join_app_head nl (js "      ") l) in IH.
    apply app_inv_head in IH.
    rewrite <- app_assoc. f_equal. cbn [app]. f_equal.
    destruct ls; cbn [join List.map] in *; exact IH.
Qed.

Lemma join_templates_normal (ts : list str) :
  join_templates
    (List.filter (fun t => negb (is_blank t)) (List.map trim ts)) =
  join_templates ts.
Proof.
  unfold join_templates. f_equal.
  induction ts as [|t ts IH]; [done|]. cbn [List.map List.filter].
  unfold is_blank at 1. rewrite trim_idemp.
  destruct (negb (str_eqb (trim t) [])) eqn:E; [|exact IH].
  cbn [List.map List.filter]. by rewrite trim_idemp, E, IH.
Qed.

Lemma join_templates_blank (ts1 ts2 : list str) (t : str) :
  is_blank t = true ->
  join_templates (ts1 ++ t :: ts2) = join_templates (ts1 ++ ts2).
Proof.
  intros H. unfold join_templates. f_equal.
  rewrite !List.map_app, !List.filter_app. f_equal.
  cbn [List.map List.filter]. unfold is_blank in H. by rewrite H.
Qed.

(** X18. The markup that [updateAppVueWithTemplates] injects is the
    joined templates with six spaces put in front and after every line
    feed; the file written depends only on the templates that are not
    blank, each without the white space around it. *)
Theorem injected_templates_are_indented
        (w : world) (ts1 ts2 : list str) (t : str) :
  (forall text, indent_lines text = js "      " ++ flat_map indent_char text) /\
  updateAppVueWithTemplates w
    (List.filter (fun t => negb (is_blank t)) (List.map trim (ts1 ++ ts2))) =
  updateAppVueWithTemplates w (ts1 ++ ts2) /\
  (is_blank t = true ->
   updateAppVueWithTemplates w (ts1 ++ t :: ts2) =
   updateAppVueWithTemplates w (ts1 ++ ts2)).
Proof.
  split; [apply indent_lines_one_pass|].
  unfold updateAppVueWithTemplates, templates_app. split.
  - by rewrite join_templates_normal.
  - intros H. by rewrite (join_templates_blank ts1 ts2 t H).
Qed.

Lemma injected_templates_are_indented_witness :
  is_blank (js "  " ++ nl) = true /\
  updateAppVueWithTemplates demo_ok_world
    ([js "<a/>"] ++ (js "  " ++ nl) :: [js " <b/>"]) =
  updateAppVueWithTemplates demo_ok_world ([js "<a/>"] ++ [js " <b/>"]) /\
  indent_lines (join_templates [js "<a/>"; js " <b/>"]) =
  js "      <a/>" ++ nl ++ js "      " ++ nl ++ js "      <b/>".
Proof.
  destruct (injected_templates_are_indented demo_ok_world
              [js "<a/>"] [js " <b/>"] (js "  " ++ nl)) as (H1 & _ & H3).
  split; [reflexivity|]. split; [apply H3; reflexivity|].
  rewrite H1. vm_compute. reflexivity.
Defined.

(** ** Further properties of the Exporter *)

Module ExporterFacts.
Import Exporter.

Lemma ends_with_lf_app (ps qs : list str) :
  ends_with_lf ps -> ends_with_lf qs -> ends_with_lf (ps ++ qs).
Proof.
  intros Hp [->|(q & Hq & Hl)]; [by rewrite app_nil_r|].
  right. exists q. split; [|exact Hl].
  destruct qs as [|q0 qs]; [done|]. by rewrite last_app, Hq.
Qed.

Lemma block_parts_end (b : CodeBlock) : ends_with_lf (block_parts b).
Proof. right. by exists nl. Qed.

Lemma blocks_parts_end (bs : list CodeBlock) :
  ends_with_lf (flat_map block_parts bs).
Proof.
  induction bs as [|b bs IH]; [by left|]. cbn [flat_map].
  apply ends_with_lf_app; [apply block_parts_end|exact IH].
Qed.

Lemma child_parts_end (c : node) : ends_with_lf (child_parts c).
Proof.
  unfold child_parts. destruct (has_component c); [|by left].
  change (?h :: ?t) with ([h] ++ t).
  apply ends_with_lf_app; [|apply blocks_parts_end].
  right. eexists. split; [reflexivity|]. unfold nl. by rewrite last_snoc.
Qed.

Lemma children_parts_end (cs : list node) :
  ends_with_lf (flat_map child_parts cs).
Proof.
  induction cs as [|c cs IH]; [by left|]. cbn [flat_map].
  apply ends_with_lf_app; [apply child_parts_end|exact IH].
Qed.

Lemma join_last (sep : str) (ps : list str) (p : str) (c : N) :
  last ps = Some p -> last p = Some c -> last (join sep ps) = Some c.
Proof.
  induction ps as [|q ps IH]; [done|]. intros Hp Hc.
  destruct ps as [|q' ps].
  - cbn in *. congruence.
  - rewrite join_cons by done. cbn [last] in Hp.
    specialize (IH Hp Hc). rewrite !last_app.
    by rewrite IH.
Qed.

Lemma collect_parts_none (cs : list node) :
  collect_parts cs = None <->
  Exists (fun c => has_component c = true /\ host_rejects c = true) cs.
Proof.
  induction cs as [|c cs IH]; [split; [done|by inversion 1]|].
  cbn [collect_parts].
  destruct (has_component c) eqn:Hc, (host_rejects c) eqn:Hr; cbn [andb].
  - split; [intros _; by apply Exists_cons_hd|done].
  - destruct (collect_parts cs); cbn; (split; [intros H|intros H]).
    + done.
    + inversion H as [? ? [? ?]|? ? H']; [congruence|]. by apply IH in H'.
    + apply Exists_cons_tl. by apply IH.
    + done.
  - destruct (collect_parts cs); cbn; (split; [intros H|intros H]).
    + done.
    + inversion H as [? ? [? ?]|? ? H']; [congruence|]. by apply IH in H'.
    + apply Exists_cons_tl. by apply IH.
    + done.
  - destruct (collect_parts cs); cbn; (split; [intros H|intros H]).
    + done.
    + inversion H as [? ? [? ?]|? ? H']; [congruence|]. by apply IH in H'.
    + apply Exists_cons_tl. by apply IH.
    + done.
Qed.

Lemma children_parts_nil (cs : list node) :
  flat_map child_parts cs = [] <-> List.filter has_component cs = [].
Proof.
  induction cs as [|c cs IH]; [done|]. cbn [flat_map List.filter].
  unfold child_parts at 1. destruct (has_component c); [done|]. exact IH.
Qed.

End ExporterFacts.

(** X19. The Exporter hands no text to the browser exactly when no child
    of the frame has a design component or an awaited call rejects for a
    child that has one; in the second case, and only then, the failure
    is caught and logged. A text that is handed over is the parts of
    all children joined by line feeds, and it ends with a line feed. *)
Theorem nothing_downloaded_iff_no_component_or_rejection
        (children : list Exporter.node) :
  (Exporter.downloadAllFromFrame children = None <->
   List.filter Exporter.has_component children = [] \/
   Exists (fun c => Exporter.has_component c = true /\
                    Exporter.host_rejects c = true) children) /\
  (Exporter.logs_failure children = true <->
   Exists (fun c => Exporter.has_component c = true /\
                    Exporter.host_rejects c = true) children) /\
  (forall text,
      Exporter.downloadAllFromFrame children = Some text ->
      text = join nl (flat_map Exporter.child_parts children) /\
      last text = Some Ch.LF).
Proof.
  unfold Exporter.downloadAllFromFrame, Exporter.logs_failure.
  pose proof (ExporterFacts.collect_parts_none children) as Hr.
  pose proof (ExporterFacts.children_parts_nil children) as Hn.
  pose proof (ExporterFacts.children_parts_end children) as He.
  destruct (Exporter.collect_parts children) as [parts|] eqn:E.
  - pose proof (collect_parts_all _ _ E) as ->.
    assert (Hno : ~ Exists (fun c => Exporter.has_component c = true /\
                                     Exporter.host_rejects c = true) children).
    { intros H. apply Hr in H. discriminate H. }
    destruct (flat_map Exporter.child_parts children) as [|p ps] eqn:Ep.
    + split; [|split; [|done]].
      * split; [intros _; left; by apply Hn|done].
      * split; [done|intros H; by destruct Hno].
    + split; [|split].
      * split; [done|]. intros [H|H]; [apply Hn in H; done|by destruct Hno].
      * split; [done|intros H; by destruct Hno].
      * intros text Ht. replace text with (join nl (p :: ps)) by congruence.
        split; [done|]. destruct He as [He|(q & Hq & Hl)]; [done|].
        by apply (ExporterFacts.join_last _ _ q).
  - split; [|split; [|done]].
    + split; [|done]. intros _. right. by apply Hr.
    + split; [|done]. intros _. by apply Hr.
Qed.

Lemma nothing_downloaded_iff_no_component_or_rejection_witness :
  Exporter.downloadAllFromFrame
    [ {| Exporter.node_name := js "Group"; Exporter.node_id := js "1:2";
         Exporter.has_component := false; Exporter.host_rejects := true;
         Exporter.codeBlocks := [] |} ] =
  None /\
  Exporter.downloadAllFromFrame demo_rejecting_frame = None /\
  Exporter.logs_failure demo_rejecting_frame = true /\
  exists text, Exporter.downloadAllFromFrame demo_frame = Some text /\
               last text = Some Ch.LF.
Proof.
  split; [|split; [|split]].
  - apply (proj1 (nothing_downloaded_iff_no_component_or_rejection _)).
    left. reflexivity.
  - apply (proj1 (nothing_downloaded_iff_no_component_or_rejection _)).
    right. apply Exists_cons_tl, Exists_cons_hd. by split.
  - apply (proj1 (proj2 (nothing_downloaded_iff_no_component_or_rejection _))).
    apply Exists_cons_tl, Exists_cons_hd. by split.
  - eexists. split; [reflexivity|].
    apply (proj2 (proj2 (nothing_downloaded_iff_no_component_or_rejection
                           demo_frame))).
    reflexivity.
Defined.

(** X20. The name of the downloaded file holds no white space, whatever
    the name of the frame: every run of white space becomes one
    underscore, and a frame name without white space is kept as it
    is. *)
Theorem download_file_name_has_no_white_space (frame_name : str) :
  Forall (fun c => is_space c = false)
         (Exporter.download_filename frame_name) /\
  (frame_name <> [] ->
   Forall (fun c => is_space c = false) frame_name ->
   Exporter.download_filename frame_name =
   frame_name ++ js "-components-code.txt").
Proof.
  unfold Exporter.download_filename. split.
  - apply Forall_app. split.
    + destruct frame_name as [|c n]; [by repeat constructor|].
      apply collapse_spaces_chars; [done|].
      apply Forall_forall. by intros.
    + apply (bool_decide_unpack _). vm_compute. exact I.
  - intros Hne Hs. destruct frame_name as [|c n]; [done|].
    by rewrite collapse_no_space.
Qed.

Lemma download_file_name_has_no_white_space_witness :
  Forall (fun c => is_space c = false) (js "Card") /\
  Exporter.download_filename (js "Card") = js "Card-components-code.txt" /\
  Forall (fun c => is_space c = false)
         (Exporter.download_filename (js "My  card" ++ nl ++ js "v2")).
Proof.
  assert (H : Forall (fun c => is_space c = false) (js "Card")).
  { by repeat constructor. }
  split; [exact H|].
  destruct (download_file_name_has_no_white_space (js "Card")) as [_ H2].
  split; [apply H2; [discriminate|exact H]|].
  apply (download_file_name_has_no_white_space (js "My  card" ++ nl ++ js "v2")).
Defined.
